(** * go-logslib: the encoders, the delivery channel and the configuration

    A shallow embedding of [pkg/logger] (logger.go, json.go, env.go): the
    value and record encoders, the scratch-buffer pool, the buffering and
    flush protocol, the levelled methods, the context logger and the
    configuration from the environment, with the properties of the
    specification and further properties of the code stated over it.

    Conventions of the embedding
    - a Go [byte] is an [ascii]; a Go [string] and the contents of a [[]byte]
      are a [list byte];
    - a [[]byte] value is a [slice]: its contents and its capacity;
    - an [int64] is a [Z] in the 64-bit range, with the wrap-around of the
      arithmetic written out; an [int] is taken to be 64 bits wide;
    - a [float64] is a primitive binary64 float;
    - a call that does not return (a run-time panic, a goroutine waiting for
      a mutex it holds) is [None] in the option monad; [Fatal] and [Panic],
      which end in [os.Exit] and [panic], give the world they leave and the
      way they end;
    - [time.Now()] is an argument of the call that reads the clock, and
      [os.Getenv] an argument of the functions that read the environment;
    - the logger is a record that is passed along explicitly, together with
      the trace of the effects a call performs (mutex, pool, sink). Calls
      run one after the other: goroutines are not part of the embedding.

    The file has three parts: the embedding of the code, the notions the
    properties are stated with, and the properties. *)

From Stdlib Require Import ZArith Lia Ascii String Floats.
From Stdlib Require Import DecimalString DecimalPos DecimalN DecimalZ.
From stdpp Require Import base option list.

Local Open Scope Z_scope.

(** ** Bytes and strings *)

Abbreviation byte := ascii (only parsing).

(** A Go string literal. *)
Definition bs (s : string) : list byte := list_ascii_of_string s.

(** [byte(x)] for an integer [x]: the low eight bits. *)
Definition byte_of_Z (x : Z) : byte := ascii_of_N (Z.to_N (x mod 256)).

Definition Z_of_byte (b : byte) : Z := Z.of_N (N_of_ascii b).

(** The double quote, and the other bytes the encoders name. *)
Definition quote : byte := "034"%char.
Definition newline : byte := "010"%char.
Definition carriage_return : byte := "013"%char.
Definition tab : byte := "009"%char.

Definition dq : list byte := [quote].

(** ** 64-bit integers *)

Definition minInt64 : Z := - 2 ^ 63.
Definition maxInt64 : Z := 2 ^ 63 - 1.

Definition int64 (z : Z) : Prop := minInt64 <= z <= maxInt64.

Definition wrap64 (z : Z) : Z := (z + 2 ^ 63) mod 2 ^ 64 - 2 ^ 63.

Definition neg64 (i : Z) : Z := wrap64 (- i).
Definition add64 (i j : Z) : Z := wrap64 (i + j).

(** ** What the language leaves to the implementation

    [append] reuses the backing array while the capacity suffices and moves
    to a larger one otherwise; how much larger is the business of the run
    time, and the embedding only relies on the new array being large enough.
    Converting a float that does not fit to [int64] succeeds with a value
    that depends on the platform. *)

Class GoImpl := {
  growslice : nat -> nat -> nat;
  growslice_fits :
    forall oldCap newLen : nat, (newLen <= growslice oldCap newLen)%nat;
  float_overflow : float -> Z;
  float_overflow_int64 : forall f, int64 (float_overflow f)
}.

(** [make] panics on a capacity the run time does not allocate: more than
    [maxAlloc] bytes. An allocation within this limit succeeds. *)
Class GoAlloc := {
  maxAlloc : Z;
  maxAlloc_pos : 0 < maxAlloc
}.

(** The growth rule of the gc run time ([nextslicecap]), the rounding to an
    allocation size class left out. *)
Fixpoint nextslicecap_loop (fuel newcap newLen : nat) : nat :=
  match fuel with
  | O => Nat.max newcap newLen
  | S fuel' =>
      let newcap := (newcap + (newcap + 3 * 256) / 4)%nat in
      if (newLen <=? newcap)%nat then newcap
      else nextslicecap_loop fuel' newcap newLen
  end.

Definition nextslicecap (oldCap newLen : nat) : nat :=
  let doublecap := (oldCap + oldCap)%nat in
  if (doublecap <? newLen)%nat then newLen
  else if (oldCap <? 256)%nat then doublecap
  else nextslicecap_loop newLen oldCap newLen.

(** ** Slices *)

Record slice := Slice { bytes : list byte; cap : nat }.

Section Slices.
Context `{GoImpl}.

(** [make([]byte, 0, c)] *)
Definition make0 (c : nat) : slice := Slice [] c.

(** [s[:0]] *)
Definition reslice0 (s : slice) : slice := Slice [] (cap s).

(** [append(s, xs...)] *)
Definition append (s : slice) (xs : list byte) : slice :=
  let n := (length (bytes s) + length xs)%nat in
  if (n <=? cap s)%nat then Slice (bytes s ++ xs) (cap s)
  else Slice (bytes s ++ xs) (growslice (cap s) n).

Definition slice_wf (s : slice) : Prop := (length (bytes s) <= cap s)%nat.

End Slices.

(** ** Runes

    [for _, r := range s] over a string decodes UTF-8: each iteration yields
    one code point and advances by its width; an invalid sequence yields
    U+FFFD and advances by one byte. *)

Definition runeError : Z := 0xFFFD.

(** The class of a leading byte at or above 0x80: the width of the sequence
    and the range the second byte has to be in. *)
Definition utf8_first (s0 : Z) : option (nat * Z * Z) :=
  if s0 <? 0xC2 then None
  else if s0 <=? 0xDF then Some (2%nat, 0x80, 0xBF)
  else if s0 =? 0xE0 then Some (3%nat, 0xA0, 0xBF)
  else if s0 =? 0xED then Some (3%nat, 0x80, 0x9F)
  else if s0 <=? 0xEF then Some (3%nat, 0x80, 0xBF)
  else if s0 =? 0xF0 then Some (4%nat, 0x90, 0xBF)
  else if s0 <=? 0xF3 then Some (4%nat, 0x80, 0xBF)
  else if s0 =? 0xF4 then Some (4%nat, 0x80, 0x8F)
  else None.

Definition utf8_cont (b : Z) : bool := (0x80 <=? b) && (b <=? 0xBF).

(** The code point at the head of [s] and its width in bytes. *)
Definition decodeRune (s : list byte) : Z * nat :=
  match s with
  | [] => (runeError, 0%nat)
  | b0 :: r1 =>
      let s0 := Z_of_byte b0 in
      if s0 <? 0x80 then (s0, 1%nat)
      else
        match utf8_first s0, r1 with
        | Some (sz, lo, hi), b1 :: r2 =>
            let s1 := Z_of_byte b1 in
            if (s1 <? lo) || (hi <? s1) then (runeError, 1%nat)
            else if (sz <=? 2)%nat then
              (Z.lor (Z.shiftl (Z.land s0 0x1F) 6) (Z.land s1 0x3F), 2%nat)
            else
              match r2 with
              | b2 :: r3 =>
                  let s2 := Z_of_byte b2 in
                  if negb (utf8_cont s2) then (runeError, 1%nat)
                  else if (sz <=? 3)%nat then
                    (Z.lor (Z.lor (Z.shiftl (Z.land s0 0x0F) 12)
                                  (Z.shiftl (Z.land s1 0x3F) 6))
                           (Z.land s2 0x3F), 3%nat)
                  else
                    match r3 with
                    | b3 :: _ =>
                        let s3 := Z_of_byte b3 in
                        if negb (utf8_cont s3) then (runeError, 1%nat)
                        else
                          (Z.lor (Z.lor (Z.lor (Z.shiftl (Z.land s0 0x07) 18)
                                               (Z.shiftl (Z.land s1 0x3F) 12))
                                        (Z.shiftl (Z.land s2 0x3F) 6))
                                 (Z.land s3 0x3F), 4%nat)
                    | [] => (runeError, 1%nat)
                    end
              | [] => (runeError, 1%nat)
              end
        | _, _ => (runeError, 1%nat)
        end
  end.

(** ** Field values

    The dynamic type of [Field.Value]: the five types the encoders switch on,
    and everything else ([nil] included). *)

Inductive value :=
| VString (s : list byte)
| VInt (i : Z)
| VInt64 (i : Z)
| VFloat64 (f : float)
| VBool (b : bool)
| VOther.

Record Field := mkField { Key : list byte; Value : value }.

(** ** Conversions between [float64] and [int64] *)

(** The integer part of a finite float, rounded toward zero; [None] for an
    infinity or a NaN. *)
Definition float_trunc (f : float) : option Z :=
  match Prim2SF f with
  | S754_zero _ => Some 0
  | S754_finite s m e =>
      let mag := if 0 <=? e then Z.pos m * 2 ^ e else Z.pos m / 2 ^ (- e) in
      Some (if s then - mag else mag)
  | S754_infinity _ | S754_nan => None
  end.

(** [float64(i)] for an [int64] [i]. *)
Definition float_of_int64 (i : Z) : float :=
  if i =? minInt64 then (-0x1p63)%float
  else if i <? 0 then PrimFloat.opp (PrimFloat.of_uint63 (Uint63.of_Z (- i)))
  else PrimFloat.of_uint63 (Uint63.of_Z i).

(** ** Time

    Package [time] of the Go library, as far as the logger uses it. A [Time]
    is an instant and the zone it is to be shown in: seconds and nanoseconds
    since the Unix epoch, and the offset of the zone east of UTC in seconds.
    [Format] renders a layout element by element. *)

Record Time := mkTime { unixSec : Z; nanosec : Z; zoneOffset : Z }.

(** [t.UTC()] *)
Definition Time_UTC (t : Time) : Time := mkTime (unixSec t) (nanosec t) 0.

(** The elements of a layout of package [time], as far as the two layouts of
    the logger go. *)
Inductive layoutElem :=
| stdLit (text : string)
| stdLongYear            (* 2006 *)
| stdZeroMonth           (* 01 *)
| stdZeroDay             (* 02 *)
| stdHour                (* 15 *)
| stdZeroMinute          (* 04 *)
| stdZeroSecond          (* 05 *)
| stdFracSecond0 (n : nat)   (* .000: n digits, kept *)
| stdFracSecond9 (n : nat)   (* .999: n digits, trailing zeros removed *)
| stdISO8601ColonTZ.     (* Z07:00 *)

(** "2006-01-02T15:04:05.000Z07:00", the layout of [appendText]. *)
Definition layoutMillis : list layoutElem :=
  [stdLongYear; stdLit "-"; stdZeroMonth; stdLit "-"; stdZeroDay; stdLit "T";
   stdHour; stdLit ":"; stdZeroMinute; stdLit ":"; stdZeroSecond;
   stdFracSecond0 3; stdISO8601ColonTZ].

(** [time.RFC3339Nano], "2006-01-02T15:04:05.999999999Z07:00". *)
Definition RFC3339Nano : list layoutElem :=
  [stdLongYear; stdLit "-"; stdZeroMonth; stdLit "-"; stdZeroDay; stdLit "T";
   stdHour; stdLit ":"; stdZeroMinute; stdLit ":"; stdZeroSecond;
   stdFracSecond9 9; stdISO8601ColonTZ].

(** The decimal digits of a natural number. *)
Definition digits (n : Z) : list byte :=
  bs (NilZero.string_of_uint (N.to_uint (Z.to_N n))).

(** [appendInt] of package [time]: at least [width] digits, zero padded. *)
Definition pad_int (x : Z) (width : nat) : list byte :=
  let d := digits (Z.abs x) in
  (if x <? 0 then bs "-" else []) ++ replicate (width - length d) "0"%char ++ d.

(** The civil date of a day number counted from 1970-01-01. *)
Definition civil_of_days (days : Z) : Z * Z * Z :=
  let z := days + 719468 in
  let era := z / 146097 in
  let doe := z - era * 146097 in
  let yoe := (doe - doe / 1460 + doe / 36524 - doe / 146096) / 365 in
  let doy := doe - (365 * yoe + yoe / 4 - yoe / 100) in
  let mp := (5 * doy + 2) / 153 in
  let d := doy - (153 * mp + 2) / 5 + 1 in
  let m := if mp <? 10 then mp + 3 else mp - 9 in
  let y := yoe + era * 400 + (if m <=? 2 then 1 else 0) in
  (y, m, d).

(** [d] without the zeros at its head. *)
Fixpoint dropwhile_zero (d : list byte) : list byte :=
  match d with
  | c :: d' => if Ascii.eqb c "0" then dropwhile_zero d' else d
  | [] => []
  end.

Definition strip_trailing_zeros (d : list byte) : list byte :=
  reverse (dropwhile_zero (reverse d)).

(** The fraction of the second: a point and the first [n] of the nine
    digits of the nanoseconds; with [trim], the zeros at the end go, and a
    fraction of zero is left out. *)
Definition formatNano (nanosec : Z) (n : nat) (trim : bool) : list byte :=
  if trim && ((n =? 0)%nat || (nanosec =? 0)) then []
  else
    let d := take n (pad_int nanosec 9) in
    bs "." ++ (if trim then strip_trailing_zeros d else d).

(** One layout element: the date and the time of day are those of the
    instant in the zone of [t]; the zone marker is [Z] at offset zero and the
    signed offset in hours and minutes otherwise. *)
Definition formatElem (t : Time) (e : layoutElem) : list byte :=
  let abs := unixSec t + zoneOffset t in
  let '(year, month, day) := civil_of_days (abs / 86400) in
  let secs := abs mod 86400 in
  match e with
  | stdLit text => bs text
  | stdLongYear => pad_int year 4
  | stdZeroMonth => pad_int month 2
  | stdZeroDay => pad_int day 2
  | stdHour => pad_int (secs / 3600) 2
  | stdZeroMinute => pad_int (secs mod 3600 / 60) 2
  | stdZeroSecond => pad_int (secs mod 60) 2
  | stdFracSecond0 n => formatNano (nanosec t) n false
  | stdFracSecond9 n => formatNano (nanosec t) n true
  | stdISO8601ColonTZ =>
      if zoneOffset t =? 0 then bs "Z"
      else
        let zone := Z.quot (zoneOffset t) 60 in
        (if zone <? 0 then bs "-" else bs "+")
          ++ pad_int (Z.abs zone / 60) 2 ++ bs ":" ++ pad_int (Z.abs zone mod 60) 2
  end.

(** [t.Format(layout)] *)
Definition Time_Format (t : Time) (layout : list layoutElem) : list byte :=
  concat (map (formatElem t) layout).

Section Encoder.
Context `{GoImpl}.

(** [int64(f)] for a [float64] [f]. *)
Definition int64_of_float (f : float) : Z :=
  match float_trunc f with
  | Some z => if (minInt64 <=? z) && (z <=? maxInt64) then z else float_overflow f
  | None => float_overflow f
  end.

(** ** The value encoder *)

(** The loop of [appendInt]: [tmp] is the 20-byte array, [idx] the write
    position. Decrementing [idx] below zero makes [tmp[idx]] panic. *)
Fixpoint appendInt_loop (idx : nat) (tmp : list byte) (i : Z)
  : option (nat * list byte) :=
  if 0 <? i then
    match idx with
    | O => None
    | S idx' =>
        appendInt_loop idx'
          (<[idx' := byte_of_Z (add64 48 (Z.rem i 10))]> tmp)
          (Z.quot i 10)
    end
  else Some (idx, tmp).

Definition appendInt (buf : slice) (i : Z) : option slice :=
  if i =? 0 then Some (append buf (bs "0"))
  else
    let '(buf, i) :=
      if i <? 0 then (append buf (bs "-"), neg64 i) else (buf, i) in
    '(idx, tmp) ← appendInt_loop 20 (replicate 20 "000"%char) i;
    Some (append buf (drop idx tmp)).

(** The loop of [needsQuoting], over the runes of what is left of the
    string. *)
Fixpoint needsQuoting_loop (fuel : nat) (s : list byte) : bool :=
  match fuel, s with
  | S fuel', _ :: _ =>
      let '(r, w) := decodeRune s in
      if (r =? 32) || (r =? 61) || (r =? 34) then true
      else needsQuoting_loop fuel' (drop w s)
  | _, _ => false
  end.

Definition needsQuoting (s : list byte) : bool :=
  needsQuoting_loop (length s) s.

Definition appendJSONFloat (buf : slice) (f : float) : option slice :=
  if PrimFloat.eqb f 0 then Some (append buf (bs "0"))
  else
    let '(buf, f) :=
      if PrimFloat.ltb f 0 then (append buf (bs "-"), PrimFloat.opp f)
      else (buf, f) in
    let integer := int64_of_float f in
    let fractional := PrimFloat.sub f (float_of_int64 integer) in
    buf ← appendInt buf integer;
    if PrimFloat.ltb 0 fractional then
      let buf := append buf (bs ".") in
      let fractional := PrimFloat.mul fractional 1000 in
      appendInt buf (int64_of_float fractional)
    else Some buf.

(** The text-mode value encoder. *)
Definition appendValue (buf : slice) (v : value) : option slice :=
  match v with
  | VString v =>
      if needsQuoting v then
        let buf := append buf dq in
        let buf := append buf v in
        Some (append buf dq)
      else Some (append buf v)
  | VInt v => appendInt buf v
  | VInt64 v => appendInt buf v
  | VFloat64 v => appendJSONFloat buf v
  | VBool v =>
      if v then Some (append buf (bs "true"))
      else Some (append buf (bs "false"))
  | VOther =>
      let buf := append buf dq in
      let buf := append buf (bs "unknown") in
      Some (append buf dq)
  end.

Definition appendJSONString_byte (buf : slice) (r : byte) : slice :=
  if Ascii.eqb r quote then append buf (bs "\" ++ dq)
  else if Ascii.eqb r "\" then append buf (bs "\\")
  else if Ascii.eqb r newline then append buf (bs "\n")
  else if Ascii.eqb r carriage_return then append buf (bs "\r")
  else if Ascii.eqb r tab then append buf (bs "\t")
  else append buf [r].

(** [for _, r := range []byte(s)]: byte by byte, no decoding. *)
Definition appendJSONString (buf : slice) (s : list byte) : slice :=
  foldl appendJSONString_byte buf s.

(** The JSON-mode value encoder. *)
Definition appendJSONValue (buf : slice) (v : value) : option slice :=
  match v with
  | VString v =>
      let buf := append buf dq in
      let buf := appendJSONString buf v in
      Some (append buf dq)
  | VInt v => appendInt buf v
  | VInt64 v => appendInt buf v
  | VFloat64 v => appendJSONFloat buf v
  | VBool v =>
      if v then Some (append buf (bs "true"))
      else Some (append buf (bs "false"))
  | VOther =>
      let buf := append buf dq in
      let buf := appendJSONString buf (bs "unknown") in
      Some (append buf dq)
  end.

(** ** Levels and formats *)

Definition DebugLevel : Z := -1.
Definition InfoLevel : Z := 0.
Definition WarnLevel : Z := 1.
Definition ErrorLevel : Z := 2.
Definition FatalLevel : Z := 3.
Definition PanicLevel : Z := 4.

(** [Level.String] *)
Definition Level_String (l : Z) : list byte :=
  if l =? DebugLevel then bs "DEBUG"
  else if l =? InfoLevel then bs "INFO"
  else if l =? WarnLevel then bs "WARN"
  else if l =? ErrorLevel then bs "ERROR"
  else if l =? FatalLevel then bs "FATAL"
  else if l =? PanicLevel then bs "PANIC"
  else bs "UNKNOWN".

Definition TextFormat : Z := 0.
Definition JSONFormat : Z := 1.

(** [Config]. The sink [Output] is not a field of the embedding: the calls of
    its [Write] are recorded in the trace. *)
Record Config := mkConfig {
  Level : Z;
  Format : Z;
  BufferSize : Z;
  UseUTC : bool
}.

(** [Logger]: [mu] tells whether the mutex is held. *)
Record Logger := mkLogger {
  config : Config;
  buffer : slice;
  pool : list slice;
  mu : bool
}.

(** ** The record encoders *)

Fixpoint appendText_fields (buf : slice) (fields : list Field) : option slice :=
  match fields with
  | [] => Some buf
  | field :: fields' =>
      let buf := append buf (bs " ") in
      let buf := append buf (Key field) in
      let buf := append buf (bs "=") in
      buf ← appendValue buf (Value field);
      appendText_fields buf fields'
  end.

(** [now] is what [time.Now()] returns during the call. *)
Definition appendText (l : Logger) (now : Time) (buf : slice) (level : Z)
    (msg : list byte) (fields : list Field) : option slice :=
  let now := Time_UTC now in
  let buf := append buf (Time_Format now layoutMillis) in
  let buf := append buf (bs " ") in
  let buf := append buf (Level_String level) in
  let buf := append buf (bs " ") in
  let buf := append buf msg in
  appendText_fields buf fields.

Fixpoint appendJSON_fields (buf : slice) (fields : list Field) : option slice :=
  match fields with
  | [] => Some buf
  | field :: fields' =>
      let buf := append buf (bs "," ++ dq) in
      let buf := appendJSONString buf (Key field) in
      let buf := append buf (dq ++ bs ":") in
      buf ← appendJSONValue buf (Value field);
      appendJSON_fields buf fields'
  end.

Definition appendJSON (l : Logger) (now : Time) (buf : slice) (level : Z)
    (msg : list byte) (fields : list Field) : option slice :=
  let buf := append buf (bs "{") in
  let now := if UseUTC (config l) then Time_UTC now else now in
  let buf := append buf (dq ++ bs "timestamp" ++ dq ++ bs ":" ++ dq) in
  let buf := append buf (Time_Format now RFC3339Nano) in
  let buf := append buf dq in
  let buf := append buf (bs "," ++ dq ++ bs "level" ++ dq ++ bs ":" ++ dq) in
  let buf := append buf (Level_String level) in
  let buf := append buf dq in
  let buf := append buf (bs "," ++ dq ++ bs "message" ++ dq ++ bs ":" ++ dq) in
  let buf := appendJSONString buf msg in
  let buf := append buf dq in
  buf ← appendJSON_fields buf fields;
  Some (append buf (bs "}")).

(** ** The logger

    A call runs on a logger and the trace of what has happened so far. *)

Inductive event :=
| EvLock
| EvUnlock
| EvPoolNew (s : slice)
| EvPoolGet (s : slice)
| EvPoolPut (s : slice)
| EvWrite (p : list byte).

(** The logger and the trace so far. *)
Definition world : Type := Logger * list event.

(** Assignments to the fields of the logger. *)
Definition set_buffer (b : slice) (l : Logger) : Logger :=
  mkLogger (config l) b (pool l) (mu l).
Definition set_pool (p : list slice) (l : Logger) : Logger :=
  mkLogger (config l) (buffer l) p (mu l).
Definition set_mu (m : bool) (l : Logger) : Logger :=
  mkLogger (config l) (buffer l) (pool l) m.

(** [New]. [make] panics on a capacity that is negative or above what the
    run time allocates. *)
Definition New `{GoAlloc} (cfg : Config) : option Logger :=
  if (BufferSize cfg <? 0) || (maxAlloc <? BufferSize cfg) then None
  else Some (mkLogger cfg (make0 (Z.to_nat (BufferSize cfg))) [] false).

(** [l.mu.Lock()]: a goroutine that locks a mutex it already holds never
    returns. *)
Definition mu_Lock (w : world) : option world :=
  let '(l, tr) := w in
  if mu l then None else Some (set_mu true l, tr ++ [EvLock]).

(** [l.mu.Unlock()]: unlocking a mutex that is not locked is a fatal error. *)
Definition mu_Unlock (w : world) : option world :=
  let '(l, tr) := w in
  if mu l then Some (set_mu false l, tr ++ [EvUnlock]) else None.

(** [l.config.Output.Write(p)], the result dropped. *)
Definition Output_Write (p : list byte) (w : world) : world :=
  let '(l, tr) := w in (l, tr ++ [EvWrite p]).

(** [l.pool.Get()]: an idle buffer if there is one, the result of the [New]
    function of the pool otherwise. A [sync.Pool] may hand out any idle item
    and may drop idle items; here it hands out the one put back last and
    drops none. *)
Definition pool_Get (w : world) : slice * world :=
  let '(l, tr) := w in
  match pool l with
  | b :: idle => (b, (set_pool idle l, tr ++ [EvPoolGet b]))
  | [] => let b := make0 256 in (b, (l, tr ++ [EvPoolNew b; EvPoolGet b]))
  end.

(** [l.pool.Put(b)] *)
Definition pool_Put (b : slice) (w : world) : world :=
  let '(l, tr) := w in (set_pool (b :: pool l) l, tr ++ [EvPoolPut b]).

(** [flush], to be called with the mutex held. *)
Definition flush (w : world) : world :=
  let '(l, tr) := w in
  if (0 <? length (bytes (buffer l)))%nat then
    let '(l, tr) := Output_Write (bytes (buffer l)) (l, tr) in
    (set_buffer (reslice0 (buffer l)) l, tr)
  else (l, tr).

(** [Flush] *)
Definition Flush (w : world) : option world :=
  if 0 <? BufferSize (config w.1) then
    w ← mu_Lock w;
    mu_Unlock (flush w)
  else Some w.

(** [write] *)
Definition write (buf : slice) (w : world) : option world :=
  if 0 <? BufferSize (config w.1) then
    w ← mu_Lock w;
    let w :=
      if BufferSize (config w.1)
           <? Z.of_nat (length (bytes (buffer w.1))) + Z.of_nat (length (bytes buf))
      then flush w else w in
    let '(l, tr) := w in
    let l := set_buffer (append (buffer l) (bytes buf)) l in
    let l := set_buffer (append (buffer l) [newline]) l in
    mu_Unlock (l, tr)
  else
    let w := Output_Write (bytes buf) w in
    Some (Output_Write [newline] w).

(** [log]. The argument of the deferred [l.pool.Put(buf)] is evaluated when
    the [defer] statement executes; the call itself runs when [log]
    returns. *)
Definition log (now : Time) (level : Z) (msg : list byte) (fields : list Field)
    (w : world) : option world :=
  if level <? Level (config w.1) then Some w
  else
    let '(buf, w) := pool_Get w in
    let buf := reslice0 buf in
    let deferred := buf in
    buf ← (if Format (config w.1) =? JSONFormat
           then appendJSON w.1 now buf level msg fields
           else appendText w.1 now buf level msg fields);
    w ← write buf w;
    Some (pool_Put deferred w).

End Encoder.

(** The gc tool chain on amd64: slices grow by [nextslicecap], and an
    out-of-range conversion yields the "integer indefinite" value, the
    smallest [int64]. *)
#[export] Instance go_amd64 : GoImpl.
Proof.
  refine {| growslice := nextslicecap; float_overflow := fun _ => minInt64 |}.
  - intros oldCap newLen. unfold nextslicecap.
    destruct (Nat.ltb_spec (oldCap + oldCap) newLen); [lia|].
    destruct (Nat.ltb_spec oldCap 256); [lia|].
    assert (Hloop : forall fuel newcap : nat,
               (newLen <= nextslicecap_loop fuel newcap newLen)%nat);
      [|apply Hloop].
    induction fuel as [|fuel IH]; intros newcap; cbn [nextslicecap_loop]; [lia|].
    destruct (Nat.leb_spec newLen (newcap + (newcap + 3 * 256) / 4));
      [assumption | apply IH].
  - intros _; unfold int64, minInt64, maxInt64; lia.
Defined.

(** The 48 address bits of amd64. *)
#[export] Instance go_amd64_alloc : GoAlloc :=
  {| maxAlloc := 2 ^ 48; maxAlloc_pos := eq_refl |}.

(** ** The levelled methods *)

(** How a call ends that does not return to its caller: [os.Exit(code)], or
    [panic(v)] with a string [v]. *)
Inductive ending :=
| OsExit (code : Z)
| GoPanic (v : list byte).

Section Methods.
Context `{GoImpl}.

Definition Debug (now : Time) (msg : list byte) (fields : list Field)
    (w : world) : option world :=
  log now DebugLevel msg fields w.

Definition Info (now : Time) (msg : list byte) (fields : list Field)
    (w : world) : option world :=
  log now InfoLevel msg fields w.

Definition Warn (now : Time) (msg : list byte) (fields : list Field)
    (w : world) : option world :=
  log now WarnLevel msg fields w.

Definition Error (now : Time) (msg : list byte) (fields : list Field)
    (w : world) : option world :=
  log now ErrorLevel msg fields w.

(** [Fatal] and [Panic] give the world they leave and the way they end. *)
Definition Fatal (now : Time) (msg : list byte) (fields : list Field)
    (w : world) : option (world * ending) :=
  w ← log now FatalLevel msg fields w;
  Some (w, OsExit 1).

Definition Panic (now : Time) (msg : list byte) (fields : list Field)
    (w : world) : option (world * ending) :=
  w ← log now PanicLevel msg fields w;
  Some (w, GoPanic msg).

End Methods.

(** ** The context logger *)

(** [context.Context], as far as the logger uses it: what [Value] returns for
    a key of type string, [None] for the nil interface. *)
Record Context := mkContext { Context_Value : list byte -> option value }.

(** [ContextLogger]. Its [logger] field points to the logger of the world
    its methods run on. [ctxFunc] is [None] for a nil function; the function
    returns [None] for a nil context. *)
Record ContextLogger := mkContextLogger {
  ctxFunc : option (unit -> option Context)
}.

Definition WithContext (ctxFunc : option (unit -> option Context))
  : ContextLogger :=
  mkContextLogger ctxFunc.

Definition WithStaticContext (ctx : option Context) : ContextLogger :=
  mkContextLogger (Some (fun _ => ctx)).

(** [extractContextFields]. A method call on a nil context panics. *)
Definition extractContextFields (cl : ContextLogger) (fields : list Field)
  : option (list Field) :=
  contextFields ←
    match ctxFunc cl with
    | Some f =>
        ctx ← f tt;
        let contextFields := [] in
        let contextFields :=
          match Context_Value ctx (bs "traceID") with
          | Some traceID => contextFields ++ [mkField (bs "traceID") traceID]
          | None => contextFields
          end in
        let contextFields :=
          match Context_Value ctx (bs "spanID") with
          | Some spanID => contextFields ++ [mkField (bs "spanID") spanID]
          | None => contextFields
          end in
        Some contextFields
    | None => Some []
    end;
  Some (contextFields ++ fields).

Section ContextMethods.
Context `{GoImpl}.

(** [cl.logger.log(level, msg, cl.extractContextFields(fields)...)], the
    call the six methods make: the arguments are evaluated before [log]
    runs. *)
Definition ContextLogger_log (cl : ContextLogger) (now : Time) (level : Z)
    (msg : list byte) (fields : list Field) (w : world) : option world :=
  fields ← extractContextFields cl fields;
  log now level msg fields w.

Definition ContextLogger_Debug (cl : ContextLogger) (now : Time)
    (msg : list byte) (fields : list Field) (w : world) : option world :=
  ContextLogger_log cl now DebugLevel msg fields w.

Definition ContextLogger_Info (cl : ContextLogger) (now : Time)
    (msg : list byte) (fields : list Field) (w : world) : option world :=
  ContextLogger_log cl now InfoLevel msg fields w.

Definition ContextLogger_Warn (cl : ContextLogger) (now : Time)
    (msg : list byte) (fields : list Field) (w : world) : option world :=
  ContextLogger_log cl now WarnLevel msg fields w.

Definition ContextLogger_Error (cl : ContextLogger) (now : Time)
    (msg : list byte) (fields : list Field) (w : world) : option world :=
  ContextLogger_log cl now ErrorLevel msg fields w.

Definition ContextLogger_Fatal (cl : ContextLogger) (now : Time)
    (msg : list byte) (fields : list Field) (w : world)
  : option (world * ending) :=
  w ← ContextLogger_log cl now FatalLevel msg fields w;
  Some (w, OsExit 1).

Definition ContextLogger_Panic (cl : ContextLogger) (now : Time)
    (msg : list byte) (fields : list Field) (w : world)
  : option (world * ending) :=
  w ← ContextLogger_log cl now PanicLevel msg fields w;
  Some (w, GoPanic msg).

End ContextMethods.

(** ** The configuration from the environment (env.go) *)

Definition EnvLogLevel : list byte := bs "LOG_LEVEL".
Definition EnvLogBufferSize : list byte := bs "LOG_BUFFER_SIZE".
Definition EnvLogFormat : list byte := bs "LOG_FORMAT".
Definition EnvLogUseUTC : list byte := bs "LOG_USE_UTC".
Definition EnvDebugLevel : list byte := bs "debug".
Definition EnvInfoLevel : list byte := bs "info".
Definition EnvWarnLevel : list byte := bs "warn".
Definition EnvErrorLevel : list byte := bs "error".
Definition EnvFatalLevel : list byte := bs "fatal".
Definition EnvPanicLevel : list byte := bs "panic".
Definition EnvLogFormatJSON : list byte := bs "json".
Definition EnvLogFormatText : list byte := bs "text".

(** [s == t] on strings. *)
Fixpoint string_eqb (s t : list byte) : bool :=
  match s, t with
  | [], [] => true
  | c :: s', d :: t' => Ascii.eqb c d && string_eqb s' t'
  | _, _ => false
  end.

(** The lower-case form of an ASCII byte. *)
Definition lower_byte (c : byte) : byte :=
  if (65 <=? Z_of_byte c) && (Z_of_byte c <=? 90)
  then byte_of_Z (Z_of_byte c + 32) else c.

(** [strconv.Atoi] on a 64-bit platform: an optional sign and decimal
    digits, at least one, of a value in the range of [int]; [None] for an
    error. *)
Fixpoint Atoi_digits (s : list byte) (n : Z) : option Z :=
  match s with
  | [] => Some n
  | c :: r =>
      if (48 <=? Z_of_byte c) && (Z_of_byte c <=? 57)
      then Atoi_digits r (n * 10 + (Z_of_byte c - 48))
      else None
  end.

Definition Atoi (s : list byte) : option Z :=
  match s with
  | [] => None
  | c :: r =>
      let neg := Ascii.eqb c "-" in
      let s := if neg || Ascii.eqb c "+" then r else s in
      match s with
      | [] => None
      | _ =>
          un ← Atoi_digits s 0;
          if neg then (if 2 ^ 63 <? un then None else Some (- un))
          else (if 2 ^ 63 <=? un then None else Some un)
      end
  end.

Section Env.

(** [os.Getenv]: the value of a variable of the environment, the empty
    string when the variable is not set. *)
Variable Getenv : list byte -> list byte.

(** [strings.Map(unicode.ToLower, s)], which [strings.ToLower] falls back to
    on a string that holds a byte outside ASCII; it follows the Unicode
    tables of the Go release. *)
Variable Map_unicode_ToLower : list byte -> list byte.

(** [strings.ToLower] *)
Definition strings_ToLower (s : list byte) : list byte :=
  if forallb (fun c => Z_of_byte c <? 0x80) s then map lower_byte s
  else Map_unicode_ToLower s.

Definition fromEnvLogLevel : Z :=
  let envLevel := Getenv EnvLogLevel in
  let envLevel := strings_ToLower envLevel in
  if string_eqb envLevel EnvDebugLevel then DebugLevel
  else if string_eqb envLevel EnvInfoLevel then InfoLevel
  else if string_eqb envLevel EnvWarnLevel then WarnLevel
  else if string_eqb envLevel EnvErrorLevel then ErrorLevel
  else if string_eqb envLevel EnvFatalLevel then FatalLevel
  else if string_eqb envLevel EnvPanicLevel then PanicLevel
  else DebugLevel.

Definition fromEnvBufferSize : Z :=
  let envBufferSize := Getenv EnvLogBufferSize in
  match Atoi envBufferSize with
  | Some bufSize => bufSize
  | None => 0
  end.

Definition fromEnvLogFormat : Z :=
  let envFormat := Getenv EnvLogFormat in
  let envFormat := strings_ToLower envFormat in
  if string_eqb envFormat EnvLogFormatJSON then JSONFormat
  else if string_eqb envFormat EnvLogFormatText then TextFormat
  else TextFormat.

Definition fromEnvUseUTC : bool :=
  let envUseUTC := Getenv EnvLogUseUTC in
  let envUseUTC := strings_ToLower envUseUTC in
  string_eqb envUseUTC (bs "true") || string_eqb envUseUTC (bs "1").

(** [ConfigFromEnv]; [Output] is left nil, for [New] to set. *)
Definition ConfigFromEnv : Config :=
  mkConfig fromEnvLogLevel fromEnvLogFormat fromEnvBufferSize fromEnvUseUTC.

End Env.

(** * Reference notions

    What the properties below are stated with: the standard decimal text of
    an integer, the bytes each encoder adds to its buffer, the calls of the
    sink in a trace, and a reader of JSON texts. *)

(** ** The reference decimal notation

    The standard base-10 text of an integer, from the decimal printer of the
    Standard Library. *)

Definition formatInt (v : Z) : list byte :=
  bs (NilZero.string_of_int (Z.to_int v)).

(** The byte of a decimal digit, as the loop of [appendInt] computes it. *)
Definition digit (r : Z) : byte := byte_of_Z (add64 48 r).

(** The little-endian digit that [r] puts in front of [d]. *)
Definition lu_cons (r : Z) (d : Decimal.uint) : Decimal.uint :=
  match r with
  | 0 => Decimal.D0 d | 1 => Decimal.D1 d | 2 => Decimal.D2 d
  | 3 => Decimal.D3 d | 4 => Decimal.D4 d | 5 => Decimal.D5 d
  | 6 => Decimal.D6 d | 7 => Decimal.D7 d | 8 => Decimal.D8 d
  | _ => Decimal.D9 d
  end.

(** The digits the loop of [appendInt] leaves in [tmp]: none for zero. *)
Definition loop_digits (i : Z) : list byte := if 0 <? i then digits i else [].

(** ** Quoting in text mode *)

(** The three bytes that make [needsQuoting] answer yes. *)
Definition special (c : byte) : bool :=
  Ascii.eqb c " " || Ascii.eqb c "=" || Ascii.eqb c quote.

(** ** What the encoders append

    The bytes an encoder adds do not depend on the buffer it adds them to.
    The functions below give these bytes; the lemmas after them show that
    the encoders append exactly that, and never panic on well-formed
    values. *)

Definition value_wf (v : value) : Prop :=
  match v with
  | VInt i | VInt64 i => int64 i
  | _ => True
  end.

Definition int_text (v : Z) : list byte :=
  if v =? minInt64 then bs "-" else formatInt v.

Definition escape_byte (r : byte) : list byte :=
  if Ascii.eqb r quote then bs "\" ++ dq
  else if Ascii.eqb r "\" then bs "\\"
  else if Ascii.eqb r newline then bs "\n"
  else if Ascii.eqb r carriage_return then bs "\r"
  else if Ascii.eqb r tab then bs "\t"
  else [r].

Definition escape (s : list byte) : list byte := flat_map escape_byte s.

Section Texts.
Context `{GoImpl}.

Definition float_text (f : float) : list byte :=
  if PrimFloat.eqb f 0 then bs "0"
  else
    let sign := if PrimFloat.ltb f 0 then bs "-" else [] in
    let f := if PrimFloat.ltb f 0 then PrimFloat.opp f else f in
    let integer := int64_of_float f in
    let fractional := PrimFloat.sub f (float_of_int64 integer) in
    sign ++ int_text integer
      ++ (if PrimFloat.ltb 0 fractional
          then bs "." ++ int_text (int64_of_float (PrimFloat.mul fractional 1000))
          else []).

Definition value_text (v : value) : list byte :=
  match v with
  | VString s => if needsQuoting s then dq ++ s ++ dq else s
  | VInt i | VInt64 i => int_text i
  | VFloat64 f => float_text f
  | VBool b => if b then bs "true" else bs "false"
  | VOther => dq ++ bs "unknown" ++ dq
  end.

Definition value_json (v : value) : list byte :=
  match v with
  | VString s => dq ++ escape s ++ dq
  | VInt i | VInt64 i => int_text i
  | VFloat64 f => float_text f
  | VBool b => if b then bs "true" else bs "false"
  | VOther => dq ++ bs "unknown" ++ dq
  end.

Definition fields_text (fields : list Field) : list byte :=
  flat_map (fun field => bs " " ++ Key field ++ bs "=" ++ value_text (Value field))
           fields.

Definition fields_json (fields : list Field) : list byte :=
  flat_map (fun field =>
              bs "," ++ dq ++ escape (Key field) ++ dq ++ bs ":" ++ value_json (Value field))
           fields.

Definition record_text (now : Time) (level : Z) (msg : list byte)
    (fields : list Field) : list byte :=
  Time_Format (Time_UTC now) layoutMillis ++ bs " " ++ Level_String level
    ++ bs " " ++ msg ++ fields_text fields.

Definition record_json (utc : bool) (now : Time) (level : Z) (msg : list byte)
    (fields : list Field) : list byte :=
  bs "{" ++ dq ++ bs "timestamp" ++ dq ++ bs ":" ++ dq
    ++ Time_Format (if utc then Time_UTC now else now) RFC3339Nano
    ++ dq ++ bs "," ++ dq ++ bs "level" ++ dq ++ bs ":" ++ dq ++ Level_String level
    ++ dq ++ bs "," ++ dq ++ bs "message" ++ dq ++ bs ":" ++ dq ++ escape msg ++ dq
    ++ fields_json fields ++ bs "}".

(** The record encoder [log] selects. *)
Definition encode (l : Logger) (now : Time) (buf : slice) (level : Z)
    (msg : list byte) (fields : list Field) : option slice :=
  if Format (config l) =? JSONFormat
  then appendJSON l now buf level msg fields
  else appendText l now buf level msg fields.

End Texts.

(** ** The delivery channel *)

(** The payloads of the calls of the sink's [Write] in a trace, in order. *)
Fixpoint sink_writes (tr : list event) : list (list byte) :=
  match tr with
  | EvWrite p :: tr' => p :: sink_writes tr'
  | _ :: tr' => sink_writes tr'
  | [] => []
  end.

(** The accumulation that a delivery finds, after the flush it may force. *)
Definition kept (capacity : Z) (acc record : list byte) : list byte :=
  if capacity <? Z.of_nat (length acc) + Z.of_nat (length record) then [] else acc.

(** The calls of the sink a buffered delivery makes. *)
Definition forced_flush (capacity : Z) (acc record : list byte) : list event :=
  if capacity <? Z.of_nat (length acc) + Z.of_nat (length record) then
    match acc with [] => [] | _ => [EvWrite acc] end
  else [].

(** ** Time stamps *)

(** What both layouts start with: the date and the time of day down to the
    second. *)
Definition layoutSeconds : list layoutElem :=
  [stdLongYear; stdLit "-"; stdZeroMonth; stdLit "-"; stdZeroDay; stdLit "T";
   stdHour; stdLit ":"; stdZeroMinute; stdLit ":"; stdZeroSecond].

(** The zone marker of a time stamp. *)
Definition zone_marker (t : Time) : list byte := formatElem t stdISO8601ColonTZ.

(** ** JSON texts

    A reader for the JSON grammar of RFC 8259 over bytes. Objects keep their
    members in the order of the text, duplicates included; numbers keep
    their lexeme. Bytes of 0x80 and above are taken as they are. *)

#[warnings="-register-all"]
Inductive json :=
| JNull
| JBool (b : bool)
| JNumber (lexeme : list byte)
| JString (s : list byte)
| JArray (items : list json)
| JObject (members : list (list byte * json)).

Definition is_ws (c : byte) : bool :=
  Ascii.eqb c " " || Ascii.eqb c tab || Ascii.eqb c newline
  || Ascii.eqb c carriage_return.

Fixpoint skip_ws (s : list byte) : list byte :=
  match s with
  | c :: r => if is_ws c then skip_ws r else s
  | [] => []
  end.

Definition is_digit (c : byte) : bool :=
  (48 <=? Z_of_byte c) && (Z_of_byte c <=? 57).

(** The value of a hexadecimal digit. *)
Definition hex_value (c : byte) : option Z :=
  let z := Z_of_byte c in
  if (48 <=? z) && (z <=? 57) then Some (z - 48)
  else if (65 <=? z) && (z <=? 70) then Some (z - 55)
  else if (97 <=? z) && (z <=? 102) then Some (z - 87)
  else None.

(** The UTF-8 bytes of a code unit of a [\u] escape. *)
Definition utf8_of_unit (u : Z) : list byte :=
  if u <? 0x80 then [byte_of_Z u]
  else if u <? 0x800 then
    [byte_of_Z (0xC0 + u / 64); byte_of_Z (0x80 + u mod 64)]
  else
    [byte_of_Z (0xE0 + u / 4096); byte_of_Z (0x80 + u / 64 mod 64);
     byte_of_Z (0x80 + u mod 64)].

(** The byte a one-letter escape stands for. *)
Definition unescape (e : byte) : option byte :=
  if Ascii.eqb e quote then Some quote
  else if Ascii.eqb e "\" then Some "\"%char
  else if Ascii.eqb e "/" then Some "/"%char
  else if Ascii.eqb e "b" then Some "008"%char
  else if Ascii.eqb e "f" then Some "012"%char
  else if Ascii.eqb e "n" then Some newline
  else if Ascii.eqb e "r" then Some carriage_return
  else if Ascii.eqb e "t" then Some tab
  else None.

(** A string, read from behind its opening quote: its content, escapes
    resolved, and the text behind its closing quote. *)
Fixpoint scan_string (s : list byte) : option (list byte * list byte) :=
  match s with
  | [] => None
  | c :: r =>
      if Ascii.eqb c quote then Some ([], r)
      else if Ascii.eqb c "\" then
        match r with
        | e :: r' =>
            if Ascii.eqb e "u" then
              match r' with
              | h1 :: h2 :: h3 :: h4 :: r'' =>
                  d1 ← hex_value h1; d2 ← hex_value h2;
                  d3 ← hex_value h3; d4 ← hex_value h4;
                  '(content, rest) ← scan_string r'';
                  Some (utf8_of_unit (((d1 * 16 + d2) * 16 + d3) * 16 + d4)
                          ++ content, rest)
              | _ => None
              end
            else
              b ← unescape e;
              '(content, rest) ← scan_string r';
              Some (b :: content, rest)
        | [] => None
        end
      else if Z_of_byte c <? 32 then None
      else
        '(content, rest) ← scan_string r;
        Some (c :: content, rest)
  end.

(** The longest run of digits at the head of a text, and the rest. *)
Fixpoint span_digits (s : list byte) : list byte * list byte :=
  match s with
  | c :: r =>
      if is_digit c then let '(ds, rest) := span_digits r in (c :: ds, rest)
      else ([], s)
  | [] => ([], [])
  end.

(** The parts of a number: an optional minus sign, the integer part, an
    optional fraction and an optional exponent; each with the rest. *)
Definition scan_sign (s : list byte) : list byte * list byte :=
  match s with
  | c :: r => if Ascii.eqb c "-" then (bs "-", r) else ([], s)
  | [] => ([], s)
  end.

Definition scan_int (s : list byte) : option (list byte * list byte) :=
  match s with
  | c :: r =>
      if Ascii.eqb c "0" then Some (bs "0", r)
      else if is_digit c then Some (span_digits s)
      else None
  | [] => None
  end.

Definition scan_frac (s : list byte) : option (list byte * list byte) :=
  match s with
  | c :: r =>
      if Ascii.eqb c "." then
        let '(ds, rest) := span_digits r in
        match ds with
        | [] => None
        | _ => Some (bs "." ++ ds, rest)
        end
      else Some ([], s)
  | [] => Some ([], s)
  end.

Definition scan_exp (s : list byte) : option (list byte * list byte) :=
  match s with
  | c :: r =>
      if Ascii.eqb c "e" || Ascii.eqb c "E" then
        let '(esign, r) :=
          match r with
          | d :: r' =>
              if Ascii.eqb d "+" then (bs "+", r')
              else if Ascii.eqb d "-" then (bs "-", r')
              else ([], r)
          | [] => ([], r)
          end in
        let '(ds, rest) := span_digits r in
        match ds with
        | [] => None
        | _ => Some (c :: esign ++ ds, rest)
        end
      else Some ([], s)
  | [] => Some ([], s)
  end.

(** A number: its lexeme and the rest. *)
Definition scan_number (s : list byte) : option (list byte * list byte) :=
  let '(sign, s) := scan_sign s in
  '(int, s) ← scan_int s;
  '(frac, s) ← scan_frac s;
  '(exp, s) ← scan_exp s;
  Some (sign ++ int ++ frac ++ exp, s).

(** What is left of [s] behind the prefix [p]. *)
Fixpoint strip_prefix (p s : list byte) : option (list byte) :=
  match p, s with
  | [], _ => Some s
  | c :: p', d :: s' => if Ascii.eqb c d then strip_prefix p' s' else None
  | _ :: _, [] => None
  end.

(** One of the three literal names. *)
Definition scan_literal (name : string) (v : json) (s : list byte)
  : option (json * list byte) :=
  rest ← strip_prefix (bs name) s; Some (v, rest).

(** A value; the members of an object from a member on; the items of an
    array from an item on. [acc] holds what has been read of the object or
    array, last first. *)
Fixpoint parse_value (fuel : nat) (s : list byte) : option (json * list byte) :=
  match fuel with
  | O => None
  | S fuel' =>
      match skip_ws s with
      | [] => None
      | c :: r =>
          if Ascii.eqb c "{" then
            match skip_ws r with
            | d :: r' =>
                if Ascii.eqb d "}" then Some (JObject [], r')
                else parse_members fuel' r []
            | [] => None
            end
          else if Ascii.eqb c "[" then
            match skip_ws r with
            | d :: r' =>
                if Ascii.eqb d "]" then Some (JArray [], r')
                else parse_items fuel' r []
            | [] => None
            end
          else if Ascii.eqb c quote then
            '(content, rest) ← scan_string r; Some (JString content, rest)
          else if Ascii.eqb c "t" then scan_literal "true" (JBool true) (c :: r)
          else if Ascii.eqb c "f" then scan_literal "false" (JBool false) (c :: r)
          else if Ascii.eqb c "n" then scan_literal "null" JNull (c :: r)
          else
            '(lexeme, rest) ← scan_number (c :: r); Some (JNumber lexeme, rest)
      end
  end
with parse_members (fuel : nat) (s : list byte) (acc : list (list byte * json))
  : option (json * list byte) :=
  match fuel with
  | O => None
  | S fuel' =>
      match skip_ws s with
      | c :: r =>
          if Ascii.eqb c quote then
            '(key, r) ← scan_string r;
            match skip_ws r with
            | d :: r =>
                if Ascii.eqb d ":" then
                  '(v, r) ← parse_value fuel' r;
                  match skip_ws r with
                  | e :: r =>
                      if Ascii.eqb e "," then
                        parse_members fuel' r ((key, v) :: acc)
                      else if Ascii.eqb e "}" then
                        Some (JObject (reverse ((key, v) :: acc)), r)
                      else None
                  | [] => None
                  end
                else None
            | [] => None
            end
          else None
      | [] => None
      end
  end
with parse_items (fuel : nat) (s : list byte) (acc : list json)
  : option (json * list byte) :=
  match fuel with
  | O => None
  | S fuel' =>
      '(v, r) ← parse_value fuel' s;
      match skip_ws r with
      | e :: r =>
          if Ascii.eqb e "," then parse_items fuel' r (v :: acc)
          else if Ascii.eqb e "]" then Some (JArray (reverse (v :: acc)), r)
          else None
      | [] => None
      end
  end.

(** A JSON text: one value, white space around it, nothing else. *)
Definition parse_json (s : list byte) : option json :=
  '(v, rest) ← parse_value (S (length s)) s;
  match skip_ws rest with
  | [] => Some v
  | _ => None
  end.

(** *** What the JSON encoder handles

    The bytes [appendJSONString] renders as JSON requires: every byte from
    0x20 on, and the three control bytes it escapes. *)

Definition json_byte (c : byte) : bool :=
  (32 <=? Z_of_byte c) || Ascii.eqb c newline || Ascii.eqb c carriage_return
  || Ascii.eqb c tab.

Definition json_safe (s : list byte) : Prop := Forall (fun c => json_byte c = true) s.

(** A byte that stands for itself inside a JSON string. *)
Definition plain (c : byte) : bool :=
  (32 <=? Z_of_byte c) && negb (Ascii.eqb c quote) && negb (Ascii.eqb c "\").

(** The values whose JSON rendering is a JSON value: strings the encoder
    handles, integers other than the smallest, booleans and the
    placeholder. *)
Definition value_json_ok (v : value) : Prop :=
  match v with
  | VString s => json_safe s
  | VInt i | VInt64 i => int64 i /\ i <> minInt64
  | VFloat64 _ => False
  | VBool _ | VOther => True
  end.

(** The JSON value a field value is meant to be read back as. *)
Definition json_of_value (v : value) : json :=
  match v with
  | VString s => JString s
  | VInt i | VInt64 i => JNumber (formatInt i)
  | VFloat64 _ => JNull
  | VBool b => JBool b
  | VOther => JString (bs "unknown")
  end.

(** The object a record is meant to be read back as. *)
Definition json_of_record (stamp : list byte) (level : Z) (msg : list byte)
    (fields : list Field) : json :=
  JObject ((bs "timestamp", JString stamp)
             :: (bs "level", JString (Level_String level))
             :: (bs "message", JString msg)
             :: map (fun field => (Key field, json_of_value (Value field))) fields).

(** A text at which a number ends. *)
Definition number_stop (rest : list byte) : Prop :=
  match rest with
  | [] => True
  | c :: _ =>
      is_digit c = false /\ Ascii.eqb c "." = false
      /\ Ascii.eqb c "e" = false /\ Ascii.eqb c "E" = false
  end.

(** A byte a number starts with. *)
Definition number_head (c : byte) : Prop := is_digit c = true \/ c = "-"%char.

(** A text that follows a member of an object: a comma or the closing
    brace. *)
Definition member_end (rest : list byte) : Prop :=
  exists r, rest = ","%char :: r \/ rest = "}"%char :: r.

(** The text [vt], in front of the rest of an object, reads as the value
    [jv]. *)
Definition reads_as (vt : list byte) (jv : json) : Prop :=
  forall fuel rest, member_end rest ->
    parse_value (S fuel) (vt ++ rest) = Some (jv, rest).

(** The layout elements that render as plain bytes: all but a literal text
    that holds other bytes. *)
Definition plain_elem (e : layoutElem) : Prop :=
  match e with
  | stdLit text => Forall (fun c => plain c = true) (bs text)
  | _ => True
  end.

(** ** Runs of calls

    What a client does with a logger, one call after the other: a call of
    one of the four levelled methods that return, or of [Flush]. *)

Inductive method := MDebug | MInfo | MWarn | MError.

Definition method_level (m : method) : Z :=
  match m with
  | MDebug => DebugLevel
  | MInfo => InfoLevel
  | MWarn => WarnLevel
  | MError => ErrorLevel
  end.

Inductive call :=
| CallLog (m : method) (now : Time) (msg : list byte) (fields : list Field)
| CallFlush.

Definition call_wf (c : call) : Prop :=
  match c with
  | CallLog _ _ _ fields => Forall (fun field => value_wf (Value field)) fields
  | CallFlush => True
  end.

(** A record and the newline that closes it, for each record of a list. *)
Definition lines (records : list (list byte)) : list byte :=
  concat (map (fun r => r ++ [newline]) records).

(** A byte that ends no line. *)
Definition inline (c : byte) : bool :=
  negb (Ascii.eqb c newline) && negb (Ascii.eqb c carriage_return).

(** An event of the pool on a buffer as the pool makes it: empty, with a
    capacity of 256; every other event. *)
Definition fresh_buffer_event (ev : event) : Prop :=
  match ev with
  | EvPoolNew b | EvPoolGet b | EvPoolPut b => b = make0 256
  | _ => True
  end.

(** The fields a context contributes: the trace identifier, then the span
    identifier, each if the context holds it. *)
Definition context_fields (ctx : Context) : list Field :=
  match Context_Value ctx (bs "traceID") with
  | Some v => [mkField (bs "traceID") v]
  | None => []
  end ++
  match Context_Value ctx (bs "spanID") with
  | Some v => [mkField (bs "spanID") v]
  | None => []
  end.

(** The pool after a call that takes a buffer and puts it back emptied. *)
Definition pool_after (p : list slice) : list slice :=
  match p with
  | b :: idle => reslice0 b :: idle
  | [] => [make0 256]
  end.

(** What a reader of the sink makes of its bytes: the lines, each without
    the newline that closes it, and what follows the last newline. *)
Fixpoint split_lines (s : list byte) : list (list byte) * list byte :=
  match s with
  | [] => ([], [])
  | c :: r =>
      let '(ls, rest) := split_lines r in
      if Ascii.eqb c newline then ([] :: ls, rest)
      else
        match ls with
        | l1 :: ls' => ((c :: l1) :: ls', rest)
        | [] => ([], c :: rest)
        end
  end.

(** A string of ASCII bytes. *)
Definition is_ascii (s : list byte) : Prop :=
  Forall (fun c => Z_of_byte c < 0x80) s.

Section Calls.
Context `{GoImpl}.

Definition run_call (c : call) (w : world) : option world :=
  match c with
  | CallLog MDebug now msg fields => Debug now msg fields w
  | CallLog MInfo now msg fields => Info now msg fields w
  | CallLog MWarn now msg fields => Warn now msg fields w
  | CallLog MError now msg fields => Error now msg fields w
  | CallFlush => Flush w
  end.

Fixpoint run (calls : list call) (w : world) : option world :=
  match calls with
  | [] => Some w
  | c :: calls' => w ← run_call c w; run calls' w
  end.

(** The record of a call of [log] under a configuration. *)
Definition record_of (cfg : Config) (now : Time) (level : Z) (msg : list byte)
    (fields : list Field) : list byte :=
  if Format cfg =? JSONFormat then record_json (UseUTC cfg) now level msg fields
  else record_text now level msg fields.

(** The records of the calls that pass the level check, in order. *)
Fixpoint records (cfg : Config) (calls : list call) : list (list byte) :=
  match calls with
  | [] => []
  | CallLog m now msg fields :: calls' =>
      if method_level m <? Level cfg then records cfg calls'
      else record_of cfg now (method_level m) msg fields :: records cfg calls'
  | CallFlush :: calls' => records cfg calls'
  end.

End Calls.

(** ** Inputs of the concrete runs

    The runs use the growth rule of the gc run time and the conversions of
    amd64. *)

Definition exampleTime : Time := mkTime 1705763045 123000000 3600.

Definition exampleLogger (format capacity : Z) : Logger :=
  mkLogger (mkConfig InfoLevel format capacity false)
           (make0 (Z.to_nat capacity)) [] false.

Definition exampleFields : list Field := [mkField (bs "userID") (VInt 12345)].

Definition exampleCalls : list call :=
  [CallLog MInfo exampleTime (bs "started") exampleFields;
   CallLog MDebug exampleTime (bs "dropped") [];
   CallLog MError exampleTime (bs "failed") [];
   CallFlush;
   CallLog MWarn exampleTime (bs "late") []].

Definition exampleContext : Context :=
  mkContext (fun key => if string_eqb key (bs "traceID")
                        then Some (VString (bs "t-1")) else None).

(** An environment that sets [LOG_BUFFER_SIZE] and nothing else. *)
Definition exampleEnv (size : list byte) (name : list byte) : list byte :=
  if string_eqb name EnvLogBufferSize then size else [].

(** ** Proof tools *)

Ltac lia_mod := Z.div_mod_to_equations; lia.

Ltac split_utf8_first H :=
  unfold utf8_first in H;
  repeat match type of H with
         | (if ?a <? ?b then _ else _) = _ => destruct (Z.ltb_spec a b)
         | (if ?a <=? ?b then _ else _) = _ => destruct (Z.leb_spec a b)
         | (if ?a =? ?b then _ else _) = _ => destruct (Z.eqb_spec a b)
         end;
  simplify_eq.

Ltac not_in_list :=
  rewrite list_elem_of_In, ?in_app_iff; cbn [In]; intuition (discriminate || eauto).

(** * Properties *)

(** ** Slices *)

Section SliceFacts.
Context `{GoImpl}.

Lemma bytes_append s xs : bytes (append s xs) = bytes s ++ xs.
Proof. unfold append. by destruct (_ <=? _)%nat. Qed.

Lemma cap_append s xs : (cap s <= cap (append s xs))%nat.
Proof.
  unfold append.
  destruct (Nat.leb_spec (length (bytes s) + length xs) (cap s)); simpl; [lia|].
  pose proof (growslice_fits (cap s) (length (bytes s) + length xs)). lia.
Qed.

Lemma append_wf s xs : slice_wf (append s xs).
Proof.
  unfold append, slice_wf.
  destruct (Nat.leb_spec (length (bytes s) + length xs) (cap s)); simpl;
    rewrite length_app; [lia|].
  apply growslice_fits.
Qed.

Lemma cap_append_fits s xs :
  (length (bytes s) + length xs <= cap s)%nat -> cap (append s xs) = cap s.
Proof.
  intros Hfit. unfold append.
  by destruct (Nat.leb_spec (length (bytes s) + length xs) (cap s)); [|lia].
Qed.

End SliceFacts.

(** ** Decimal digits *)

Lemma Z_lt10_cases (r : Z) :
  0 <= r < 10 ->
  r = 0 \/ r = 1 \/ r = 2 \/ r = 3 \/ r = 4 \/ r = 5 \/ r = 6 \/ r = 7
  \/ r = 8 \/ r = 9.
Proof. lia. Qed.

Lemma digits_lt10 (r : Z) : 0 <= r < 10 -> digits r = [digit r].
Proof.
  intros Hr. destruct (Z_lt10_cases r Hr) as [->|[->|[->|[->|[->|[->|[->|[->|[->| ->]]]]]]]]];
    reflexivity.
Qed.

Lemma to_lu_add (n : N) (k : nat) :
  Unsigned.to_lu (n + N.of_nat k) = Nat.iter k Decimal.Little.succ (Unsigned.to_lu n).
Proof.
  induction k as [|k IH].
  - by rewrite N.add_0_r.
  - rewrite Nat2N.inj_succ, N.add_succ_r, Unsigned.to_lu_succ, IH. reflexivity.
Qed.

Lemma to_lu_step (p : positive) (r : Z) :
  0 <= r < 10 ->
  Unsigned.to_lu (10 * N.pos p + Z.to_N r) = lu_cons r (Unsigned.to_lu (N.pos p)).
Proof.
  intros Hr.
  rewrite <- (Z2Nat.id r), <- nat_N_Z, N2Z.id, to_lu_add by lia.
  rewrite Unsigned.to_ldec_tenfold, nat_N_Z, Z2Nat.id by lia.
  destruct (Z_lt10_cases r Hr) as [->|[->|[->|[->|[->|[->|[->|[->|[->| ->]]]]]]]]];
    reflexivity.
Qed.

Lemma bs_app (s1 s2 : string) : bs (s1 ++ s2) = bs s1 ++ bs s2.
Proof.
  unfold bs. induction s1 as [|c s1 IH]; [reflexivity|].
  cbn. by rewrite IH.
Qed.

Lemma string_of_uint_revapp (d acc : Decimal.uint) :
  bs (NilEmpty.string_of_uint (Decimal.revapp d acc))
  = bs (NilEmpty.string_of_uint (Decimal.rev d)) ++ bs (NilEmpty.string_of_uint acc).
Proof.
  unfold Decimal.rev. revert acc.
  induction d as [|d IH|d IH|d IH|d IH|d IH|d IH|d IH|d IH|d IH|d IH];
    intros acc; cbn [Decimal.revapp];
    [reflexivity | rewrite (IH (_ Decimal.Nil)), IH, <- app_assoc .. ];
    reflexivity.
Qed.

Lemma digits_pos (p : positive) :
  digits (Z.pos p) = bs (NilEmpty.string_of_uint (Pos.to_uint p)).
Proof.
  unfold digits. cbn [Z.to_N N.to_uint].
  pose proof (Unsigned.to_uint_nonnil p). by destruct (Pos.to_uint p).
Qed.

Lemma digits_step (q r : Z) :
  0 < q -> 0 <= r < 10 -> digits (10 * q + r) = digits q ++ [digit r].
Proof.
  intros Hq Hr.
  destruct q as [|p|p]; [lia| |lia].
  assert (Hn : 10 * Z.pos p + r = Z.of_N (10 * N.pos p + Z.to_N r)) by lia.
  rewrite Hn. destruct (10 * N.pos p + Z.to_N r)%N as [|p'] eqn:Hp'; [lia|].
  cbn [Z.of_N]. rewrite !digits_pos. unfold Pos.to_uint.
  change (Pos.to_little_uint p') with (Unsigned.to_lu (N.pos p')).
  rewrite <- Hp', to_lu_step by done.
  change (Pos.to_little_uint p) with (Unsigned.to_lu (N.pos p)).
  destruct (Z_lt10_cases r Hr) as [->|[->|[->|[->|[->|[->|[->|[->|[->| ->]]]]]]]]];
    cbn [lu_cons Decimal.rev Decimal.revapp]; by rewrite string_of_uint_revapp.
Qed.

Lemma loop_digits_step (i : Z) :
  0 < i -> loop_digits i = loop_digits (i / 10) ++ [digit (i mod 10)].
Proof.
  intros Hi. unfold loop_digits.
  pose proof (Z.div_mod i 10 ltac:(lia)) as Hdm.
  pose proof (Z.mod_pos_bound i 10 ltac:(lia)) as Hm.
  destruct (Z.ltb_spec 0 i); [|lia].
  destruct (Z.ltb_spec 0 (i / 10)).
  - rewrite Hdm at 1. by apply digits_step.
  - assert (i / 10 = 0) as Hq by (pose proof (Z.div_pos i 10); lia).
    rewrite Hq in Hdm. rewrite Hdm at 1. by apply digits_lt10.
Qed.

Lemma loop_digits_length (k : nat) (i : Z) :
  i < 10 ^ Z.of_nat k -> (length (loop_digits i) <= k)%nat.
Proof.
  revert i; induction k as [|k IH]; intros i Hi.
  - unfold loop_digits. destruct (Z.ltb_spec 0 i); [|simpl; lia].
    change (10 ^ Z.of_nat 0) with 1 in Hi. lia.
  - destruct (Z.ltb_spec 0 i) as [Hpos|Hneg].
    + rewrite loop_digits_step, length_app by done. cbn [length].
      enough (length (loop_digits (i / 10)) <= k)%nat by lia.
      apply IH. rewrite Nat2Z.inj_succ, Z.pow_succ_r in Hi by lia.
      apply Z.div_lt_upper_bound; lia.
    + unfold loop_digits. destruct (Z.ltb_spec 0 i); [lia|simpl; lia].
Qed.

Section IntFacts.
Context `{GoImpl}.

Lemma appendInt_loop_digits (idx : nat) (tmp : list byte) (i : Z) :
  0 <= i <= maxInt64 ->
  (length (loop_digits i) <= idx <= length tmp)%nat ->
  exists tmp',
    appendInt_loop idx tmp i = Some ((idx - length (loop_digits i))%nat, tmp')
    /\ length tmp' = length tmp
    /\ drop (idx - length (loop_digits i)) tmp' = loop_digits i ++ drop idx tmp.
Proof.
  revert tmp i; induction idx as [|idx IH]; intros tmp i Hi Hlen.
  - assert (loop_digits i = []) as Hd by (apply length_zero_iff_nil; lia).
    unfold loop_digits in Hd. destruct (Z.ltb_spec 0 i) as [Hpos|Hz].
    + pose proof (loop_digits_step i Hpos) as Hs. unfold loop_digits in Hs at 1.
      destruct (Z.ltb_spec 0 i); [|lia]. rewrite Hd in Hs.
      by destruct (loop_digits (i / 10)).
    + exists tmp. cbn [appendInt_loop]. destruct (Z.ltb_spec 0 i); [lia|].
      unfold loop_digits. destruct (Z.ltb_spec 0 i); [lia|]. by cbn.
  - cbn [appendInt_loop]. destruct (Z.ltb_spec 0 i) as [Hpos|Hz].
    + rewrite Z.rem_mod_nonneg, Z.quot_div_nonneg by lia.
      pose proof (Z.mod_pos_bound i 10 ltac:(lia)) as Hm.
      pose proof (loop_digits_step i Hpos) as Hs.
      assert (Hq : 0 <= i / 10 <= maxInt64).
      { split; [apply Z.div_pos; lia|].
        pose proof (Z.div_le_upper_bound i 10 i); lia. }
      rewrite Hs, length_app in Hlen. cbn [length] in Hlen.
      destruct (IH (<[idx := byte_of_Z (add64 48 (i mod 10))]> tmp) (i / 10) Hq)
        as (tmp' & Hrun & Hlen' & Hdrop).
      { rewrite length_insert. lia. }
      exists tmp'. rewrite Hs, length_app. cbn [length].
      replace (S idx - (length (loop_digits (i / 10)) + 1))%nat
        with (idx - length (loop_digits (i / 10)))%nat by lia.
      split; [done|]. split; [by rewrite Hlen', length_insert|].
      rewrite Hdrop, <- app_assoc. f_equal.
      rewrite (drop_S _ (byte_of_Z (add64 48 (i mod 10))) idx).
      * cbn. f_equal. apply drop_insert_lt. lia.
      * apply list_lookup_insert_eq. lia.
    + exists tmp. unfold loop_digits. destruct (Z.ltb_spec 0 i); [lia|].
      by cbn.
Qed.

(** Away from the smallest [int64], [appendInt] appends the standard decimal
    text of its argument. *)
Lemma appendInt_decimal (buf : slice) (v : Z) :
  int64 v -> v <> minInt64 ->
  bytes <$> appendInt buf v = Some (bytes buf ++ formatInt v).
Proof.
  unfold int64, minInt64, maxInt64. intros Hv Hmin. unfold appendInt.
  destruct (Z.eqb_spec v 0) as [->|Hnz]; [by cbn; rewrite bytes_append|].
  set (i := if v <? 0 then neg64 v else v).
  set (b := if v <? 0 then append buf (bs "-") else buf).
  assert (Hi : 0 < i <= maxInt64 /\ i = Z.abs v).
  { subst i. unfold neg64, wrap64, maxInt64.
    destruct (Z.ltb_spec v 0).
    - rewrite Z.mod_small by lia. lia.
    - lia. }
  assert (Hb : bytes b ++ digits i = bytes buf ++ formatInt v).
  { subst b. destruct Hi as [Hi ->]. unfold formatInt.
    destruct v as [|p|p]; [done| |].
    - by destruct (Z.ltb_spec (Z.pos p) 0); [lia|].
    - destruct (Z.ltb_spec (Z.neg p) 0); [|lia].
      rewrite bytes_append, <- app_assoc. f_equal. }
  replace (if v <? 0 then (append buf (bs "-"), neg64 v) else (buf, v))
    with (b, i) by (subst b i; by destruct (v <? 0)).
  destruct Hi as [Hi _].
  assert (Hld : loop_digits i = digits i).
  { unfold loop_digits. by destruct (Z.ltb_spec 0 i); [|lia]. }
  destruct (appendInt_loop_digits 20 (replicate 20 "000"%char) i) as (tmp' & -> & Hl & Hd).
  { lia. }
  { split; [|by rewrite length_replicate].
    pose proof (loop_digits_length 19 i) as H19.
    unfold maxInt64 in Hi. lia. }
  cbn. rewrite bytes_append, Hd, drop_ge, app_nil_r, Hld by (by rewrite length_replicate).
  by rewrite Hb.
Qed.

(** At the smallest [int64] the negation wraps around to itself, the loop
    does not run, and only the sign is appended. *)
Lemma appendInt_at_minInt64 (buf : slice) :
  bytes <$> appendInt buf minInt64 = Some (bytes buf ++ bs "-").
Proof.
  unfold appendInt.
  change (minInt64 =? 0) with false. change (minInt64 <? 0) with true.
  change (neg64 minInt64) with minInt64. cbn iota beta.
  change (appendInt_loop 20 (replicate 20 "000"%char) minInt64)
    with (Some (20%nat, replicate 20 "000"%char)).
  cbn -[append]. by rewrite !bytes_append, app_nil_r.
Qed.

(** [appendInt] does not panic on any [int64]. *)
Lemma appendInt_total (buf : slice) (v : Z) :
  int64 v -> is_Some (appendInt buf v).
Proof.
  intros Hv. destruct (Z.eq_dec v minInt64) as [->|Hmin].
  - pose proof (appendInt_at_minInt64 buf) as Hb.
    destruct (appendInt buf minInt64); [done|discriminate].
  - pose proof (appendInt_decimal buf v Hv Hmin) as Hb.
    destruct (appendInt buf v); [done|discriminate].
Qed.

End IntFacts.

(** ** Bytes and runes *)

Lemma Z_of_byte_range (b : byte) : 0 <= Z_of_byte b < 256.
Proof. unfold Z_of_byte. pose proof (N_ascii_bounded b). lia. Qed.

Lemma Z_of_byte_inj (b c : byte) : Z_of_byte b = Z_of_byte c -> b = c.
Proof.
  unfold Z_of_byte. intros Heq%N2Z.inj.
  by rewrite <- (ascii_N_embedding b), <- (ascii_N_embedding c), Heq.
Qed.

Lemma lor_lower_l (a b : Z) : 0 <= b -> 128 <= a -> 128 <= Z.lor a b.
Proof.
  intros Hb Ha.
  destruct (Z.lt_ge_cases (Z.lor a b) (2 ^ 7)) as [Hlt|Hge]; [|exact Hge].
  assert (Hnn : 0 <= Z.lor a b) by (apply Z.lor_nonneg; lia).
  destruct (Z.eq_dec (Z.lor a b) 0) as [Hz|Hnz].
  - apply Z.lor_eq_0_iff in Hz. lia.
  - apply Z.log2_lt_pow2 in Hlt; [|lia].
    rewrite Z.log2_lor in Hlt by lia.
    assert (Z.log2 a < 7) as Hla by lia.
    apply Z.log2_lt_pow2 in Hla; lia.
Qed.

Lemma lor_lower_r (a b : Z) : 0 <= a -> 128 <= b -> 128 <= Z.lor a b.
Proof. intros. rewrite Z.lor_comm. by apply lor_lower_l. Qed.

Lemma land_mask_nonneg (a m : Z) : 0 <= m -> 0 <= Z.land a m.
Proof. intros. apply Z.land_nonneg. by right. Qed.

Lemma shiftl_mask_nonneg (a m k : Z) : 0 <= m -> 0 <= Z.shiftl (Z.land a m) k.
Proof. intros. apply Z.shiftl_nonneg. by apply land_mask_nonneg. Qed.

(** The part a byte contributes to a code point is at least 0x80 when enough
    of its masked bits are set. *)
Lemma shiftl_land_lower (lo s m k : Z) :
  0 <= k -> 128 <= lo * 2 ^ k -> lo <= Z.land s m ->
  128 <= Z.shiftl (Z.land s m) k.
Proof.
  intros Hk Hlo Hland. rewrite Z.shiftl_mul_pow2 by done.
  assert (0 < 2 ^ k) by (apply Z.pow_pos_nonneg; lia). nia.
Qed.

Lemma land_ones_5 (s : Z) : Z.land s 0x1F = s mod 32.
Proof. change 0x1F with (Z.ones 5). by rewrite Z.land_ones. Qed.
Lemma land_ones_4 (s : Z) : Z.land s 0x0F = s mod 16.
Proof. change 0x0F with (Z.ones 4). by rewrite Z.land_ones. Qed.
Lemma land_ones_3 (s : Z) : Z.land s 0x07 = s mod 8.
Proof. change 0x07 with (Z.ones 3). by rewrite Z.land_ones. Qed.
Lemma land_ones_6 (s : Z) : Z.land s 0x3F = s mod 64.
Proof. change 0x3F with (Z.ones 6). by rewrite Z.land_ones. Qed.

(** What one step of a [range] loop over a string sees: an ASCII byte as
    itself, and otherwise a code point of at least 0x80 that consumes bytes
    of at least 0x80 only. *)
Lemma decodeRune_cons (b : byte) (s : list byte) :
  (Z_of_byte b < 128 /\ decodeRune (b :: s) = (Z_of_byte b, 1%nat))
  \/ (128 <= Z_of_byte b /\ exists r w,
        decodeRune (b :: s) = (r, w) /\ 128 <= r
        /\ (1 <= w <= length (b :: s))%nat
        /\ Forall (fun c => 128 <= Z_of_byte c) (take w (b :: s))).
Proof.
  pose proof (Z_of_byte_range b) as Hb.
  cbn [decodeRune]. destruct (Z.ltb_spec (Z_of_byte b) 128) as [Hlo|Hhi]; [by left|].
  right. split; [done|].
  assert (Herr : exists r w, (runeError, 1%nat) = (r, w) /\ 128 <= r
             /\ (1 <= w <= length (b :: s))%nat
             /\ Forall (fun c => 128 <= Z_of_byte c) (take w (b :: s))).
  { exists runeError, 1%nat. cbn. repeat split; try done; try lia.
    by constructor. }
  destruct (utf8_first (Z_of_byte b)) as [[[sz lo] hi]|] eqn:Hfirst; [|done].
  destruct s as [|b1 r2]; [done|].
  pose proof (Z_of_byte_range b1) as Hb1.
  assert (Hcls : 128 <= lo /\ hi <= 191).
  { split_utf8_first Hfirst; lia. }
  destruct (Z.ltb_spec (Z_of_byte b1) lo) as [|Hlo1]; [done|].
  destruct (Z.ltb_spec hi (Z_of_byte b1)) as [|Hhi1]; [done|].
  cbn [orb].
  destruct (Nat.leb_spec sz 2) as [Hsz2|Hsz2].
  { eexists _, 2%nat. split; [done|]. split; [|split].
    - apply lor_lower_l; [by apply land_mask_nonneg|].
      apply (shiftl_land_lower 2); [lia|by vm_compute|].
      rewrite land_ones_5. split_utf8_first Hfirst; lia_mod.
    - cbn; lia.
    - cbn. repeat constructor; lia. }
  destruct r2 as [|b2 r3]; [done|].
  pose proof (Z_of_byte_range b2) as Hb2.
  unfold utf8_cont.
  destruct (Z.leb_spec 128 (Z_of_byte b2)) as [Hc2|]; [|done].
  destruct (Z.leb_spec (Z_of_byte b2) 191) as [Hc2'|]; [|done].
  cbn [andb negb].
  destruct (Nat.leb_spec sz 3) as [Hsz3|Hsz3].
  { eexists _, 3%nat. split; [done|]. split; [|split].
    - apply lor_lower_l; [by apply land_mask_nonneg|].
      split_utf8_first Hfirst; try lia.
      + apply lor_lower_r; [by apply shiftl_mask_nonneg|].
        apply (shiftl_land_lower 2); [lia|by vm_compute|].
        rewrite land_ones_6. lia_mod.
      + apply lor_lower_l; [by apply shiftl_mask_nonneg|].
        apply (shiftl_land_lower 1); [lia|by vm_compute|].
        rewrite land_ones_4. lia_mod.
      + apply lor_lower_l; [by apply shiftl_mask_nonneg|].
        apply (shiftl_land_lower 1); [lia|by vm_compute|].
        rewrite land_ones_4. lia_mod.
    - cbn; lia.
    - cbn. repeat constructor; lia. }
  destruct r3 as [|b3 r4]; [done|].
  pose proof (Z_of_byte_range b3) as Hb3.
  destruct (Z.leb_spec 128 (Z_of_byte b3)) as [Hc3|]; [|done].
  destruct (Z.leb_spec (Z_of_byte b3) 191) as [Hc3'|]; [|done].
  cbn [andb negb].
  eexists _, 4%nat. split; [done|]. split; [|split].
  - apply lor_lower_l; [by apply land_mask_nonneg|].
    apply lor_lower_l; [by apply shiftl_mask_nonneg|].
    split_utf8_first Hfirst; try lia.
    + apply lor_lower_r; [by apply shiftl_mask_nonneg|].
      apply (shiftl_land_lower 1); [lia|by vm_compute|].
      rewrite land_ones_6. lia_mod.
    + apply lor_lower_l; [by apply shiftl_mask_nonneg|].
      apply (shiftl_land_lower 1); [lia|by vm_compute|].
      rewrite land_ones_3. lia_mod.
    + apply lor_lower_l; [by apply shiftl_mask_nonneg|].
      apply (shiftl_land_lower 1); [lia|by vm_compute|].
      rewrite land_ones_3. lia_mod.
  - cbn; lia.
  - cbn. repeat constructor; lia.
Qed.

(** ** Quoting in text mode *)

Lemma special_rune (c : byte) :
  special c = (Z_of_byte c =? 32) || (Z_of_byte c =? 61) || (Z_of_byte c =? 34).
Proof.
  unfold special.
  assert (Heq : forall d : byte, Ascii.eqb c d = (Z_of_byte c =? Z_of_byte d)).
  { intros d. destruct (Ascii.eqb_spec c d) as [->|Hne].
    - by rewrite Z.eqb_refl.
    - symmetry. apply Z.eqb_neq. by intros ?%Z_of_byte_inj. }
  by rewrite !Heq.
Qed.

Lemma special_ascii (c : byte) : special c = true -> Z_of_byte c < 128.
Proof. rewrite special_rune. lia. Qed.

Lemma needsQuoting_loop_existsb (fuel : nat) (s : list byte) :
  (length s <= fuel)%nat -> needsQuoting_loop fuel s = existsb special s.
Proof.
  revert s; induction fuel as [|fuel IH]; intros s Hlen.
  - by destruct s; [|cbn in Hlen; lia].
  - destruct s as [|b s']; [done|].
    cbn [needsQuoting_loop].
    destruct (decodeRune_cons b s') as [[Hlo ->]|[Hhi (r & w & -> & Hr & Hw & Hall)]].
    + cbn [existsb drop]. rewrite special_rune.
      destruct ((Z_of_byte b =? 32) || (Z_of_byte b =? 61) || (Z_of_byte b =? 34));
        [done|].
      cbn [orb]. apply IH. cbn in Hlen. lia.
    + destruct (Z.eqb_spec r 32); [lia|].
      destruct (Z.eqb_spec r 61); [lia|].
      destruct (Z.eqb_spec r 34); [lia|].
      cbn [orb]. rewrite IH by (rewrite length_drop; cbn in *; lia).
      rewrite <- (take_drop w (b :: s')) at 2. rewrite existsb_app.
      replace (existsb special (take w (b :: s'))) with false; [done|].
      symmetry. apply not_true_is_false. intros (c & Hin & Hc)%existsb_exists.
      apply special_ascii in Hc. rewrite Forall_forall in Hall.
      apply list_elem_of_In, Hall in Hin. lia.
Qed.

(** [needsQuoting] answers yes exactly for the strings that hold a space, an
    equals sign or a double quote. *)
Lemma needsQuoting_existsb (s : list byte) : needsQuoting s = existsb special s.
Proof. by apply needsQuoting_loop_existsb. Qed.

Lemma needsQuoting_app_l (s t : list byte) :
  needsQuoting s = true -> needsQuoting (s ++ t) = true.
Proof. rewrite !needsQuoting_existsb, existsb_app. by intros ->. Qed.

Lemma needsQuoting_app_r (s t : list byte) :
  needsQuoting t = true -> needsQuoting (s ++ t) = true.
Proof. rewrite !needsQuoting_existsb, existsb_app. intros ->. apply orb_true_r. Qed.

Section TextFacts.
Context `{GoImpl}.

Lemma int64_of_float_int64 (f : float) : int64 (int64_of_float f).
Proof.
  unfold int64_of_float.
  destruct (float_trunc f) as [z|]; [|apply float_overflow_int64].
  destruct (Z.leb_spec minInt64 z); [|apply float_overflow_int64].
  destruct (Z.leb_spec z maxInt64); [|apply float_overflow_int64].
  by split.
Qed.

Lemma appendInt_bytes (buf : slice) (v : Z) :
  int64 v -> bytes <$> appendInt buf v = Some (bytes buf ++ int_text v).
Proof.
  intros Hv. unfold int_text. destruct (Z.eqb_spec v minInt64) as [->|Hne].
  - apply appendInt_at_minInt64.
  - by apply appendInt_decimal.
Qed.

Lemma appendInt_Some (buf : slice) (v : Z) :
  int64 v -> exists buf', appendInt buf v = Some buf'
                          /\ bytes buf' = bytes buf ++ int_text v.
Proof.
  intros Hv. pose proof (appendInt_bytes buf v Hv) as Hb.
  apply fmap_Some in Hb as (buf' & -> & Hb). eauto.
Qed.

Lemma appendJSONFloat_Some (buf : slice) (f : float) :
  exists buf', appendJSONFloat buf f = Some buf'
               /\ bytes buf' = bytes buf ++ float_text f.
Proof.
  unfold appendJSONFloat, float_text.
  destruct (PrimFloat.eqb f 0); [eexists; split; [done|apply bytes_append]|].
  set (f' := if PrimFloat.ltb f 0 then PrimFloat.opp f else f).
  set (b := if PrimFloat.ltb f 0 then append buf (bs "-") else buf).
  replace (if PrimFloat.ltb f 0 then (append buf (bs "-"), PrimFloat.opp f)
           else (buf, f)) with (b, f') by (subst b f'; by destruct (PrimFloat.ltb f 0)).
  assert (Hb : bytes b = bytes buf ++ (if PrimFloat.ltb f 0 then bs "-" else [])).
  { subst b. destruct (PrimFloat.ltb f 0); [apply bytes_append|by rewrite app_nil_r]. }
  cbn zeta.
  destruct (appendInt_Some b (int64_of_float f') (int64_of_float_int64 _))
    as (b1 & -> & Hb1).
  cbn [mbind option_bind].
  destruct (PrimFloat.ltb 0 (PrimFloat.sub f' (float_of_int64 (int64_of_float f')))).
  - destruct (appendInt_Some (append b1 (bs "."))
                (int64_of_float
                   (PrimFloat.mul
                      (PrimFloat.sub f' (float_of_int64 (int64_of_float f'))) 1000))
                (int64_of_float_int64 _)) as (b2 & -> & Hb2).
    eexists; split; [done|].
    rewrite Hb2, bytes_append, Hb1, Hb. by rewrite <- !app_assoc.
  - eexists; split; [done|]. rewrite Hb1, Hb, app_nil_r. by rewrite <- !app_assoc.
Qed.

Lemma appendJSONString_byte_bytes (buf : slice) (r : byte) :
  bytes (appendJSONString_byte buf r) = bytes buf ++ escape_byte r.
Proof.
  unfold appendJSONString_byte, escape_byte.
  repeat destruct (Ascii.eqb r _); apply bytes_append.
Qed.

Lemma appendJSONString_bytes (buf : slice) (s : list byte) :
  bytes (appendJSONString buf s) = bytes buf ++ escape s.
Proof.
  unfold appendJSONString, escape. revert buf.
  induction s as [|r s IH]; intros buf; cbn [foldl flat_map].
  - by rewrite app_nil_r.
  - by rewrite IH, appendJSONString_byte_bytes, <- app_assoc.
Qed.

Lemma appendValue_Some (buf : slice) (v : value) :
  value_wf v ->
  exists buf', appendValue buf v = Some buf'
               /\ bytes buf' = bytes buf ++ value_text v.
Proof.
  intros Hwf. destruct v as [s|i|i|f|b|]; cbn [appendValue value_text].
  - destruct (needsQuoting s); eexists; (split; [done|]);
      rewrite !bytes_append; by rewrite <- ?app_assoc.
  - by apply appendInt_Some.
  - by apply appendInt_Some.
  - apply appendJSONFloat_Some.
  - destruct b; eexists; (split; [done|]); apply bytes_append.
  - eexists; split; [done|]. rewrite !bytes_append. by rewrite <- !app_assoc.
Qed.

Lemma appendJSONValue_Some (buf : slice) (v : value) :
  value_wf v ->
  exists buf', appendJSONValue buf v = Some buf'
               /\ bytes buf' = bytes buf ++ value_json v.
Proof.
  intros Hwf. destruct v as [s|i|i|f|b|]; cbn [appendJSONValue value_json].
  - eexists; split; [done|].
    rewrite !bytes_append, appendJSONString_bytes, bytes_append.
    by rewrite <- !app_assoc.
  - by apply appendInt_Some.
  - by apply appendInt_Some.
  - apply appendJSONFloat_Some.
  - destruct b; eexists; (split; [done|]); apply bytes_append.
  - eexists; split; [done|].
    rewrite !bytes_append, appendJSONString_bytes, bytes_append.
    by rewrite <- !app_assoc.
Qed.

Lemma appendText_fields_Some (buf : slice) (fields : list Field) :
  Forall (fun field => value_wf (Value field)) fields ->
  exists buf', appendText_fields buf fields = Some buf'
               /\ bytes buf' = bytes buf ++ fields_text fields.
Proof.
  intros Hwf. revert buf.
  induction Hwf as [|field fields Hv _ IH]; intros buf; cbn [appendText_fields].
  - eexists; split; [done|]. by rewrite app_nil_r.
  - destruct (appendValue_Some
                (append (append (append buf (bs " ")) (Key field)) (bs "="))
                (Value field) Hv) as (b1 & -> & Hb1).
    cbn [mbind option_bind].
    destruct (IH b1) as (b2 & -> & Hb2).
    eexists; split; [done|].
    rewrite Hb2, Hb1, !bytes_append. cbn [fields_text flat_map].
    by rewrite <- !app_assoc.
Qed.

Lemma appendJSON_fields_Some (buf : slice) (fields : list Field) :
  Forall (fun field => value_wf (Value field)) fields ->
  exists buf', appendJSON_fields buf fields = Some buf'
               /\ bytes buf' = bytes buf ++ fields_json fields.
Proof.
  intros Hwf. revert buf.
  induction Hwf as [|field fields Hv _ IH]; intros buf; cbn [appendJSON_fields].
  - eexists; split; [done|]. by rewrite app_nil_r.
  - destruct (appendJSONValue_Some
                (append (appendJSONString (append buf (bs "," ++ dq)) (Key field))
                        (dq ++ bs ":"))
                (Value field) Hv) as (b1 & -> & Hb1).
    cbn [mbind option_bind].
    destruct (IH b1) as (b2 & -> & Hb2).
    eexists; split; [done|].
    rewrite Hb2, Hb1, !bytes_append, appendJSONString_bytes, bytes_append.
    cbn [fields_json flat_map]. by rewrite <- !app_assoc.
Qed.

Lemma appendText_Some (l : Logger) (now : Time) (buf : slice) (level : Z)
    (msg : list byte) (fields : list Field) :
  Forall (fun field => value_wf (Value field)) fields ->
  exists buf', appendText l now buf level msg fields = Some buf'
               /\ bytes buf' = bytes buf ++ record_text now level msg fields.
Proof.
  intros Hwf. unfold appendText. cbn zeta.
  match goal with |- context [appendText_fields ?b _] =>
    destruct (appendText_fields_Some b fields Hwf) as (b' & -> & Hb') end.
  eexists; split; [done|].
  rewrite Hb', !bytes_append. unfold record_text. by rewrite <- !app_assoc.
Qed.

Lemma appendJSON_Some (l : Logger) (now : Time) (buf : slice) (level : Z)
    (msg : list byte) (fields : list Field) :
  Forall (fun field => value_wf (Value field)) fields ->
  exists buf', appendJSON l now buf level msg fields = Some buf'
               /\ bytes buf'
                  = bytes buf ++ record_json (UseUTC (config l)) now level msg fields.
Proof.
  intros Hwf. unfold appendJSON. cbn zeta.
  match goal with |- context [appendJSON_fields ?b _] =>
    destruct (appendJSON_fields_Some b fields Hwf) as (b' & -> & Hb') end.
  eexists; split; [done|]. cbn [mbind option_bind].
  rewrite bytes_append, Hb', !bytes_append, appendJSONString_bytes, !bytes_append.
  unfold record_json. rewrite <- !app_assoc. reflexivity.
Qed.

End TextFacts.

(** ** The delivery channel *)

Lemma sink_writes_app (tr1 tr2 : list event) :
  sink_writes (tr1 ++ tr2) = sink_writes tr1 ++ sink_writes tr2.
Proof.
  induction tr1 as [|ev tr1 IH]; [done|].
  destruct ev; cbn; by rewrite IH.
Qed.

Lemma set_mu_unlock (l : Logger) : mu l = false -> set_mu false (set_mu true l) = l.
Proof. destruct l as [c b p m]. cbn. by intros ->. Qed.

Section Delivery.
Context `{GoImpl}.

Lemma flush_mu (w : world) : mu (flush w).1 = mu w.1.
Proof.
  destruct w as [l tr]. unfold flush.
  by destruct (0 <? length (bytes (buffer l)))%nat.
Qed.

Lemma flush_config (w : world) : config (flush w).1 = config w.1.
Proof.
  destruct w as [l tr]. unfold flush.
  by destruct (0 <? length (bytes (buffer l)))%nat.
Qed.

Lemma flush_empty (l : Logger) (tr : list event) :
  bytes (buffer l) = [] -> flush (l, tr) = (l, tr).
Proof. intros Hb. unfold flush. by rewrite Hb. Qed.

Lemma flush_nonempty (l : Logger) (tr : list event) :
  bytes (buffer l) <> [] ->
  flush (l, tr)
  = (set_buffer (reslice0 (buffer l)) l, tr ++ [EvWrite (bytes (buffer l))]).
Proof.
  intros Hb. unfold flush.
  destruct (bytes (buffer l)) as [|c acc] eqn:Hacc; [done|]. reflexivity.
Qed.

(** C8. A call below the configured minimum level returns at once: the
    logger, pool and accumulation buffer included, is as it was, and
    the trace gains no event, so nothing is taken from the pool and nothing
    is written to the sink. *)
Theorem log_below_level_noop (now : Time) (level : Z) (msg : list byte)
    (fields : list Field) (w : world) :
  level < Level (config w.1) ->
  log now level msg fields w = Some w.
Proof.
  intros Hlt. unfold log. by destruct (Z.ltb_spec level (Level (config w.1))); [|lia].
Qed.

Lemma Flush_unbuffered (w : world) :
  BufferSize (config w.1) <= 0 -> Flush w = Some w.
Proof.
  intros Hle. unfold Flush.
  by destruct (Z.ltb_spec 0 (BufferSize (config w.1))); [lia|].
Qed.

Lemma Flush_nonempty (l : Logger) (tr : list event) :
  mu l = false -> 0 < BufferSize (config l) -> bytes (buffer l) <> [] ->
  Flush (l, tr)
  = Some (set_buffer (reslice0 (buffer l)) l,
          tr ++ [EvLock; EvWrite (bytes (buffer l)); EvUnlock]).
Proof.
  intros Hmu Hpos Hne. unfold Flush. cbn [fst].
  destruct (Z.ltb_spec 0 (BufferSize (config l))); [|lia].
  unfold mu_Lock. rewrite Hmu. cbn [mbind option_bind].
  rewrite flush_nonempty by done. cbn [mu_Unlock set_mu set_buffer mu].
  destruct l as [c b p m]. cbn in *. subst m. by rewrite <- !app_assoc.
Qed.

Lemma Flush_empty (l : Logger) (tr : list event) :
  mu l = false -> 0 < BufferSize (config l) -> bytes (buffer l) = [] ->
  Flush (l, tr) = Some (l, tr ++ [EvLock; EvUnlock]).
Proof.
  intros Hmu Hpos He. unfold Flush. cbn [fst].
  destruct (Z.ltb_spec 0 (BufferSize (config l))); [|lia].
  unfold mu_Lock. rewrite Hmu. cbn [mbind option_bind].
  rewrite flush_empty by done. cbn [mu_Unlock set_mu mu].
  rewrite <- app_assoc. f_equal. f_equal. by apply set_mu_unlock.
Qed.

(** C9. [Flush] does nothing on an unbuffered logger. On a buffered one
    it takes the mutex and, when the accumulation buffer holds bytes, hands
    all of them to the sink in one [Write] and empties the buffer, keeping
    its capacity; when the buffer is empty it writes nothing. A second
    [Flush] right after the first writes nothing and leaves the logger as the
    first left it. *)
Theorem Flush_spec (l : Logger) (tr : list event) :
  mu l = false ->
  (BufferSize (config l) <= 0 -> Flush (l, tr) = Some (l, tr))
  /\ (0 < BufferSize (config l) -> bytes (buffer l) <> [] ->
      Flush (l, tr)
      = Some (set_buffer (reslice0 (buffer l)) l,
              tr ++ [EvLock; EvWrite (bytes (buffer l)); EvUnlock])
      /\ reslice0 (buffer l) = Slice [] (cap (buffer l)))
  /\ (0 < BufferSize (config l) -> bytes (buffer l) = [] ->
      Flush (l, tr) = Some (l, tr ++ [EvLock; EvUnlock]))
  /\ (forall w1, Flush (l, tr) = Some w1 ->
      exists tr2, Flush w1 = Some (w1.1, tr2)
                  /\ sink_writes tr2 = sink_writes w1.2).
Proof.
  intros Hmu.
  split; [by apply (Flush_unbuffered (l, tr))|].
  split; [by intros; split; [apply Flush_nonempty|]|].
  split; [by apply Flush_empty|].
  intros [l1 tr1] Hw1. cbn [fst snd].
  destruct (Z.le_gt_cases (BufferSize (config l)) 0) as [Hle|Hpos].
  - rewrite (Flush_unbuffered (l, tr)) in Hw1 by done.
    injection Hw1 as <- <-.
    exists tr. by rewrite (Flush_unbuffered (l, tr)).
  - assert (Hl1 : mu l1 = false /\ 0 < BufferSize (config l1)
                  /\ bytes (buffer l1) = []).
    { destruct (bytes (buffer l)) as [|c acc] eqn:Hacc.
      - rewrite Flush_empty in Hw1 by (done || lia). by simplify_eq.
      - rewrite Flush_nonempty in Hw1 by (done || lia || by rewrite Hacc).
        by simplify_eq. }
    destruct Hl1 as (Hmu1 & Hpos1 & Hb1).
    exists (tr1 ++ [EvLock; EvUnlock]). split; [by apply Flush_empty|].
    by rewrite sink_writes_app, app_nil_r.
Qed.

Lemma buffered_write_run (l : Logger) (tr : list event) (buf : slice) :
  0 < BufferSize (config l) -> mu l = false ->
  exists l',
    write buf (l, tr)
    = Some (l', tr ++ [EvLock]
                   ++ forced_flush (BufferSize (config l)) (bytes (buffer l)) (bytes buf)
                   ++ [EvUnlock])
    /\ bytes (buffer l')
       = kept (BufferSize (config l)) (bytes (buffer l)) (bytes buf)
           ++ bytes buf ++ [newline]
    /\ config l' = config l /\ pool l' = pool l /\ mu l' = false.
Proof.
  intros Hpos Hmu. unfold write, kept, forced_flush. cbn [fst].
  destruct (Z.ltb_spec 0 (BufferSize (config l))); [|lia].
  unfold mu_Lock. rewrite Hmu. cbn [mbind option_bind fst set_mu config buffer].
  destruct (BufferSize (config l)
              <? Z.of_nat (length (bytes (buffer l))) + Z.of_nat (length (bytes buf))).
  - destruct (bytes (buffer l)) as [|c acc] eqn:Hacc.
    + rewrite flush_empty by done. cbn [mu_Unlock set_buffer set_mu mu buffer].
      eexists. split; [by rewrite <- !app_assoc|]. cbn [buffer config pool mu set_mu set_buffer].
      by rewrite !bytes_append, Hacc.
    + rewrite flush_nonempty by (cbn; by rewrite Hacc).
      cbn [mu_Unlock set_buffer set_mu mu buffer config pool].
      eexists. split; [by rewrite Hacc, <- !app_assoc|].
      cbn [buffer config pool mu set_mu set_buffer]. by rewrite !bytes_append.
  - cbn [mu_Unlock set_buffer set_mu mu buffer].
    eexists. split; [by rewrite <- !app_assoc|]. cbn [buffer config pool mu set_mu set_buffer].
    by rewrite !bytes_append, <- app_assoc.
Qed.

(** C5. A buffered delivery runs between taking and releasing the mutex.
    When the accumulated length plus the record length exceeds the capacity,
    the accumulation goes to the sink in one [Write] and is emptied first. The
    whole record and a newline are then appended, whatever the record's
    length. With capacity 50, an empty accumulation and two records of 40
    bytes, the first delivery leaves 41 bytes and writes nothing, and the
    second writes these 41 bytes before it appends the second record. *)
Theorem write_buffered (l : Logger) (tr : list event) (buf : slice) :
  0 < BufferSize (config l) -> mu l = false ->
  (exists l',
      write buf (l, tr)
      = Some (l', tr ++ [EvLock]
                     ++ forced_flush (BufferSize (config l)) (bytes (buffer l))
                          (bytes buf)
                     ++ [EvUnlock])
      /\ bytes (buffer l')
         = kept (BufferSize (config l)) (bytes (buffer l)) (bytes buf)
             ++ bytes buf ++ [newline]
      /\ config l' = config l /\ pool l' = pool l /\ mu l' = false)
  /\ (BufferSize (config l) = 50 -> bytes (buffer l) = [] ->
      length (bytes buf) = 40%nat ->
      forall buf2 : slice, length (bytes buf2) = 40%nat ->
      exists l1 l2,
        write buf (l, tr) = Some (l1, tr ++ [EvLock; EvUnlock])
        /\ length (bytes (buffer l1)) = 41%nat
        /\ write buf2 (l1, tr ++ [EvLock; EvUnlock])
           = Some (l2, (tr ++ [EvLock; EvUnlock])
                         ++ [EvLock; EvWrite (bytes buf ++ [newline]); EvUnlock])
        /\ bytes (buffer l2) = bytes buf2 ++ [newline]).
Proof.
  intros Hpos Hmu. split; [by apply buffered_write_run|].
  intros Hcap Hacc Hlen buf2 Hlen2.
  destruct (buffered_write_run l tr buf Hpos Hmu) as (l1 & Hw1 & Hb1 & Hc1 & _ & Hmu1).
  assert (Hpos1 : 0 < BufferSize (config l1)) by (by rewrite Hc1).
  destruct (buffered_write_run l1 (tr ++ [EvLock; EvUnlock]) buf2 Hpos1 Hmu1)
    as (l2 & Hw2 & Hb2 & _).
  rewrite Hcap, Hacc in Hw1, Hb1.
  assert (Hk1 : kept 50 [] (bytes buf) = [])
    by (unfold kept; by destruct (_ <? _)).
  assert (Hf1 : forced_flush 50 [] (bytes buf) = [])
    by (unfold forced_flush; by destruct (_ <? _)).
  rewrite Hk1 in Hb1. rewrite Hf1 in Hw1. cbn [app] in Hw1, Hb1.
  rewrite Hc1, Hcap, Hb1 in Hw2, Hb2.
  assert (Hover : (50 <? Z.of_nat (length (bytes buf ++ [newline]))
                         + Z.of_nat (length (bytes buf2))) = true).
  { rewrite length_app, Hlen, Hlen2. cbn [length]. apply Z.ltb_lt. lia. }
  unfold kept, forced_flush in Hw2, Hb2. rewrite Hover in Hw2, Hb2.
  exists l1, l2. split; [done|]. split; [by rewrite Hb1, length_app, Hlen|].
  split; [|done]. rewrite Hw2. by destruct (bytes buf).
Qed.

(** *** The scratch buffers *)

Lemma appendInt_wf (buf buf' : slice) (v : Z) :
  appendInt buf v = Some buf' -> slice_wf buf'.
Proof.
  unfold appendInt. destruct (v =? 0); [intros [= <-]; apply append_wf|].
  destruct (v <? 0);
    (destruct (appendInt_loop _ _ _) as [[idx tmp]|]; [|done]);
    intros [= <-]; apply append_wf.
Qed.

Lemma appendJSONFloat_wf (buf buf' : slice) (f : float) :
  appendJSONFloat buf f = Some buf' -> slice_wf buf'.
Proof.
  unfold appendJSONFloat.
  destruct (PrimFloat.eqb f 0); [intros [= <-]; apply append_wf|].
  destruct (PrimFloat.ltb f 0); cbn zeta;
    (destruct (appendInt _ _) as [b1|] eqn:Hb1; [|done]);
    cbn [mbind option_bind];
    (destruct (PrimFloat.ltb 0 _);
     [apply appendInt_wf | intros [= <-]; by apply appendInt_wf in Hb1]).
Qed.

Lemma appendValue_wf (buf buf' : slice) (v : value) :
  appendValue buf v = Some buf' -> slice_wf buf'.
Proof.
  destruct v as [s|i|i|f|b|]; cbn [appendValue].
  - destruct (needsQuoting s); intros [= <-]; apply append_wf.
  - apply appendInt_wf.
  - apply appendInt_wf.
  - apply appendJSONFloat_wf.
  - destruct b; intros [= <-]; apply append_wf.
  - intros [= <-]; apply append_wf.
Qed.

Lemma appendText_fields_wf (buf buf' : slice) (fields : list Field) :
  slice_wf buf -> appendText_fields buf fields = Some buf' -> slice_wf buf'.
Proof.
  revert buf; induction fields as [|field fields IH]; intros buf Hwf;
    cbn [appendText_fields].
  - by intros [= <-].
  - destruct (appendValue _ _) as [b1|] eqn:Hb1; [|done].
    cbn [mbind option_bind]. apply IH. by apply appendValue_wf in Hb1.
Qed.

Lemma appendText_wf (l : Logger) (now : Time) (buf buf' : slice) (level : Z)
    (msg : list byte) (fields : list Field) :
  appendText l now buf level msg fields = Some buf' -> slice_wf buf'.
Proof. unfold appendText. cbn zeta. apply appendText_fields_wf, append_wf. Qed.

Lemma appendJSON_wf (l : Logger) (now : Time) (buf buf' : slice) (level : Z)
    (msg : list byte) (fields : list Field) :
  appendJSON l now buf level msg fields = Some buf' -> slice_wf buf'.
Proof.
  unfold appendJSON. cbn zeta.
  destruct (appendJSON_fields _ _) as [b1|]; [|done].
  intros [= <-]. apply append_wf.
Qed.

Lemma write_Some (buf : slice) (l : Logger) (tr : list event) :
  mu l = false ->
  exists l' tr', write buf (l, tr) = Some (l', tr')
                 /\ pool l' = pool l /\ config l' = config l /\ mu l' = false.
Proof.
  intros Hmu. destruct (Z.lt_ge_cases 0 (BufferSize (config l))) as [Hpos|Hle].
  - destruct (buffered_write_run l tr buf Hpos Hmu) as (l' & Hw & _ & Hc & Hp & Hm).
    eauto 10.
  - unfold write. cbn [fst].
    destruct (Z.ltb_spec 0 (BufferSize (config l))); [lia|].
    cbn [Output_Write]. eauto 10.
Qed.

(** C3. What a call of [log] that passes the level check does with its
    scratch buffer: it takes a buffer [b] from the pool, encodes into the
    emptied [b], and puts back the emptied [b], with the capacity [b] had
    when it was taken. When the record is longer than that capacity, the
    encoder's buffer has grown beyond it, and the grown buffer is not the one
    that goes back to the pool. *)
Theorem log_puts_back_taken_buffer (now : Time) (level : Z) (msg : list byte)
    (fields : list Field) (l : Logger) (tr : list event) :
  Level (config l) <= level -> mu l = false ->
  Forall (fun field => value_wf (Value field)) fields ->
  exists b enc l' tr',
    b = (pool_Get (l, tr)).1
    /\ encode l now (reslice0 b) level msg fields = Some enc
    /\ log now level msg fields (l, tr) = Some (l', tr')
    /\ head (pool l') = Some (Slice [] (cap b))
    /\ last tr' = Some (EvPoolPut (Slice [] (cap b)))
    /\ ((cap b < length (bytes enc))%nat -> (cap b < cap enc)%nat).
Proof.
  intros Hlevel Hmu Hwf. unfold log. cbn [fst].
  destruct (Z.ltb_spec level (Level (config l))); [lia|].
  destruct (pool_Get (l, tr)) as [b [l1 tr1]] eqn:Hget. cbn [fst].
  assert (Hl1 : config l1 = config l /\ mu l1 = false).
  { unfold pool_Get in Hget. destruct (pool l); by simplify_eq. }
  destruct Hl1 as [Hc1 Hmu1].
  assert (Henc : exists enc,
             encode l now (reslice0 b) level msg fields = Some enc
             /\ slice_wf enc
             /\ (if Format (config l1) =? JSONFormat
                 then appendJSON l1 now (reslice0 b) level msg fields
                 else appendText l1 now (reslice0 b) level msg fields) = Some enc).
  { unfold encode. rewrite Hc1. destruct (Format (config l) =? JSONFormat).
    - destruct (appendJSON_Some l now (reslice0 b) level msg fields Hwf)
        as (enc & He & _).
      exists enc. split; [done|]. split; [by eapply appendJSON_wf|].
      rewrite <- He. unfold appendJSON. by rewrite Hc1.
    - destruct (appendText_Some l now (reslice0 b) level msg fields Hwf)
        as (enc & He & _).
      exists enc. split; [done|]. split; [by eapply appendText_wf|done]. }
  destruct Henc as (enc & He & Hewf & ->). cbn [mbind option_bind].
  destruct (write_Some enc l1 tr1 Hmu1) as (l2 & tr2 & -> & Hp2 & _).
  cbn [mbind option_bind pool_Put].
  exists b, enc. eexists _, _. split; [done|]. split; [done|]. split; [done|].
  cbn [pool set_pool reslice0 head]. split; [done|]. split; [by rewrite last_snoc|].
  unfold slice_wf in Hewf. lia.
Qed.

Lemma flush_pool (w : world) : pool (flush w).1 = pool w.1.
Proof.
  destruct w as [l tr]. unfold flush.
  by destruct (0 <? length (bytes (buffer l)))%nat.
Qed.

Lemma write_pool (buf : slice) (w w' : world) :
  write buf w = Some w' -> pool w'.1 = pool w.1.
Proof.
  destruct w as [l tr]. unfold write. cbn [fst].
  destruct (0 <? BufferSize (config l)); [|by intros [= <-]].
  unfold mu_Lock. destruct (mu l); [done|]. cbn [mbind option_bind fst].
  match goal with |- context [if ?c then flush ?w else ?w] =>
    pose proof (flush_pool w) as Hp; pose proof (flush_mu w) as Hm;
    destruct (if c then flush w else w) as [l1 tr1] eqn:Hw
  end.
  assert (Hl1 : pool l1 = pool l /\ mu l1 = true).
  { destruct (_ <? _); [|by simplify_eq]. rewrite Hw in Hp, Hm. by split. }
  destruct Hl1 as [Hp1 Hm1]. unfold mu_Unlock. cbn [set_buffer mu].
  rewrite Hm1. by intros [= <-].
Qed.

(** The pool of a logger only ever holds empty buffers of the capacity they
    were made with: whatever a call of [log] encodes, the buffer it puts
    back is not a grown one. *)
Lemma log_pool_never_grows (now : Time) (level : Z) (msg : list byte)
    (fields : list Field) (w w' : world) :
  Forall (fun s => s = make0 256) (pool w.1) ->
  log now level msg fields w = Some w' ->
  Forall (fun s => s = make0 256) (pool w'.1).
Proof.
  intros Hpool. unfold log.
  destruct (level <? Level (config w.1)); [by intros [= <-]|].
  destruct (pool_Get w) as [b w1] eqn:Hget.
  assert (Hb : b = make0 256 /\ Forall (fun s => s = make0 256) (pool w1.1)).
  { destruct w as [l tr]. unfold pool_Get in Hget. cbn [fst] in *.
    destruct (pool l) as [|b' idle] eqn:Hidle; simplify_eq; cbn [fst].
    - by rewrite Hidle.
    - inversion Hpool; by subst. }
  destruct Hb as [-> Hpool1].
  destruct (if Format (config w1.1) =? JSONFormat then _ else _) as [enc|];
    [|done].
  cbn [mbind option_bind].
  destruct (write enc w1) as [w2|] eqn:Hwrite; [|done].
  cbn [mbind option_bind]. intros [= <-].
  apply write_pool in Hwrite. destruct w2 as [l2 tr2]. cbn [pool_Put fst] in *.
  cbn [set_pool pool]. constructor; [done|]. by rewrite Hwrite.
Qed.

End Delivery.

(** ** The value encoders *)

Lemma fmap_bytes_Some (m : option slice) (x : list byte) :
  (exists b, m = Some b /\ bytes b = x) -> bytes <$> m = Some x.
Proof. by intros (b & -> & <-). Qed.

Section Values.
Context `{GoImpl}.

(** C1. At the smallest [int64], [-9223372036854775808], [appendInt]
    appends the sign alone and not the standard decimal text: the negation
    wraps around to the same negative value and the digit loop does not run.
    For every other [int64] it appends the standard decimal text
    ([appendInt_decimal]). *)
Theorem appendInt_minInt64 (buf : slice) :
  int64 minInt64
  /\ bytes <$> appendInt buf minInt64 = Some (bytes buf ++ bs "-")
  /\ formatInt minInt64 = bs "-9223372036854775808"
  /\ bytes <$> appendInt buf minInt64 <> Some (bytes buf ++ formatInt minInt64).
Proof.
  split; [by unfold int64, minInt64, maxInt64|].
  split; [apply appendInt_at_minInt64|]. split; [reflexivity|].
  rewrite appendInt_at_minInt64. intros [= Heq%app_inv_head]. discriminate.
Qed.

(** C2, as amended. For a value of an unsupported type neither encoder
    fails, and both append the placeholder [unknown] between double quotes. *)
Theorem unknown_placeholder_quoted (buf : slice) :
  bytes <$> appendValue buf VOther = Some (bytes buf ++ dq ++ bs "unknown" ++ dq)
  /\ bytes <$> appendJSONValue buf VOther
     = Some (bytes buf ++ dq ++ bs "unknown" ++ dq).
Proof.
  split; apply fmap_bytes_Some.
  - by apply (appendValue_Some buf VOther).
  - by apply (appendJSONValue_Some buf VOther).
Qed.

(** C10. In text mode a string value that holds a space, an equals sign
    or a double quote is put between double quotes with its bytes unchanged,
    a double quote or a newline inside it included. The record does not
    determine its fields: a field whose value is [s], a double quote, a
    space, a key, an equals sign, a double quote and [t] is rendered as the
    two fields with the values [s] and [t] are. *)
Theorem text_string_not_escaped (buf : slice) (s : list byte) :
  (exists c, c ∈ s /\ (c = " "%char \/ c = "="%char \/ c = quote)) ->
  bytes <$> appendValue buf (VString s) = Some (bytes buf ++ dq ++ s ++ dq)
  /\ (forall (l : Logger) (now : Time) (b : slice) (level : Z)
             (msg k y t : list byte),
        needsQuoting t = true ->
        bytes <$> appendText l now b level msg
                    [mkField k (VString (s ++ dq ++ bs " " ++ y ++ bs "=" ++ dq ++ t))]
        = bytes <$> appendText l now b level msg
                      [mkField k (VString s); mkField y (VString t)]).
Proof.
  intros (c & Hin & Hc).
  assert (Hq : needsQuoting s = true).
  { rewrite needsQuoting_existsb. apply existsb_exists. exists c.
    split; [by apply list_elem_of_In|].
    unfold special. by destruct Hc as [->|[->| ->]]. }
  split.
  - apply fmap_bytes_Some.
    destruct (appendValue_Some buf (VString s) I) as (b & Hb & Hbytes).
    exists b. split; [done|]. cbn [value_text] in Hbytes. by rewrite Hq in Hbytes.
  - intros l now b level msg k y t Ht.
    destruct (appendText_Some l now b level msg
                [mkField k (VString (s ++ dq ++ bs " " ++ y ++ bs "=" ++ dq ++ t))])
      as (b1 & Hb1 & Hbytes1); [by repeat constructor|].
    destruct (appendText_Some l now b level msg
                [mkField k (VString s); mkField y (VString t)])
      as (b2 & Hb2 & Hbytes2); [by repeat constructor|].
    rewrite Hb1, Hb2. cbn [fmap option_fmap option_map]. f_equal.
    rewrite Hbytes1, Hbytes2. f_equal.
    unfold record_text. do 5 f_equal.
    cbn [fields_text flat_map Key Value value_text].
    rewrite Hq, Ht, (needsQuoting_app_l s) by done.
    rewrite <- !app_assoc. reflexivity.
Qed.

End Values.

(** ** Concrete runs

    The runs below use the growth rule of the gc run time and the
    conversions of amd64. *)

(** C2, as the specification states it, fails: in text mode the
    placeholder is not the bare word [unknown]. *)
Lemma unknown_placeholder_not_bare :
  bytes <$> appendValue (make0 256) VOther
  <> Some (bytes (make0 256) ++ bs "unknown").
Proof. vm_compute. discriminate. Qed.

(** A debug call on a logger at level info. *)
Lemma log_below_level_noop_witness :
  DebugLevel < Level (config (exampleLogger JSONFormat 0))
  /\ log exampleTime DebugLevel (bs "x") [] (exampleLogger JSONFormat 0, [])
     = Some (exampleLogger JSONFormat 0, []).
Proof.
  split; [reflexivity|].
  apply (log_below_level_noop exampleTime DebugLevel (bs "x") []
           (exampleLogger JSONFormat 0, [])).
  reflexivity.
Defined.

(** A flush of twelve accumulated bytes, and a second flush after it. *)
Lemma Flush_spec_witness :
  let l := set_buffer (Slice (bs "first record") 64) (exampleLogger TextFormat 64) in
  mu l = false
  /\ Flush (l, [])
     = Some (exampleLogger TextFormat 64,
             [EvLock; EvWrite (bs "first record"); EvUnlock])
  /\ exists tr2,
       Flush (exampleLogger TextFormat 64,
              [EvLock; EvWrite (bs "first record"); EvUnlock])
       = Some (exampleLogger TextFormat 64, tr2)
       /\ sink_writes tr2 = [bs "first record"].
Proof.
  cbv zeta.
  pose proof (Flush_spec
                (set_buffer (Slice (bs "first record") 64) (exampleLogger TextFormat 64))
                [] eq_refl) as (_ & Hfull & _ & Hagain).
  split; [reflexivity|]. split.
  - apply Hfull; [reflexivity|discriminate].
  - apply (Hagain (exampleLogger TextFormat 64,
                   [EvLock; EvWrite (bs "first record"); EvUnlock])).
    apply Hfull; [reflexivity|discriminate].
Defined.

(** Capacity 50 and two records of 40 bytes. *)
Lemma write_buffered_witness :
  let l := exampleLogger TextFormat 50 in
  let r1 := Slice (replicate 40 "a"%char) 256 in
  let r2 := Slice (replicate 40 "b"%char) 256 in
  0 < BufferSize (config l) /\ mu l = false
  /\ exists l1 l2,
       write r1 (l, []) = Some (l1, [] ++ [EvLock; EvUnlock])
       /\ length (bytes (buffer l1)) = 41%nat
       /\ write r2 (l1, [] ++ [EvLock; EvUnlock])
          = Some (l2, ([] ++ [EvLock; EvUnlock])
                        ++ [EvLock; EvWrite (bytes r1 ++ [newline]); EvUnlock])
       /\ bytes (buffer l2) = bytes r2 ++ [newline].
Proof.
  cbv zeta. split; [reflexivity|]. split; [reflexivity|].
  apply (proj2 (write_buffered (exampleLogger TextFormat 50) []
                  (Slice (replicate 40 "a"%char) 256) eq_refl eq_refl));
    reflexivity.
Defined.

(** A message of 300 bytes on a logger whose pool is empty. *)
Lemma log_puts_back_taken_buffer_witness :
  let l := exampleLogger TextFormat 0 in
  let msg := replicate 300 "m"%char in
  Level (config l) <= InfoLevel /\ mu l = false
  /\ exists b enc l' tr',
       b = (pool_Get (l, [])).1
       /\ encode l exampleTime (reslice0 b) InfoLevel msg [] = Some enc
       /\ log exampleTime InfoLevel msg [] (l, []) = Some (l', tr')
       /\ head (pool l') = Some (Slice [] (cap b))
       /\ last tr' = Some (EvPoolPut (Slice [] (cap b)))
       /\ ((cap b < length (bytes enc))%nat -> (cap b < cap enc)%nat).
Proof.
  cbv zeta. split; [discriminate|]. split; [reflexivity|].
  apply (log_puts_back_taken_buffer exampleTime InfoLevel (replicate 300 "m"%char)
           [] (exampleLogger TextFormat 0) []);
    [discriminate|reflexivity|constructor].
Defined.

(** The run of C3 in figures: the record has 330 bytes, the encoder's
    buffer ends with capacity 512, and the pool gets back capacity 256. *)
Example log_grown_buffer_dropped :
  let l := exampleLogger TextFormat 0 in
  let msg := replicate 300 "m"%char in
  (fun enc => (length (bytes enc), cap enc))
    <$> encode l exampleTime (reslice0 (make0 256)) InfoLevel msg []
  = Some (330%nat, 512%nat)
  /\ (fun w : world => pool w.1) <$> log exampleTime InfoLevel msg [] (l, [])
     = Some [Slice [] 256].
Proof. by vm_compute. Qed.

(** A string value with a space. *)
Lemma text_string_not_escaped_witness :
  (exists c, c ∈ bs "a b" /\ (c = " "%char \/ c = "="%char \/ c = quote))
  /\ bytes <$> appendValue (make0 256) (VString (bs "a b"))
     = Some (bytes (make0 256) ++ dq ++ bs "a b" ++ dq).
Proof.
  assert (Hex : exists c, c ∈ bs "a b"
                          /\ (c = " "%char \/ c = "="%char \/ c = quote)).
  { exists " "%char. split; [|by left]. apply list_elem_of_further, list_elem_of_here. }
  split; [exact Hex|].
  exact (proj1 (text_string_not_escaped (make0 256) (bs "a b") Hex)).
Defined.

(** ** Time stamps *)

Lemma Time_Format_app (t : Time) (l1 l2 : list layoutElem) :
  Time_Format t (l1 ++ l2) = Time_Format t l1 ++ Time_Format t l2.
Proof. unfold Time_Format. by rewrite map_app, concat_app. Qed.

Lemma Time_Format_layoutMillis (t : Time) :
  Time_Format t layoutMillis
  = Time_Format t layoutSeconds ++ bs "." ++ take 3 (pad_int (nanosec t) 9)
      ++ zone_marker t.
Proof.
  change layoutMillis
    with (layoutSeconds ++ [stdFracSecond0 3; stdISO8601ColonTZ]).
  rewrite Time_Format_app. f_equal.
  unfold Time_Format, zone_marker. cbn [map concat].
  rewrite app_nil_r. unfold formatElem at 1.
  destruct (civil_of_days _) as [[year month] day].
  unfold formatNano. cbn [andb]. by rewrite <- app_assoc.
Qed.

Lemma Time_Format_RFC3339Nano (t : Time) :
  Time_Format t RFC3339Nano
  = Time_Format t layoutSeconds ++ formatNano (nanosec t) 9 true ++ zone_marker t.
Proof.
  change RFC3339Nano
    with (layoutSeconds ++ [stdFracSecond9 9; stdISO8601ColonTZ]).
  rewrite Time_Format_app. f_equal.
  unfold Time_Format, zone_marker. cbn [map concat].
  rewrite app_nil_r. unfold formatElem at 1.
  by destruct (civil_of_days _) as [[year month] day].
Qed.

Lemma zone_marker_UTC (t : Time) : zone_marker (Time_UTC t) = bs "Z".
Proof.
  unfold zone_marker, formatElem, Time_UTC. cbn [zoneOffset].
  by destruct (civil_of_days _) as [[year month] day].
Qed.

(** Away from UTC the marker is a sign, two digits, a colon and two
    digits. *)
Lemma zone_marker_offset (t : Time) :
  zoneOffset t <> 0 ->
  exists sign, (sign = "+"%char \/ sign = "-"%char)
    /\ zone_marker t
       = sign :: pad_int (Z.abs (Z.quot (zoneOffset t) 60) / 60) 2
           ++ bs ":" ++ pad_int (Z.abs (Z.quot (zoneOffset t) 60) mod 60) 2.
Proof.
  intros Hne. unfold zone_marker, formatElem.
  destruct (civil_of_days _) as [[year month] day].
  destruct (Z.eqb_spec (zoneOffset t) 0); [done|].
  destruct (Z.quot (zoneOffset t) 60 <? 0); eexists; (split; [|reflexivity]); auto.
Qed.

Lemma length_pad_int (x : Z) (width : nat) : (width <= length (pad_int x width))%nat.
Proof.
  unfold pad_int. rewrite !length_app, length_replicate.
  destruct (x <? 0); cbn [length]; lia.
Qed.

Lemma Time_Format_seconds_UTC (t : Time) (zone : Z) :
  Time_Format (Time_UTC (mkTime (unixSec t) (nanosec t) zone)) layoutSeconds
  = Time_Format (Time_UTC t) layoutSeconds.
Proof. reflexivity. Qed.

Lemma dropwhile_zero_split (d : list byte) :
  exists zeros, Forall (fun c => c = "0"%char) zeros /\ zeros ++ dropwhile_zero d = d.
Proof.
  induction d as [|c d (zeros & Hz & Hd)]; [by exists []|]. cbn.
  destruct (Ascii.eqb_spec c "0") as [->|_]; [|by exists []].
  exists ("0"%char :: zeros). split; [by constructor|]. cbn. by rewrite Hd.
Qed.

(** Removing the trailing zeros of a fraction removes zeros at its end and
    nothing else. *)
Lemma strip_trailing_zeros_split (d : list byte) :
  exists zeros, Forall (fun c => c = "0"%char) zeros
                /\ strip_trailing_zeros d ++ zeros = d.
Proof.
  destruct (dropwhile_zero_split (reverse d)) as (zeros & Hz & Hd).
  exists (reverse zeros). split; [by apply Forall_reverse|].
  unfold strip_trailing_zeros. by rewrite <- reverse_app, Hd, reverse_involutive.
Qed.

Lemma formatNano_nine (nanosec : Z) :
  (nanosec = 0 -> formatNano nanosec 9 true = [])
  /\ (nanosec <> 0 ->
      exists zeros, Forall (fun c => c = "0"%char) zeros
        /\ formatNano nanosec 9 true ++ zeros
           = bs "." ++ take 9 (pad_int nanosec 9)).
Proof.
  unfold formatNano. cbn [andb Nat.eqb orb]. split.
  - by intros ->.
  - intros Hnz. destruct (Z.eqb_spec nanosec 0); [done|].
    destruct (strip_trailing_zeros_split (take 9 (pad_int nanosec 9)))
      as (zeros & Hz & Hd).
    exists zeros. split; [done|]. by rewrite <- app_assoc, Hd.
Qed.

Section Stamps.
Context `{GoImpl}.

(** C7. The text record starts with the instant shown in UTC: date and
    time, a point, exactly three digits of the fraction of the second (the
    first three of the nine digits of the nanoseconds), and the marker [Z];
    neither the logger and its configuration nor the zone of the clock value
    changes it. The JSON record shows the instant in the layout
    [RFC3339Nano]: the fraction is left out when the nanoseconds are zero and
    is otherwise their nine digits without the zeros at the end; the instant
    is shown in UTC with the marker [Z] when [UseUTC] is set, and in the zone
    of the clock value with that zone's marker otherwise. *)
Theorem timestamps (l : Logger) (now : Time) (buf : slice) (level : Z)
    (msg : list byte) (fields : list Field) :
  Forall (fun field => value_wf (Value field)) fields ->
  (exists frac rest,
      bytes <$> appendText l now buf level msg fields
      = Some (bytes buf ++ Time_Format (Time_UTC now) layoutSeconds
                ++ bs "." ++ frac ++ bs "Z" ++ bs " " ++ rest)
      /\ frac = take 3 (pad_int (nanosec now) 9) /\ length frac = 3%nat
      /\ forall (l' : Logger) (zone : Z),
           bytes <$> appendText l' (mkTime (unixSec now) (nanosec now) zone)
                       buf level msg fields
           = bytes <$> appendText l now buf level msg fields)
  /\ (exists rest,
        let shown := if UseUTC (config l) then Time_UTC now else now in
        bytes <$> appendJSON l now buf level msg fields
        = Some (bytes buf ++ bs "{" ++ dq ++ bs "timestamp" ++ dq ++ bs ":" ++ dq
                  ++ Time_Format shown layoutSeconds
                  ++ formatNano (nanosec now) 9 true ++ zone_marker shown
                  ++ dq ++ rest)
        /\ (UseUTC (config l) = true -> zone_marker shown = bs "Z")
        /\ (UseUTC (config l) = false -> zone_marker shown = zone_marker now)
        /\ (nanosec now = 0 -> formatNano (nanosec now) 9 true = [])
        /\ (nanosec now <> 0 ->
            exists zeros, Forall (fun c => c = "0"%char) zeros
              /\ formatNano (nanosec now) 9 true ++ zeros
                 = bs "." ++ take 9 (pad_int (nanosec now) 9))).
Proof.
  intros Hwf. split.
  - destruct (appendText_Some l now buf level msg fields Hwf) as (b & Hb & Hbytes).
    exists (take 3 (pad_int (nanosec now) 9)). eexists.
    split; [|split; [done|split]].
    + apply fmap_bytes_Some. exists b. split; [done|].
      rewrite Hbytes. unfold record_text.
      rewrite Time_Format_layoutMillis, zone_marker_UTC.
      rewrite <- !app_assoc. reflexivity.
    + rewrite length_take. pose proof (length_pad_int (nanosec now) 9). lia.
    + intros l' zone.
      destruct (appendText_Some l' (mkTime (unixSec now) (nanosec now) zone)
                  buf level msg fields Hwf) as (b' & Hb' & Hbytes').
      rewrite Hb, Hb'. cbn [fmap option_fmap option_map]. f_equal.
      by rewrite Hbytes, Hbytes'.
  - destruct (appendJSON_Some l now buf level msg fields Hwf) as (b & Hb & Hbytes).
    eexists. cbv zeta. split; [|split; [|split; [|apply formatNano_nine]]].
    + apply fmap_bytes_Some. exists b. split; [done|].
      rewrite Hbytes. unfold record_json.
      rewrite Time_Format_RFC3339Nano.
      replace (nanosec (if UseUTC (config l) then Time_UTC now else now))
        with (nanosec now) by (by destruct (UseUTC (config l))).
      rewrite <- !app_assoc. reflexivity.
    + intros ->. apply zone_marker_UTC.
    + by intros ->.
Qed.

End Stamps.

Example stamp_text_example :
  Time_Format (Time_UTC exampleTime) layoutMillis = bs "2024-01-20T15:04:05.123Z".
Proof. reflexivity. Qed.

Example stamp_json_example :
  Time_Format exampleTime RFC3339Nano = bs "2024-01-20T16:04:05.123+01:00"
  /\ Time_Format (Time_UTC exampleTime) RFC3339Nano = bs "2024-01-20T15:04:05.123Z"
  /\ Time_Format (mkTime 1705763045 123456789 0) RFC3339Nano
     = bs "2024-01-20T15:04:05.123456789Z".
Proof. by vm_compute. Qed.

(** The instant [exampleTime], shown one hour east of UTC. *)
Lemma timestamps_witness :
  let l := exampleLogger JSONFormat 0 in
  let fields := [mkField (bs "userID") (VInt 12345)] in
  Forall (fun field => value_wf (Value field)) fields
  /\ exists frac rest,
       bytes <$> appendText l exampleTime (make0 256) InfoLevel (bs "started") fields
       = Some (bytes (make0 256) ++ Time_Format (Time_UTC exampleTime) layoutSeconds
                 ++ bs "." ++ frac ++ bs "Z" ++ bs " " ++ rest)
       /\ frac = take 3 (pad_int (nanosec exampleTime) 9) /\ length frac = 3%nat
       /\ forall (l' : Logger) (zone : Z),
            bytes <$> appendText l' (mkTime (unixSec exampleTime) (nanosec exampleTime) zone)
                        (make0 256) InfoLevel (bs "started") fields
            = bytes <$> appendText l exampleTime (make0 256) InfoLevel (bs "started")
                          fields.
Proof.
  cbv zeta.
  assert (Hwf : Forall (fun field => value_wf (Value field))
                  [mkField (bs "userID") (VInt 12345)]).
  { repeat constructor; discriminate. }
  split; [exact Hwf|].
  exact (proj1 (timestamps (exampleLogger JSONFormat 0) exampleTime (make0 256)
                  InfoLevel (bs "started") [mkField (bs "userID") (VInt 12345)] Hwf)).
Defined.

(** ** The float encoder and the JSON record on concrete inputs *)

Section Runs.
Context `{GoImpl}.

(** C6. [appendJSONFloat] renders 3.14159 as [3.141], 1.5 as [1.500],
    zero as [0] and -1.5 as [-1.500]. It renders 2.0625 as [2.62] and not as
    [2.062]: the fraction times 1000, cut to the integer 62, is appended
    without the zero that pads it to three places. *)
Theorem appendJSONFloat_drops_padding :
  bytes <$> appendJSONFloat (make0 256) 2.0625 = Some (bs "2.62")
  /\ bytes <$> appendJSONFloat (make0 256) 0x1.921f9f01b866ep+1 = Some (bs "3.141")
  /\ bytes <$> appendJSONFloat (make0 256) 1.5 = Some (bs "1.500")
  /\ bytes <$> appendJSONFloat (make0 256) 0 = Some (bs "0")
  /\ bytes <$> appendJSONFloat (make0 256) (-1.5) = Some (bs "-1.500").
Proof. repeat split; reflexivity. Qed.

(** C4. The JSON record of a message that holds the control byte 0x01
    is not a JSON text, and neither is the record of an [int64] field with
    the smallest value; the reader rejects both. A record without such
    values reads back as an object with the keys [timestamp], [level] and
    [message] and then the fields in their order, a repeated key twice. *)
Theorem appendJSON_not_always_json :
  let l := exampleLogger JSONFormat 0 in
  let encoded msg fields :=
    bytes <$> appendJSON l exampleTime (make0 256) InfoLevel msg fields in
  parse_json <$> encoded ["001"%char] [] = Some None
  /\ parse_json <$> encoded (bs "m") [mkField (bs "n") (VInt64 minInt64)] = Some None
  /\ parse_json <$> encoded (bs "started")
                      [mkField (bs "userID") (VInt 12345);
                       mkField (bs "userID") (VString (bs "a\b"))]
     = Some (Some (JObject
                     [(bs "timestamp", JString (bs "2024-01-20T16:04:05.123+01:00"));
                      (bs "level", JString (bs "INFO"));
                      (bs "message", JString (bs "started"));
                      (bs "userID", JNumber (bs "12345"));
                      (bs "userID", JString (bs "a\b"))])).
Proof. repeat split; vm_compute; reflexivity. Qed.

End Runs.

(** ** Reading the JSON record back *)

Lemma digit_is_digit (r : Z) :
  0 <= r < 10 -> is_digit (digit r) = true /\ (0 < r -> digit r <> "0"%char).
Proof.
  intros Hr.
  destruct (Z_lt10_cases r Hr) as [->|[->|[->|[->|[->|[->|[->|[->|[->| ->]]]]]]]]];
    (split; [reflexivity|]); intros Hpos; try lia; discriminate.
Qed.

(** The digits of a natural number are decimal digits, and the first one is
    not a zero unless the number is zero. *)
Lemma digits_shape (n : Z) :
  0 <= n ->
  exists d ds, digits n = d :: ds
    /\ Forall (fun c => is_digit c = true) (d :: ds)
    /\ (0 < n -> d <> "0"%char).
Proof.
  revert n. apply Zlt_0_ind. intros n IH Hn.
  destruct (Z.lt_ge_cases n 10) as [Hsmall|Hbig].
  - rewrite digits_lt10 by lia.
    destruct (digit_is_digit n ltac:(lia)) as [Hd Hnz].
    exists (digit n), []. by repeat constructor.
  - pose proof (Z.div_mod n 10 ltac:(lia)) as Hdm.
    pose proof (Z.mod_pos_bound n 10 ltac:(lia)) as Hm.
    assert (Hq : 0 < n / 10) by (apply Z.div_str_pos; lia).
    assert (Hstep : digits n = digits (n / 10) ++ [digit (n mod 10)]).
    { rewrite Hdm at 1. apply digits_step; lia. }
    rewrite Hstep.
    destruct (IH (n / 10)) as (d & ds & -> & Hall & Hnz); [lia|].
    destruct (digit_is_digit (n mod 10) Hm) as [Hd _].
    exists d, (ds ++ [digit (n mod 10)]). split; [done|]. split.
    + change (d :: ds ++ [digit (n mod 10)]) with ((d :: ds) ++ [digit (n mod 10)]).
      apply Forall_app. split; [done|]. by repeat constructor.
    + intros _. by apply Hnz.
Qed.

Lemma formatInt_sign_digits (v : Z) :
  formatInt v = (if v <? 0 then bs "-" else []) ++ digits (Z.abs v).
Proof. by destruct v. Qed.

Lemma span_digits_app (ds rest : list byte) :
  Forall (fun c => is_digit c = true) ds ->
  match rest with [] => True | c :: _ => is_digit c = false end ->
  span_digits (ds ++ rest) = (ds, rest).
Proof.
  intros Hds Hrest. induction Hds as [|d ds Hd _ IH].
  - destruct rest as [|c rest]; [done|]. cbn. by rewrite Hrest.
  - cbn. by rewrite Hd, IH.
Qed.

Lemma is_digit_not (d c : byte) :
  is_digit d = true -> is_digit c = false -> Ascii.eqb d c = false.
Proof.
  intros Hd Hc. destruct (Ascii.eqb_spec d c) as [->|]; [|done]. congruence.
Qed.

Lemma scan_frac_stop (rest : list byte) :
  number_stop rest -> scan_frac rest = Some ([], rest).
Proof.
  destruct rest as [|c rest]; [done|]. intros (_ & Hdot & _). cbn.
  by rewrite Hdot.
Qed.

Lemma scan_exp_stop (rest : list byte) :
  number_stop rest -> scan_exp rest = Some ([], rest).
Proof.
  destruct rest as [|c rest]; [done|]. intros (_ & _ & He & HE). cbn.
  by rewrite He, HE.
Qed.

Lemma scan_int_digits (n : Z) (rest : list byte) :
  0 <= n -> number_stop rest ->
  scan_int (digits n ++ rest) = Some (digits n, rest).
Proof.
  intros Hn Hstop.
  destruct (digits_shape n Hn) as (d & ds & Hdig & Hall & Hnz).
  assert (Hrest : match rest with [] => True | c :: _ => is_digit c = false end).
  { destruct rest; [done|]. by destruct Hstop. }
  destruct (Z.eq_dec n 0) as [->|Hn0]; [done|].
  rewrite <- (span_digits_app (digits n) rest) by (rewrite ?Hdig; done).
  rewrite Hdig. cbn [app scan_int].
  destruct (Ascii.eqb_spec d "0") as [->|_]; [exfalso; apply Hnz; [lia|done]|].
  inversion Hall as [|? ? Hd _]. by rewrite Hd.
Qed.

Lemma scan_number_digits (n : Z) (rest : list byte) :
  0 <= n -> number_stop rest ->
  scan_number (digits n ++ rest) = Some (digits n, rest).
Proof.
  intros Hn Hstop. unfold scan_number.
  destruct (digits_shape n Hn) as (d & ds & Hdig & Hall & _).
  assert (Hsign : scan_sign (digits n ++ rest) = ([], digits n ++ rest)).
  { rewrite Hdig. cbn. rewrite (is_digit_not d "-"); [done| |done].
    by inversion Hall. }
  rewrite Hsign, scan_int_digits by done. cbn [mbind option_bind].
  rewrite scan_frac_stop by done. cbn [mbind option_bind].
  rewrite scan_exp_stop by done. cbn [mbind option_bind app].
  by rewrite !app_nil_r.
Qed.

(** The reader takes the standard decimal text of an integer as one
    number. *)
Lemma scan_number_formatInt (v : Z) (rest : list byte) :
  number_stop rest ->
  scan_number (formatInt v ++ rest) = Some (formatInt v, rest).
Proof.
  intros Hstop. rewrite formatInt_sign_digits.
  destruct (Z.ltb_spec v 0) as [Hneg|Hpos];
    [|apply scan_number_digits; [lia|done]].
  unfold scan_number. cbn [app bs list_ascii_of_string scan_sign].
  change (Ascii.eqb "-" "-") with true. cbn iota.
  rewrite scan_int_digits by (done || lia). cbn [mbind option_bind].
  rewrite scan_frac_stop by done. cbn [mbind option_bind].
  rewrite scan_exp_stop by done. cbn [mbind option_bind app].
  by rewrite !app_nil_r.
Qed.

Lemma scan_string_escaped (e b : byte) (r : list byte) :
  Ascii.eqb e "u" = false -> unescape e = Some b ->
  scan_string ("\"%char :: e :: r)
  = '(content, rest) ← scan_string r; Some (b :: content, rest).
Proof.
  intros Hu He. cbn [scan_string].
  change (Ascii.eqb "\" quote) with false. change (Ascii.eqb "\" "\") with true.
  cbn iota. by rewrite Hu, He.
Qed.

Lemma scan_string_literal (c : byte) (r : list byte) :
  plain c = true ->
  scan_string (c :: r)
  = '(content, rest) ← scan_string r; Some (c :: content, rest).
Proof.
  unfold plain. intros [[Hc Hq]%andb_prop Hb]%andb_prop.
  cbn [scan_string].
  destruct (Ascii.eqb c quote); [done|]. destruct (Ascii.eqb c "\"); [done|].
  by destruct (Z.ltb_spec (Z_of_byte c) 32); [lia|].
Qed.

(** What [appendJSONString] writes for a string the encoder handles, closed
    by a double quote, reads back as that string. *)
Lemma scan_string_escape (s rest : list byte) :
  json_safe s -> scan_string (escape s ++ quote :: rest) = Some (s, rest).
Proof.
  intros Hsafe. induction Hsafe as [|c s Hc _ IH].
  - cbn [escape flat_map app scan_string]. by rewrite Ascii.eqb_refl.
  - unfold escape in *. cbn [flat_map]. rewrite <- app_assoc. unfold escape_byte at 1.
    destruct (Ascii.eqb_spec c quote) as [->|Hq].
    { cbn [bs list_ascii_of_string app dq].
      rewrite (scan_string_escaped quote quote) by reflexivity. by rewrite IH. }
    destruct (Ascii.eqb_spec c "\") as [->|Hb].
    { cbn [bs list_ascii_of_string app dq].
      rewrite (scan_string_escaped "\" "\") by reflexivity. by rewrite IH. }
    destruct (Ascii.eqb_spec c newline) as [->|Hn].
    { cbn [bs list_ascii_of_string app dq].
      rewrite (scan_string_escaped "n" newline) by reflexivity. by rewrite IH. }
    destruct (Ascii.eqb_spec c carriage_return) as [->|Hr].
    { cbn [bs list_ascii_of_string app dq].
      rewrite (scan_string_escaped "r" carriage_return) by reflexivity.
      by rewrite IH. }
    destruct (Ascii.eqb_spec c tab) as [->|Ht].
    { cbn [bs list_ascii_of_string app dq].
      rewrite (scan_string_escaped "t" tab) by reflexivity. by rewrite IH. }
    cbn [app]. rewrite scan_string_literal, IH; [done|].
    unfold plain, json_byte in *.
    destruct (Ascii.eqb_spec c quote); [done|].
    destruct (Ascii.eqb_spec c "\"); [done|].
    destruct (Ascii.eqb_spec c newline); [done|].
    destruct (Ascii.eqb_spec c carriage_return); [done|].
    destruct (Ascii.eqb_spec c tab); [done|].
    by rewrite !orb_false_r in Hc; rewrite Hc.
Qed.

Lemma escape_plain (s : list byte) :
  Forall (fun c => plain c = true) s -> escape s = s /\ json_safe s.
Proof.
  intros Hplain. induction Hplain as [|c s Hc _ [IH1 IH2]]; [by split; [|constructor]|].
  unfold plain in Hc. apply andb_prop in Hc as [Hc Hb]. apply andb_prop in Hc as [Hc Hq].
  split.
  - unfold escape in *. cbn [flat_map]. rewrite IH1. unfold escape_byte.
    destruct (Ascii.eqb c quote); [done|]. destruct (Ascii.eqb c "\"); [done|].
    destruct (Ascii.eqb_spec c newline) as [->|]; [done|].
    destruct (Ascii.eqb_spec c carriage_return) as [->|]; [done|].
    by destruct (Ascii.eqb_spec c tab) as [->|].
  - constructor; [|done]. unfold json_byte. by rewrite Hc.
Qed.

Lemma scan_string_plain (s rest : list byte) :
  Forall (fun c => plain c = true) s ->
  scan_string (s ++ quote :: rest) = Some (s, rest).
Proof.
  intros Hplain. destruct (escape_plain s Hplain) as [He Hsafe].
  rewrite <- He at 1. by apply scan_string_escape.
Qed.

(** *** The time stamp holds plain bytes only *)

Lemma is_digit_plain (c : byte) : is_digit c = true -> plain c = true.
Proof.
  intros Hd. unfold plain.
  destruct (Ascii.eqb_spec c quote) as [->|_]; [by vm_compute in Hd|].
  destruct (Ascii.eqb_spec c "\") as [->|_]; [by vm_compute in Hd|].
  unfold is_digit in Hd. apply andb_prop in Hd as [Hlo _].
  destruct (Z.leb_spec 32 (Z_of_byte c)); [done|lia].
Qed.

Lemma digits_plain (n : Z) : 0 <= n -> Forall (fun c => plain c = true) (digits n).
Proof.
  intros Hn. destruct (digits_shape n Hn) as (d & ds & -> & Hall & _).
  eapply Forall_impl; [exact Hall|]. apply is_digit_plain.
Qed.

Lemma pad_int_plain (x : Z) (width : nat) :
  Forall (fun c => plain c = true) (pad_int x width).
Proof.
  unfold pad_int. repeat apply Forall_app_2.
  - destruct (x <? 0); by repeat constructor.
  - by apply Forall_replicate.
  - apply digits_plain. lia.
Qed.

Lemma dropwhile_zero_Forall (P : byte -> Prop) (d : list byte) :
  Forall P d -> Forall P (dropwhile_zero d).
Proof.
  induction 1 as [|c d Hc Hd IH]; [done|]. cbn.
  destruct (Ascii.eqb c "0"); [done|by constructor].
Qed.

Lemma formatNano_plain (nanosec : Z) (n : nat) (trim : bool) :
  Forall (fun c => plain c = true) (formatNano nanosec n trim).
Proof.
  unfold formatNano. destruct (trim && _); [done|].
  apply Forall_app_2; [by repeat constructor|].
  assert (Forall (fun c => plain c = true) (take n (pad_int nanosec 9)))
    by apply Forall_take, pad_int_plain.
  destruct trim; [|done]. unfold strip_trailing_zeros.
  by apply Forall_reverse, dropwhile_zero_Forall, Forall_reverse.
Qed.

Lemma formatElem_plain (t : Time) (e : layoutElem) :
  plain_elem e -> Forall (fun c => plain c = true) (formatElem t e).
Proof.
  intros He. unfold formatElem.
  destruct (civil_of_days _) as [[year month] day].
  destruct e; try apply pad_int_plain; try apply formatNano_plain; [done|].
  destruct (zoneOffset t =? 0); [by repeat constructor|].
  apply Forall_app_2; [destruct (_ <? 0); by repeat constructor|].
  apply Forall_app_2; [apply pad_int_plain|].
  apply Forall_app_2; [by repeat constructor|apply pad_int_plain].
Qed.

Lemma Time_Format_plain (t : Time) (layout : list layoutElem) :
  Forall plain_elem layout -> Forall (fun c => plain c = true) (Time_Format t layout).
Proof.
  intros Hl. unfold Time_Format. apply Forall_concat, Forall_fmap.
  eapply Forall_impl; [exact Hl|]. intros e He. by apply formatElem_plain.
Qed.

Lemma RFC3339Nano_plain (t : Time) :
  Forall (fun c => plain c = true) (Time_Format t RFC3339Nano).
Proof. apply Time_Format_plain. repeat constructor. Qed.

Lemma Level_String_plain (level : Z) :
  Forall (fun c => plain c = true) (Level_String level).
Proof.
  unfold Level_String.
  repeat match goal with |- context [if ?b then _ else _] => destruct b end;
    by repeat constructor.
Qed.

(** *** Values and members *)

Lemma member_end_stop (rest : list byte) : member_end rest -> number_stop rest.
Proof. by intros [r [-> | ->]]. Qed.

Lemma parse_value_string (fuel : nat) (r : list byte) :
  parse_value (S fuel) (quote :: r)
  = '(content, rest) ← scan_string r; Some (JString content, rest).
Proof. reflexivity. Qed.

Lemma string_reads (s : list byte) :
  json_safe s -> reads_as (dq ++ escape s ++ dq) (JString s).
Proof.
  intros Hs fuel rest _. cbn [dq app]. rewrite <- app_assoc.
  change (dq ++ rest) with (quote :: rest).
  by rewrite parse_value_string, scan_string_escape.
Qed.

Lemma number_head_eqb (c x : byte) :
  number_head c -> is_digit x = false -> x <> "-"%char -> Ascii.eqb c x = false.
Proof.
  intros Hc Hx Hm. destruct (Ascii.eqb_spec c x) as [<-|]; [|done].
  destruct Hc; congruence.
Qed.

Lemma parse_value_number (fuel : nat) (c : byte) (r : list byte) :
  number_head c ->
  parse_value (S fuel) (c :: r)
  = '(lexeme, rest) ← scan_number (c :: r); Some (JNumber lexeme, rest).
Proof.
  intros Hc. cbn [parse_value skip_ws]. unfold is_ws.
  rewrite !(number_head_eqb c) by done. cbn [orb].
  by rewrite !(number_head_eqb c) by done.
Qed.

Lemma formatInt_head (v : Z) :
  exists c r, formatInt v = c :: r /\ number_head c.
Proof.
  rewrite formatInt_sign_digits. destruct (v <? 0).
  - eexists _, _. split; [reflexivity|by right].
  - destruct (digits_shape (Z.abs v) ltac:(lia)) as (d & ds & -> & Hall & _).
    exists d, ds. split; [done|]. left. by inversion Hall.
Qed.

Lemma int_reads (v : Z) : reads_as (formatInt v) (JNumber (formatInt v)).
Proof.
  intros fuel rest Hend.
  destruct (formatInt_head v) as (c & r & Hf & Hc).
  pose proof (scan_number_formatInt v rest (member_end_stop rest Hend)) as Hscan.
  rewrite Hf in *. cbn [app] in *.
  by rewrite parse_value_number, Hscan.
Qed.

Section Readback.
Context `{GoImpl}.

Lemma value_reads (v : value) :
  value_json_ok v -> reads_as (value_json v) (json_of_value v).
Proof.
  destruct v as [s|i|i|f|b|]; cbn [value_json_ok value_json json_of_value].
  - apply string_reads.
  - intros [_ Hmin]. unfold int_text.
    destruct (Z.eqb_spec i minInt64); [done|]. apply int_reads.
  - intros [_ Hmin]. unfold int_text.
    destruct (Z.eqb_spec i minInt64); [done|]. apply int_reads.
  - done.
  - intros _ fuel rest _. by destruct b.
  - intros _. apply (string_reads (bs "unknown")). by repeat constructor.
Qed.

Lemma parse_member_more (fuel : nat) (k vt : list byte) (jv : json)
    (r : list byte) (acc : list (list byte * json)) :
  json_safe k -> reads_as vt jv ->
  parse_members (S (S fuel)) (quote :: escape k ++ quote :: ":"%char :: vt
                                ++ ","%char :: r) acc
  = parse_members (S fuel) r ((k, jv) :: acc).
Proof.
  intros Hk Hv. cbn [parse_members skip_ws].
  change (is_ws quote) with false. cbn iota.
  change (Ascii.eqb quote quote) with true. cbn iota.
  rewrite scan_string_escape by done. cbn [mbind option_bind skip_ws].
  change (is_ws ":") with false. change (Ascii.eqb ":" ":") with true. cbn iota.
  rewrite (Hv fuel) by (eexists; by left). cbn [mbind option_bind skip_ws].
  reflexivity.
Qed.

Lemma parse_member_last (fuel : nat) (k vt : list byte) (jv : json)
    (r : list byte) (acc : list (list byte * json)) :
  json_safe k -> reads_as vt jv ->
  parse_members (S (S fuel)) (quote :: escape k ++ quote :: ":"%char :: vt
                                ++ "}"%char :: r) acc
  = Some (JObject (reverse ((k, jv) :: acc)), r).
Proof.
  intros Hk Hv. cbn [parse_members skip_ws].
  change (is_ws quote) with false. cbn iota.
  change (Ascii.eqb quote quote) with true. cbn iota.
  rewrite scan_string_escape by done. cbn [mbind option_bind skip_ws].
  change (is_ws ":") with false. change (Ascii.eqb ":" ":") with true. cbn iota.
  rewrite (Hv fuel) by (eexists; by right). cbn [mbind option_bind skip_ws].
  reflexivity.
Qed.

(** The members of an object, as [appendJSON] writes them: a first member
    and then the fields, each behind a comma. *)
Lemma parse_members_fields (fields : list Field) :
  forall (k vt : list byte) (jv : json) (acc : list (list byte * json))
         (fuel : nat) (rest : list byte),
    json_safe k -> reads_as vt jv ->
    Forall (fun field => json_safe (Key field) /\ value_json_ok (Value field))
           fields ->
    (length fields + 1 < fuel)%nat ->
    parse_members fuel
      (quote :: escape k ++ quote :: ":"%char :: vt
         ++ fields_json fields ++ "}"%char :: rest) acc
    = Some (JObject (reverse acc ++ (k, jv)
                       :: map (fun field => (Key field, json_of_value (Value field)))
                            fields), rest).
Proof.
  induction fields as [|field fields IH];
    intros k vt jv acc fuel rest Hk Hv Hok Hfuel;
    (destruct fuel as [|[|fuel]]; [cbn in Hfuel; lia..|]).
  - cbn [fields_json flat_map app map].
    rewrite (parse_member_last fuel k vt jv) by done. by rewrite reverse_cons.
  - inversion Hok as [|? ? [Hkey Hval] Hok']; subst.
    cbn [fields_json flat_map]. fold (fields_json fields).
    replace (((bs "," ++ dq ++ escape (Key field) ++ dq ++ bs ":"
                 ++ value_json (Value field)) ++ fields_json fields)
               ++ "}"%char :: rest)
      with (","%char :: quote :: escape (Key field) ++ quote :: ":"%char
              :: value_json (Value field) ++ fields_json fields
              ++ "}"%char :: rest)
      by (rewrite <- !app_assoc; reflexivity).
    rewrite (parse_member_more fuel k vt jv) by done.
    rewrite (IH (Key field) (value_json (Value field)) (json_of_value (Value field)));
      [|done|by apply value_reads|done|cbn in Hfuel; lia].
    cbn [map]. by rewrite reverse_cons, <- app_assoc.
Qed.

End Readback.

Section RecordReadback.
Context `{GoImpl}.

Lemma length_fields_json (fields : list Field) :
  (length fields <= length (fields_json fields))%nat.
Proof.
  induction fields as [|field fields IH]; [done|].
  cbn [fields_json flat_map]. fold (fields_json fields).
  rewrite !length_app. cbn [length bs list_ascii_of_string]. lia.
Qed.

Lemma parse_json_object (k vt : list byte) (jv : json) (fields : list Field) :
  json_safe k -> reads_as vt jv ->
  Forall (fun field => json_safe (Key field) /\ value_json_ok (Value field))
         fields ->
  parse_json ("{"%char :: quote :: escape k ++ quote :: ":"%char :: vt
                ++ fields_json fields ++ bs "}")
  = Some (JObject ((k, jv)
                     :: map (fun field => (Key field, json_of_value (Value field)))
                          fields)).
Proof.
  intros Hk Hv Hok. unfold parse_json.
  set (members := quote :: escape k ++ quote :: ":"%char :: vt
                    ++ fields_json fields ++ bs "}").
  change (parse_value (S (length ("{"%char :: members))) ("{"%char :: members))
    with (parse_members (length ("{"%char :: members)) members []).
  subst members. change (bs "}") with ["}"%char].
  rewrite (parse_members_fields fields k vt jv); [done..|].
  pose proof (length_fields_json fields).
  cbn [length]. rewrite !length_app. cbn [length]. rewrite !length_app. lia.
Qed.

Lemma value_json_ok_wf (v : value) : value_json_ok v -> value_wf v.
Proof. destruct v; cbn; tauto. Qed.

(** The record of a message, keys and string values that the encoder
    handles, with integers other than the smallest and without floats, is a
    JSON text. It reads back as the object with the members [timestamp],
    [level] and [message] and then one member per field, in the order of the
    fields, a repeated key as often as it was given. *)
Lemma appendJSON_reads_back (l : Logger) (now : Time) (buf : slice) (level : Z)
    (msg : list byte) (fields : list Field) :
  bytes buf = [] -> json_safe msg ->
  Forall (fun field => json_safe (Key field) /\ value_json_ok (Value field))
         fields ->
  exists enc,
    appendJSON l now buf level msg fields = Some enc
    /\ parse_json (bytes enc)
       = Some (json_of_record
                 (Time_Format (if UseUTC (config l) then Time_UTC now else now)
                    RFC3339Nano)
                 level msg fields).
Proof.
  intros Hbuf Hmsg Hok.
  destruct (appendJSON_Some l now buf level msg fields) as (enc & Henc & Hbytes).
  { eapply Forall_impl; [exact Hok|]. intros field [_ Hv]. by apply value_json_ok_wf. }
  exists enc. split; [done|]. rewrite Hbytes, Hbuf. cbn [app].
  set (stamp := Time_Format (if UseUTC (config l) then Time_UTC now else now)
                  RFC3339Nano).
  destruct (escape_plain stamp (RFC3339Nano_plain _)) as [Hstamp Hstamp_safe].
  destruct (escape_plain _ (Level_String_plain level)) as [Hlevel Hlevel_safe].
  pose proof (parse_json_object (bs "timestamp") (dq ++ escape stamp ++ dq)
                (JString stamp)
                (mkField (bs "level") (VString (Level_String level))
                   :: mkField (bs "message") (VString msg) :: fields)) as Hparse.
  cbn [map json_of_value Key Value] in Hparse.
  unfold json_of_record. rewrite <- Hparse; clear Hparse.
  - f_equal. unfold record_json. fold stamp.
    cbn [fields_json flat_map Key Value value_json]. fold (fields_json fields).
    rewrite Hstamp, Hlevel. rewrite <- !app_assoc. reflexivity.
  - by repeat constructor.
  - by apply string_reads.
  - by repeat constructor.
Qed.

End RecordReadback.

(** * Further properties of the code *)

(** ** The integer encoder away from the smallest value *)

Lemma length_digits_pos (n : Z) : 0 <= n -> (1 <= length (digits n))%nat.
Proof.
  intros Hn. destruct (digits_shape n Hn) as (d & ds & -> & _). cbn. lia.
Qed.

Lemma length_formatInt (v : Z) :
  int64 v -> v <> minInt64 -> (1 <= length (formatInt v) <= 20)%nat.
Proof.
  unfold int64, minInt64, maxInt64. intros Hv Hmin.
  rewrite formatInt_sign_digits, length_app.
  assert (Habs : 0 <= Z.abs v) by lia.
  pose proof (length_digits_pos (Z.abs v) Habs) as Hpos.
  assert (Hlen : (length (digits (Z.abs v)) <= 19)%nat).
  { destruct (Z.eq_dec v 0) as [->|Hnz]; [vm_compute; lia|].
    pose proof (loop_digits_length 19 (Z.abs v)) as H19.
    unfold loop_digits in H19. destruct (Z.ltb_spec 0 (Z.abs v)); [|lia].
    apply H19. lia. }
  destruct (v <? 0); cbn [length bs list_ascii_of_string]; lia.
Qed.

Section IntExtra.
Context `{GoImpl}.

(** X1. For every [int64] other than the smallest, [appendInt] returns, keeps
    what the buffer holds and appends the standard decimal text of its
    argument, which has between one and twenty bytes. *)
Theorem appendInt_standard_decimal (buf : slice) (v : Z) :
  int64 v -> v <> minInt64 ->
  exists buf',
    appendInt buf v = Some buf'
    /\ bytes buf' = bytes buf ++ formatInt v
    /\ (1 <= length (formatInt v) <= 20)%nat.
Proof.
  intros Hv Hmin.
  pose proof (appendInt_decimal buf v Hv Hmin) as Hb.
  apply fmap_Some in Hb as (buf' & -> & Hb).
  exists buf'. split; [done|]. split; [done|]. by apply length_formatInt.
Qed.

End IntExtra.

(** ** Quoting and escaping *)

(** X2. [needsQuoting], which walks the runes of its argument, answers yes
    exactly when one of the bytes of the argument is a space, an equals sign
    or a double quote, whether the argument is valid UTF-8 or not. *)
Theorem needsQuoting_bytes (s : list byte) :
  needsQuoting s = true
  <-> exists c, c ∈ s /\ (c = " "%char \/ c = "="%char \/ c = quote).
Proof.
  rewrite needsQuoting_existsb, existsb_exists. split.
  - intros (c & Hin & Hc). exists c. split; [by apply list_elem_of_In|].
    unfold special in Hc.
    destruct (Ascii.eqb_spec c " "); [by left|].
    destruct (Ascii.eqb_spec c "="); [by right; left|].
    destruct (Ascii.eqb_spec c quote); [by right; right|done].
  - intros (c & Hin & Hc). exists c. split; [by apply list_elem_of_In|].
    unfold special. by destruct Hc as [->|[->| ->]].
Qed.

Lemma escape_byte_prefix_free (a b : byte) (x y : list byte) :
  escape_byte a ++ x = escape_byte b ++ y -> a = b /\ x = y.
Proof.
  unfold escape_byte.
  destruct (Ascii.eqb_spec a quote) as [->|?];
    [|destruct (Ascii.eqb_spec a "\") as [->|?];
      [|destruct (Ascii.eqb_spec a newline) as [->|?];
        [|destruct (Ascii.eqb_spec a carriage_return) as [->|?];
          [|destruct (Ascii.eqb_spec a tab) as [->|?]]]]];
  (destruct (Ascii.eqb_spec b quote) as [->|?];
    [|destruct (Ascii.eqb_spec b "\") as [->|?];
      [|destruct (Ascii.eqb_spec b newline) as [->|?];
        [|destruct (Ascii.eqb_spec b carriage_return) as [->|?];
          [|destruct (Ascii.eqb_spec b tab) as [->|?]]]]]);
  cbn; intros Heq; simplify_eq; try done.
Qed.

Lemma escape_injective (s t : list byte) : escape s = escape t -> s = t.
Proof.
  revert t; induction s as [|a s IH]; intros [|b t]; unfold escape; cbn [flat_map].
  - done.
  - unfold escape_byte. repeat destruct (Ascii.eqb b _); discriminate.
  - unfold escape_byte. repeat destruct (Ascii.eqb a _); discriminate.
  - intros [-> Hrest]%escape_byte_prefix_free. f_equal. by apply IH.
Qed.

Section EscapeExtra.
Context `{GoImpl}.

(** X3. [appendJSONString] loses nothing: appended to the same buffer, two
    strings give the same bytes only if they are the same string. *)
Theorem appendJSONString_injective (buf : slice) (s t : list byte) :
  bytes (appendJSONString buf s) = bytes (appendJSONString buf t) <-> s = t.
Proof.
  split; [|by intros ->].
  rewrite !appendJSONString_bytes. intros Heq%app_inv_head.
  by apply escape_injective.
Qed.

End EscapeExtra.

(** ** Records and lines *)

Lemma plain_inline (c : byte) : plain c = true -> inline c = true.
Proof.
  unfold plain, inline. intros Hc.
  apply andb_prop in Hc as [Hc _]. apply andb_prop in Hc as [Hc _].
  destruct (Ascii.eqb_spec c newline) as [->|_]; [by vm_compute in Hc|].
  by destruct (Ascii.eqb_spec c carriage_return) as [->|_]; [vm_compute in Hc|].
Qed.

Lemma Forall_plain_inline (s : list byte) :
  Forall (fun c => plain c = true) s -> Forall (fun c => inline c = true) s.
Proof. intros Hs. eapply Forall_impl; [exact Hs|exact plain_inline]. Qed.

Lemma escape_inline (s : list byte) : Forall (fun c => inline c = true) (escape s).
Proof.
  unfold escape. induction s as [|r s IH]; [constructor|].
  cbn [flat_map]. apply Forall_app_2; [|done].
  unfold escape_byte.
  destruct (Ascii.eqb r quote); [by repeat constructor|].
  destruct (Ascii.eqb r "\"); [by repeat constructor|].
  destruct (Ascii.eqb r newline) eqn:Hn; [by repeat constructor|].
  destruct (Ascii.eqb r carriage_return) eqn:Hr; [by repeat constructor|].
  destruct (Ascii.eqb r tab); [by repeat constructor|].
  repeat constructor. unfold inline. by rewrite Hn, Hr.
Qed.

Lemma int_text_inline (v : Z) : Forall (fun c => inline c = true) (int_text v).
Proof.
  unfold int_text. destruct (v =? minInt64); [by repeat constructor|].
  rewrite formatInt_sign_digits. apply Forall_app_2.
  - destruct (v <? 0); by repeat constructor.
  - apply Forall_plain_inline, digits_plain. lia.
Qed.

Section Lines.
Context `{GoImpl}.

Lemma float_text_inline (f : float) : Forall (fun c => inline c = true) (float_text f).
Proof.
  unfold float_text. destruct (PrimFloat.eqb f 0); [by repeat constructor|].
  cbn zeta. apply Forall_app_2; [destruct (PrimFloat.ltb f 0); by repeat constructor|].
  apply Forall_app_2; [apply int_text_inline|].
  destruct (PrimFloat.ltb 0 _); [|constructor].
  apply Forall_app_2; [by repeat constructor|apply int_text_inline].
Qed.

Lemma value_json_inline (v : value) : Forall (fun c => inline c = true) (value_json v).
Proof.
  destruct v as [s|i|i|f|b|]; cbn [value_json].
  - apply Forall_app_2; [by repeat constructor|].
    apply Forall_app_2; [apply escape_inline|by repeat constructor].
  - apply int_text_inline.
  - apply int_text_inline.
  - apply float_text_inline.
  - destruct b; by repeat constructor.
  - by repeat constructor.
Qed.

Lemma fields_json_inline (fields : list Field) :
  Forall (fun c => inline c = true) (fields_json fields).
Proof.
  unfold fields_json. induction fields as [|field fields IH]; [constructor|].
  cbn [flat_map]. apply Forall_app_2; [|done].
  apply Forall_app_2; [by repeat constructor|].
  apply Forall_app_2; [by repeat constructor|].
  apply Forall_app_2; [apply escape_inline|].
  apply Forall_app_2; [by repeat constructor|].
  apply Forall_app_2; [by repeat constructor|apply value_json_inline].
Qed.

Lemma record_json_inline (utc : bool) (now : Time) (level : Z) (msg : list byte)
    (fields : list Field) :
  Forall (fun c => inline c = true) (record_json utc now level msg fields).
Proof.
  unfold record_json.
  repeat (apply Forall_app_2;
          [first [ by repeat constructor
                 | apply Forall_plain_inline, RFC3339Nano_plain
                 | apply Forall_plain_inline, Level_String_plain
                 | apply escape_inline
                 | apply fields_json_inline ]|]).
  by repeat constructor.
Qed.

Lemma inline_not_elem (s : list byte) :
  Forall (fun c => inline c = true) s -> (newline ∉ s) /\ (carriage_return ∉ s).
Proof.
  rewrite Forall_forall. intros Hs. split; intros Hin%Hs; by vm_compute in Hin.
Qed.

(** X4. A JSON record is one line, whatever the message, the keys and the
    values hold: [appendJSON] returns for every message and every list of
    fields, and among the bytes it appends there is neither a newline nor a
    carriage return. *)
Theorem appendJSON_one_line (l : Logger) (now : Time) (buf : slice) (level : Z)
    (msg : list byte) (fields : list Field) :
  Forall (fun field => value_wf (Value field)) fields ->
  exists enc rec,
    appendJSON l now buf level msg fields = Some enc
    /\ bytes enc = bytes buf ++ rec
    /\ (newline ∉ rec) /\ (carriage_return ∉ rec).
Proof.
  intros Hwf.
  destruct (appendJSON_Some l now buf level msg fields Hwf) as (enc & Henc & Hbytes).
  exists enc, (record_json (UseUTC (config l)) now level msg fields).
  split; [done|]. split; [done|].
  apply inline_not_elem, record_json_inline.
Qed.

(** X6. The text encoder copies the message as it is and marks its end in no
    way. A message followed by a space, a key, an equals sign and the text
    of a value gives the very line that the message gives with that key and
    value as a field; and a newline in the message is a newline in the
    line. *)
Theorem appendText_message_verbatim (l : Logger) (now : Time) (buf : slice)
    (level : Z) (msg k : list byte) (v : value) :
  value_wf v ->
  bytes <$> appendText l now buf level (msg ++ bs " " ++ k ++ bs "=" ++ value_text v) []
  = bytes <$> appendText l now buf level msg [mkField k v]
  /\ (newline ∈ msg ->
      exists enc rec,
        appendText l now buf level msg [mkField k v] = Some enc
        /\ bytes enc = bytes buf ++ rec /\ (newline ∈ rec)).
Proof.
  intros Hv.
  destruct (appendText_Some l now buf level
              (msg ++ bs " " ++ k ++ bs "=" ++ value_text v) [])
    as (b1 & Hb1 & Hbytes1); [constructor|].
  destruct (appendText_Some l now buf level msg [mkField k v])
    as (b2 & Hb2 & Hbytes2); [by repeat constructor|].
  split.
  - rewrite Hb1, Hb2. cbn [fmap option_fmap option_map]. f_equal.
    rewrite Hbytes1, Hbytes2. f_equal. unfold record_text. do 4 f_equal.
    cbn [fields_text flat_map Key Value]. by rewrite <- !app_assoc, !app_nil_r.
  - intros Hin. exists b2, (record_text now level msg [mkField k v]).
    split; [done|]. split; [done|]. unfold record_text.
    rewrite !elem_of_app. tauto.
Qed.

(** ** A call of [log] that passes the level check *)

Lemma pool_Get_world (l : Logger) (tr : list event) :
  exists b l1 tr1,
    pool_Get (l, tr) = (b, (l1, tr ++ tr1))
    /\ config l1 = config l /\ buffer l1 = buffer l /\ mu l1 = mu l
    /\ sink_writes tr1 = [] /\ (EvLock ∉ tr1) /\ (EvUnlock ∉ tr1)
    /\ match pool l with
       | b' :: idle => b = b' /\ pool l1 = idle /\ tr1 = [EvPoolGet b']
       | [] => b = make0 256 /\ pool l1 = []
               /\ tr1 = [EvPoolNew (make0 256); EvPoolGet (make0 256)]
       end.
Proof.
  unfold pool_Get. destruct l as [c bf p m]. destruct p as [|b' idle]; cbn.
  - exists (make0 256), (mkLogger c bf [] m), [EvPoolNew (make0 256); EvPoolGet (make0 256)].
    repeat split; try done; not_in_list.
  - exists b', (mkLogger c bf idle m), [EvPoolGet b'].
    repeat split; try done; not_in_list.
Qed.

Lemma log_enabled (now : Time) (level : Z) (msg : list byte)
    (fields : list Field) (l : Logger) (tr : list event) :
  Level (config l) <= level ->
  Forall (fun field => value_wf (Value field)) fields ->
  exists enc,
    bytes enc = record_of (config l) now level msg fields
    /\ log now level msg fields (l, tr)
       = (w ← write enc (pool_Get (l, tr)).2;
          Some (pool_Put (reslice0 (pool_Get (l, tr)).1) w)).
Proof.
  intros Hlevel Hwf. unfold log. cbn [fst].
  destruct (Z.ltb_spec level (Level (config l))); [lia|].
  destruct (pool_Get_world l tr) as (b & l1 & tr1 & -> & Hc & _).
  cbn [fst snd]. unfold record_of. rewrite Hc.
  destruct (Format (config l) =? JSONFormat).
  - destruct (appendJSON_Some l1 now (reslice0 b) level msg fields Hwf)
      as (enc & -> & Hbytes).
    exists enc. split; [by rewrite Hbytes, Hc|done].
  - destruct (appendText_Some l1 now (reslice0 b) level msg fields Hwf)
      as (enc & -> & Hbytes).
    exists enc. split; [done|done].
Qed.

Lemma write_unbuffered (buf : slice) (l : Logger) (tr : list event) :
  BufferSize (config l) <= 0 ->
  write buf (l, tr) = Some (l, tr ++ [EvWrite (bytes buf); EvWrite [newline]]).
Proof.
  intros Hle. unfold write. cbn [fst].
  destruct (Z.ltb_spec 0 (BufferSize (config l))); [lia|].
  cbn [Output_Write]. by rewrite <- app_assoc.
Qed.

Lemma log_unbuffered_writes (now : Time) (level : Z) (msg : list byte)
    (fields : list Field) (l : Logger) (tr : list event) :
  BufferSize (config l) <= 0 -> Level (config l) <= level ->
  Forall (fun field => value_wf (Value field)) fields ->
  exists l' tr2,
    log now level msg fields (l, tr) = Some (l', tr ++ tr2)
    /\ sink_writes tr2 = [record_of (config l) now level msg fields; [newline]].
Proof.
  intros Hle Hlevel Hwf.
  destruct (log_enabled now level msg fields l tr Hlevel Hwf) as (enc & Hbytes & ->).
  destruct (pool_Get_world l tr) as (b & l1 & tr1 & -> & Hc & _ & _ & Hw1 & _).
  cbn [fst snd]. rewrite write_unbuffered by (by rewrite Hc).
  cbn [mbind option_bind pool_Put].
  eexists _, (tr1 ++ [EvWrite (bytes enc); EvWrite [newline]; EvPoolPut (reslice0 b)]).
  split; [by rewrite <- !app_assoc|].
  by rewrite sink_writes_app, Hw1, Hbytes.
Qed.

(** X7. On an unbuffered logger, a call of [log] that passes the level check
    hands the record to the sink in one [Write] and the newline in a second
    one. It does not touch the mutex, so it returns even while the mutex is
    held, and it leaves the accumulation buffer alone. *)
Theorem log_unbuffered (now : Time) (level : Z) (msg : list byte)
    (fields : list Field) (l : Logger) (tr : list event) :
  BufferSize (config l) <= 0 -> Level (config l) <= level ->
  Forall (fun field => value_wf (Value field)) fields ->
  exists l' tr2,
    log now level msg fields (l, tr) = Some (l', tr ++ tr2)
    /\ sink_writes tr2 = [record_of (config l) now level msg fields; [newline]]
    /\ (EvLock ∉ tr2) /\ (EvUnlock ∉ tr2)
    /\ buffer l' = buffer l /\ mu l' = mu l /\ config l' = config l.
Proof.
  intros Hle Hlevel Hwf.
  destruct (log_enabled now level msg fields l tr Hlevel Hwf) as (enc & Hbytes & ->).
  destruct (pool_Get_world l tr)
    as (b & l1 & tr1 & -> & Hc & Hb & Hm & Hw1 & Hlock & Hunlock & _).
  cbn [fst snd]. rewrite write_unbuffered by (by rewrite Hc).
  cbn [mbind option_bind pool_Put].
  eexists _, (tr1 ++ [EvWrite (bytes enc); EvWrite [newline]; EvPoolPut (reslice0 b)]).
  split; [by rewrite <- !app_assoc|].
  split; [by rewrite sink_writes_app, Hw1, Hbytes|].
  split; [not_in_list; by apply Hlock, list_elem_of_In|].
  split; [not_in_list; by apply Hunlock, list_elem_of_In|].
  by cbn [set_pool buffer mu config].
Qed.


End Lines.

(** ** Runs of calls *)

Lemma lines_app (r1 r2 : list (list byte)) : lines (r1 ++ r2) = lines r1 ++ lines r2.
Proof. unfold lines. by rewrite map_app, concat_app. Qed.

Lemma lines_cons (r : list byte) (rs : list (list byte)) :
  lines (r :: rs) = r ++ [newline] ++ lines rs.
Proof. unfold lines. cbn [map concat]. by rewrite <- app_assoc. Qed.

Lemma lines_nil_inv (rs : list (list byte)) : lines rs = [] -> rs = [].
Proof.
  destruct rs as [|r rs]; [done|]. rewrite lines_cons.
  intros Heq. apply (f_equal length) in Heq. rewrite !length_app in Heq.
  cbn in Heq. lia.
Qed.

Lemma lines_cons_write (p : list byte) (pending : list (list byte)) :
  sink_writes (match lines (p :: pending) with
               | [] => []
               | _ => [EvWrite (lines (p :: pending))]
               end) = [lines (p :: pending)]
  /\ match lines (p :: pending) with
     | [] => []
     | _ => [lines (p :: pending)]
     end = [lines (p :: pending)].
Proof.
  destruct (lines (p :: pending)) eqn:Hl; [by apply lines_nil_inv in Hl|done].
Qed.

Section RunFacts.
Context `{GoImpl}.

Lemma run_call_log (m : method) (now : Time) (msg : list byte)
    (fields : list Field) (w : world) :
  run_call (CallLog m now msg fields) w = log now (method_level m) msg fields w.
Proof. by destruct m. Qed.

Lemma log_step (now : Time) (level : Z) (msg : list byte) (fields : list Field)
    (l : Logger) (tr : list event) :
  mu l = false -> Level (config l) <= level ->
  Forall (fun field => value_wf (Value field)) fields ->
  exists l' tr2,
    log now level msg fields (l, tr) = Some (l', tr ++ tr2)
    /\ config l' = config l /\ mu l' = false
    /\ pool l' = pool_after (pool l)
    /\ (Forall (fun b => b = make0 256) (pool l) -> Forall fresh_buffer_event tr2)
    /\ (0 < BufferSize (config l) ->
        bytes (buffer l')
        = kept (BufferSize (config l)) (bytes (buffer l))
            (record_of (config l) now level msg fields)
            ++ record_of (config l) now level msg fields ++ [newline]
        /\ sink_writes tr2
           = sink_writes (forced_flush (BufferSize (config l)) (bytes (buffer l))
                            (record_of (config l) now level msg fields)))
    /\ (BufferSize (config l) <= 0 ->
        buffer l' = buffer l
        /\ sink_writes tr2 = [record_of (config l) now level msg fields; [newline]]).
Proof.
  intros Hmu Hlevel Hwf.
  destruct (log_enabled now level msg fields l tr Hlevel Hwf) as (enc & Hbytes & ->).
  destruct (pool_Get_world l tr)
    as (b & l1 & tr1 & -> & Hc & Hb & Hm & Hw1 & _ & _ & Hpool).
  cbn [fst snd].
  assert (Hp : pool_after (pool l) = reslice0 b :: pool l1
               /\ (Forall (fun b => b = make0 256) (pool l) ->
                   b = make0 256 /\ Forall fresh_buffer_event tr1)).
  { destruct (pool l) as [|b' idle]; destruct Hpool as (-> & -> & ->).
    - split; [done|]. intros _. split; [done|]. by repeat constructor.
    - split; [done|]. intros Hall. inversion Hall; subst.
      split; [done|]. by repeat constructor. }
  destruct Hp as [Hp Hnews].
  destruct (Z.lt_ge_cases 0 (BufferSize (config l))) as [Hpos|Hle].
  - destruct (buffered_write_run l1 (tr ++ tr1) enc) as (l2 & -> & Hb2 & Hc2 & Hp2 & Hm2);
      [by rewrite Hc|by rewrite Hm|].
    cbn [mbind option_bind pool_Put].
    eexists _, (tr1 ++ [EvLock]
                  ++ forced_flush (BufferSize (config l1)) (bytes (buffer l1)) (bytes enc)
                  ++ [EvUnlock] ++ [EvPoolPut (reslice0 b)]).
    split; [by rewrite <- !app_assoc|].
    cbn [set_pool config mu pool buffer].
    split; [by rewrite Hc2|]. split; [done|]. split; [by rewrite Hp2, Hp|].
    split.
    { intros [-> Hfresh]%Hnews. apply Forall_app_2; [done|]. unfold forced_flush.
      destruct (_ <? _); [destruct (bytes (buffer l1))|]; by repeat constructor. }
    split; [|lia]. intros _. rewrite Hb2, Hc, Hb, Hbytes. split; [done|].
    rewrite !sink_writes_app, Hw1. cbn [sink_writes app]. by rewrite app_nil_r.
  - rewrite write_unbuffered by (rewrite Hc; lia).
    cbn [mbind option_bind pool_Put].
    eexists _, (tr1 ++ [EvWrite (bytes enc); EvWrite [newline]; EvPoolPut (reslice0 b)]).
    split; [by rewrite <- !app_assoc|].
    cbn [set_pool config mu pool buffer].
    split; [done|]. split; [by rewrite Hm|]. split; [by rewrite Hp|].
    split.
    { intros [-> Hfresh]%Hnews. apply Forall_app_2; [done|]. by repeat constructor. }
    split; [lia|]. intros _. split; [done|].
    by rewrite sink_writes_app, Hw1, Hbytes.
Qed.

Lemma Flush_step (l : Logger) (tr : list event) :
  mu l = false ->
  exists l' tr2,
    Flush (l, tr) = Some (l', tr ++ tr2)
    /\ config l' = config l /\ mu l' = false /\ pool l' = pool l
    /\ Forall fresh_buffer_event tr2
    /\ (0 < BufferSize (config l) ->
        bytes (buffer l') = []
        /\ sink_writes tr2
           = match bytes (buffer l) with [] => [] | _ => [bytes (buffer l)] end)
    /\ (BufferSize (config l) <= 0 -> buffer l' = buffer l /\ sink_writes tr2 = []).
Proof.
  intros Hmu. destruct (Z.lt_ge_cases 0 (BufferSize (config l))) as [Hpos|Hle].
  - destruct (bytes (buffer l)) as [|c acc] eqn:Hacc.
    + rewrite Flush_empty by done. exists l, [EvLock; EvUnlock].
      repeat split; try done; try lia. by repeat constructor.
    + rewrite Flush_nonempty by (done || by rewrite Hacc).
      eexists _, _. split; [done|]. cbn [set_buffer config mu pool buffer reslice0 bytes].
      rewrite Hacc. repeat split; try done; try lia. by repeat constructor.
  - rewrite (Flush_unbuffered (l, tr)) by (cbn; lia). exists l, [].
    rewrite app_nil_r. repeat split; try done; lia.
Qed.

(** The groups of records that a buffered logger hands to the sink: each
    [Write] is a group, and [pending] is what the buffer holds. *)
Lemma run_buffered (calls : list call) (l : Logger) (tr : list event)
    (pending : list (list byte)) :
  0 < BufferSize (config l) -> mu l = false ->
  bytes (buffer l) = lines pending ->
  (Z.of_nat (length (lines pending)) <= BufferSize (config l) + 1
   \/ length pending = 1%nat) ->
  Forall call_wf calls ->
  exists l' tr2 groups pending',
    run calls (l, tr) = Some (l', tr ++ tr2)
    /\ config l' = config l /\ mu l' = false
    /\ sink_writes tr2 = map lines groups
    /\ Forall (fun g => g <> []) groups
    /\ bytes (buffer l') = lines pending'
    /\ pending ++ records (config l) calls = concat groups ++ pending'
    /\ Forall (fun g => Z.of_nat (length (lines g)) <= BufferSize (config l) + 1
                        \/ length g = 1%nat) (groups ++ [pending']).
Proof.
  intros Hpos Hmu Hbuf Hbound Hwf. revert l tr pending Hpos Hmu Hbuf Hbound.
  induction Hwf as [|c calls Hc _ IH]; intros l tr pending Hpos Hmu Hbuf Hbound.
  - exists l, [], [], pending. cbn [run records map concat app].
    rewrite !app_nil_r. repeat split; try done. by constructor.
  - cbn [run]. destruct c as [m now msg fields|]; cbn [records].
    + rewrite run_call_log. set (level := method_level m) in *.
      destruct (Z.ltb_spec level (Level (config l))) as [Hlt|Hge].
      * unfold log. cbn [fst].
        destruct (Z.ltb_spec level (Level (config l))); [|lia].
        cbn [mbind option_bind]. by apply IH.
      * destruct (log_step now level msg fields l tr Hmu Hge Hc)
          as (l1 & tr1 & -> & Hc1 & Hm1 & _ & _ & Hbuffered & _).
        destruct (Hbuffered Hpos) as [Hb1 Hw1]. clear Hbuffered.
        cbn [mbind option_bind].
        set (r := record_of (config l) now level msg fields) in *.
        unfold kept, forced_flush in Hb1, Hw1. rewrite Hbuf in Hb1, Hw1.
        destruct (Z.ltb_spec (BufferSize (config l))
                    (Z.of_nat (length (lines pending)) + Z.of_nat (length r)))
          as [Hover|Hfits].
        -- (* the record does not fit: what is pending goes to the sink *)
           destruct (IH l1 (tr ++ tr1) [r]) as (l' & tr2 & groups & pending' & Hrun
                       & Hc' & Hm' & Hw' & Hne & Hb' & Hrec & Hbd);
             [by rewrite Hc1|done|by rewrite Hb1; unfold lines; cbn;
              rewrite app_nil_r|by right|].
           rewrite Hc1 in Hrec, Hbd.
           destruct pending as [|p pending].
           ++ exists l', (tr1 ++ tr2), groups, pending'.
              split; [by rewrite app_assoc|]. split; [by rewrite Hc', Hc1|].
              split; [done|].
              split; [by rewrite sink_writes_app, Hw1, Hw'|].
              split; [done|]. split; [done|]. split; [done|done].
           ++ exists l', (tr1 ++ tr2), ((p :: pending) :: groups), pending'.
              split; [by rewrite app_assoc|]. split; [by rewrite Hc', Hc1|].
              split; [done|].
              split.
              { rewrite sink_writes_app, Hw', Hw1.
                by rewrite (proj1 (lines_cons_write p pending)). }
              split; [by constructor|]. split; [done|].
              split; [by cbn [concat]; rewrite <- !app_assoc, <- Hrec|].
              cbn [app]. by constructor.
        -- (* the record fits *)
           destruct (IH l1 (tr ++ tr1) (pending ++ [r])) as (l' & tr2 & groups & pending'
                       & Hrun & Hc' & Hm' & Hw' & Hne & Hb' & Hrec & Hbd);
             [by rewrite Hc1|done
             |by rewrite Hb1, lines_app; unfold lines at 2; cbn; rewrite app_nil_r
             | |].
           { left. rewrite Hc1, lines_app, length_app. unfold lines at 2. cbn.
             rewrite app_nil_r, length_app. cbn. lia. }
           rewrite Hc1 in Hrec, Hbd.
           exists l', (tr1 ++ tr2), groups, pending'.
           split; [by rewrite app_assoc|]. split; [by rewrite Hc', Hc1|].
           split; [done|].
           split; [by rewrite sink_writes_app, Hw1, Hw'|].
           split; [done|]. split; [done|].
           split; [by rewrite <- Hrec, <- app_assoc|done].
    + cbn [run_call]. destruct (Flush_step l tr Hmu) as (l1 & tr1 & -> & Hc1 & Hm1 & _ & _ & Hbuffered & _).
      destruct (Hbuffered Hpos) as [Hb1 Hw1]. clear Hbuffered.
      cbn [mbind option_bind].
      destruct (IH l1 (tr ++ tr1) []) as (l' & tr2 & groups & pending' & Hrun
                  & Hc' & Hm' & Hw' & Hne & Hb' & Hrec & Hbd);
        [by rewrite Hc1|done|done|left; rewrite Hc1; cbn; lia|].
      rewrite Hc1 in Hrec, Hbd. rewrite Hbuf in Hw1.
      destruct pending as [|p pending].
      * exists l', (tr1 ++ tr2), groups, pending'.
        split; [by rewrite app_assoc|]. split; [by rewrite Hc', Hc1|].
        split; [done|]. split; [by rewrite sink_writes_app, Hw1, Hw'|].
        split; [done|]. split; [done|]. split; [done|done].
      * exists l', (tr1 ++ tr2), ((p :: pending) :: groups), pending'.
        split; [by rewrite app_assoc|]. split; [by rewrite Hc', Hc1|].
        split; [done|].
        split.
        { rewrite sink_writes_app, Hw', Hw1.
          by rewrite (proj2 (lines_cons_write p pending)). }
        split; [by constructor|]. split; [done|].
        split; [by cbn [concat]; rewrite <- !app_assoc, <- Hrec|].
        cbn [app]. by constructor.
Qed.

Lemma run_unbuffered (calls : list call) (l : Logger) (tr : list event) :
  BufferSize (config l) <= 0 -> mu l = false ->
  Forall call_wf calls ->
  exists l' tr2,
    run calls (l, tr) = Some (l', tr ++ tr2)
    /\ config l' = config l /\ mu l' = false /\ buffer l' = buffer l
    /\ sink_writes tr2
       = concat (map (fun r => [r; [newline]]) (records (config l) calls)).
Proof.
  intros Hle Hmu Hwf. revert l tr Hle Hmu.
  induction Hwf as [|c calls Hc _ IH]; intros l tr Hle Hmu.
  - exists l, []. by rewrite app_nil_r.
  - cbn [run]. destruct c as [m now msg fields|]; cbn [records].
    + rewrite run_call_log. set (level := method_level m) in *.
      destruct (Z.ltb_spec level (Level (config l))) as [Hlt|Hge].
      * unfold log. cbn [fst].
        destruct (Z.ltb_spec level (Level (config l))); [|lia].
        cbn [mbind option_bind]. by apply IH.
      * destruct (log_step now level msg fields l tr Hmu Hge Hc)
          as (l1 & tr1 & -> & Hc1 & Hm1 & _ & _ & _ & Hunbuffered).
        destruct (Hunbuffered Hle) as [Hb1 Hw1]. clear Hunbuffered.
        cbn [mbind option_bind].
        destruct (IH l1 (tr ++ tr1)) as (l' & tr2 & Hrun & Hc' & Hm' & Hb' & Hw');
          [by rewrite Hc1|done|].
        exists l', (tr1 ++ tr2). split; [by rewrite app_assoc|].
        split; [by rewrite Hc', Hc1|]. split; [done|].
        split; [by rewrite Hb', Hb1|].
        rewrite sink_writes_app, Hw1, Hw', Hc1. by cbn [map concat].
    + cbn [run_call]. destruct (Flush_step l tr Hmu) as (l1 & tr1 & -> & Hc1 & Hm1 & _ & _ & _ & Hunbuffered).
      destruct (Hunbuffered Hle) as [Hb1 Hw1]. clear Hunbuffered.
      cbn [mbind option_bind].
      destruct (IH l1 (tr ++ tr1)) as (l' & tr2 & Hrun & Hc' & Hm' & Hb' & Hw');
        [by rewrite Hc1|done|].
      exists l', (tr1 ++ tr2). split; [by rewrite app_assoc|].
      split; [by rewrite Hc', Hc1|]. split; [done|].
      split; [by rewrite Hb', Hb1|].
      by rewrite sink_writes_app, Hw1, Hw', Hc1.
Qed.

Lemma concat_pairs_lines (rs : list (list byte)) :
  concat (concat (map (fun r => [r; [newline]]) rs)) = lines rs.
Proof.
  induction rs as [|r rs IH]; [done|].
  cbn [map concat]. rewrite lines_cons, concat_app, IH. cbn [concat].
  by rewrite app_nil_r, <- app_assoc.
Qed.

Lemma concat_map_lines (groups : list (list (list byte))) :
  concat (map lines groups) = lines (concat groups).
Proof.
  induction groups as [|g groups IH]; [done|].
  cbn [map concat]. by rewrite lines_app, IH.
Qed.

End RunFacts.

Section NewFacts.
Context `{GoImpl} `{GoAlloc}.

Lemma New_Some (cfg : Config) (l : Logger) :
  New cfg = Some l ->
  0 <= BufferSize cfg /\ config l = cfg /\ bytes (buffer l) = []
  /\ pool l = [] /\ mu l = false.
Proof.
  unfold New. destruct (Z.ltb_spec (BufferSize cfg) 0); [done|].
  destruct (_ <? _); [done|]. cbn [orb]. by intros [= <-].
Qed.

Lemma run_stream (l : Logger) (calls : list call) :
  mu l = false -> bytes (buffer l) = [] -> Forall call_wf calls ->
  exists l' tr',
    run calls (l, []) = Some (l', tr')
    /\ concat (sink_writes tr') ++ bytes (buffer l') = lines (records (config l) calls)
    /\ exists l'' tr'',
         Flush (l', tr') = Some (l'', tr'')
         /\ concat (sink_writes tr'') = lines (records (config l) calls)
         /\ bytes (buffer l'') = [].
Proof.
  intros Hmu Hbuf Hwf.
  destruct (Z.lt_ge_cases 0 (BufferSize (config l))) as [Hpos|Hle].
  - destruct (run_buffered calls l [] [] Hpos Hmu Hbuf) as (l' & tr2 & groups & pending'
                & Hrun & Hc' & Hm' & Hw' & _ & Hb' & Hrec & _);
      [left; cbn; lia|done|].
    cbn [app] in Hrun, Hrec. exists l', tr2. split; [done|].
    assert (Hall : concat (sink_writes tr2) ++ bytes (buffer l')
                   = lines (records (config l) calls)).
    { by rewrite Hw', Hb', concat_map_lines, <- lines_app, <- Hrec. }
    split; [done|].
    destruct (Flush_step l' tr2 Hm') as (l2 & tr3 & -> & _ & _ & _ & _ & Hbuffered & _).
    destruct Hbuffered as [Hb2 Hw2]; [by rewrite Hc'|].
    exists l2, (tr2 ++ tr3). split; [done|]. split; [|done].
    rewrite sink_writes_app, concat_app, Hw2, <- Hall. f_equal.
    destruct (bytes (buffer l')); [done|]. cbn [concat]. by rewrite app_nil_r.
  - destruct (run_unbuffered calls l [] Hle Hmu Hwf)
      as (l' & tr2 & Hrun & Hc' & Hm' & Hb' & Hw').
    cbn [app] in Hrun. exists l', tr2. split; [done|].
    assert (Hall : concat (sink_writes tr2) = lines (records (config l) calls))
      by (by rewrite Hw', concat_pairs_lines).
    rewrite Hb', Hbuf, app_nil_r. split; [done|].
    exists l', tr2. rewrite (Flush_unbuffered (l', tr2)) by (cbn; by rewrite Hc').
    by rewrite Hb', Hbuf.
Qed.

(** X8. No byte is lost, repeated or moved: after any sequence of calls of
    [Debug], [Info], [Warn], [Error] and [Flush] on a logger made by [New],
    what the sink has received, followed by what the accumulation buffer
    holds, is the records of the calls that pass the level check, in the
    order of the calls, each followed by a newline. A [Flush] then brings
    all of it to the sink. *)
Theorem run_delivers_records (cfg : Config) (l : Logger) (calls : list call) :
  New cfg = Some l -> Forall call_wf calls ->
  exists l' tr',
    run calls (l, []) = Some (l', tr')
    /\ concat (sink_writes tr') ++ bytes (buffer l') = lines (records cfg calls)
    /\ exists l'' tr'',
         Flush (l', tr') = Some (l'', tr'')
         /\ concat (sink_writes tr'') = lines (records cfg calls)
         /\ bytes (buffer l'') = [].
Proof.
  intros (_ & <- & Hbuf & _ & Hmu)%New_Some Hwf. by apply run_stream.
Qed.

(** X9. A buffered logger hands whole records to the sink: after any sequence
    of calls of [Debug], [Info], [Warn], [Error] and [Flush] on a logger made
    by [New] with a positive [BufferSize], the payload of each [Write] is a
    group of one or more records, each followed by its newline; the groups
    and then the records in the accumulation buffer are the records of the
    calls in order; and a group, like the buffer, is at most [BufferSize]
    bytes and one more, or is a single record. *)
Theorem run_buffered_whole_records (cfg : Config) (l : Logger) (calls : list call) :
  New cfg = Some l -> 0 < BufferSize cfg -> Forall call_wf calls ->
  exists l' tr' groups pending,
    run calls (l, []) = Some (l', tr')
    /\ sink_writes tr' = map lines groups
    /\ Forall (fun g => g <> []) groups
    /\ bytes (buffer l') = lines pending
    /\ concat groups ++ pending = records cfg calls
    /\ Forall (fun g => Z.of_nat (length (lines g)) <= BufferSize cfg + 1
                        \/ length g = 1%nat) (groups ++ [pending]).
Proof.
  intros (_ & <- & Hbuf & _ & Hmu)%New_Some Hpos Hwf.
  destruct (run_buffered calls l [] [] Hpos Hmu Hbuf) as (l' & tr2 & groups & pending'
              & Hrun & _ & _ & Hw' & Hne & Hb' & Hrec & Hbd);
    [left; cbn; lia|done|].
  exists l', tr2, groups, pending'. by repeat split.
Qed.

End NewFacts.

(** ** The scratch-buffer pool over a run *)

Section PoolFacts.
Context `{GoImpl}.

Lemma pool_after_fresh (p : list slice) :
  Forall (fun b => b = make0 256) p -> Forall (fun b => b = make0 256) (pool_after p).
Proof. intros Hp. destruct Hp as [|b p -> Hp]; by repeat constructor. Qed.

Lemma run_pool (calls : list call) (l : Logger) (tr : list event) :
  mu l = false -> Forall call_wf calls ->
  Forall (fun b => b = make0 256) (pool l) ->
  exists l' tr2,
    run calls (l, tr) = Some (l', tr ++ tr2)
    /\ Forall (fun b => b = make0 256) (pool l')
    /\ Forall fresh_buffer_event tr2.
Proof.
  intros Hmu Hwf. revert l tr Hmu.
  induction Hwf as [|c calls Hc _ IH]; intros l tr Hmu Hpool.
  - exists l, []. by rewrite app_nil_r.
  - cbn [run]. destruct c as [m now msg fields|].
    + rewrite run_call_log. set (level := method_level m) in *.
      destruct (Z.ltb_spec level (Level (config l))) as [Hlt|Hge].
      * unfold log. cbn [fst].
        destruct (Z.ltb_spec level (Level (config l))); [|lia].
        cbn [mbind option_bind]. by apply IH.
      * destruct (log_step now level msg fields l tr Hmu Hge Hc)
          as (l1 & tr1 & -> & Hc1 & Hm1 & Hp1 & Hn1 & _).
        cbn [mbind option_bind].
        destruct (IH l1 (tr ++ tr1) Hm1) as (l' & tr2 & Hrun & Hp' & Hev);
          [rewrite Hp1; by apply pool_after_fresh|].
        exists l', (tr1 ++ tr2). split; [by rewrite app_assoc|].
        split; [done|]. apply Forall_app_2; [by apply Hn1|done].
    + cbn [run_call].
      destruct (Flush_step l tr Hmu) as (l1 & tr1 & -> & Hc1 & Hm1 & Hp1 & Hn1 & _).
      cbn [mbind option_bind].
      destruct (IH l1 (tr ++ tr1) Hm1) as (l' & tr2 & Hrun & Hp' & Hev);
        [by rewrite Hp1|].
      exists l', (tr1 ++ tr2). split; [by rewrite app_assoc|].
      split; [done|]. by apply Forall_app_2.
Qed.

End PoolFacts.

Section PoolExtra.
Context `{GoImpl} `{GoAlloc}.

(** X10. The scratch buffers of the pool never grow: after any sequence of
    calls on a logger made by [New], however long the records have been,
    every buffer the pool has made, handed out or taken back, and every
    buffer it holds, is empty and has the capacity of 256 it was made
    with. *)
Theorem run_pool_buffers (cfg : Config) (l : Logger) (calls : list call) :
  New cfg = Some l -> Forall call_wf calls ->
  exists l' tr',
    run calls (l, []) = Some (l', tr')
    /\ Forall (fun b => b = make0 256) (pool l')
    /\ Forall fresh_buffer_event tr'.
Proof.
  intros (_ & <- & _ & Hpool & Hmu)%New_Some Hwf.
  destruct (run_pool calls l [] Hmu Hwf) as (l' & tr2 & Hrun & Hp & Hev);
    [by rewrite Hpool|].
  by exists l', tr2.
Qed.

End PoolExtra.

(** ** [Fatal] and [Panic] *)

Section Endings.
Context `{GoImpl}.

(** X11. [Fatal] ends in [os.Exit(1)] and [Panic] in a panic with the
    message, whether the record passes the level check or not: below the
    level they leave the logger and the sink alone and end all the same. On a
    buffered logger the record of the call is in the accumulation buffer when
    the call ends: the one [Write] the call may make hands over what was
    accumulated before, and nothing flushes the buffer. *)
Theorem Fatal_Panic_end (now : Time) (msg : list byte) (fields : list Field)
    (l : Logger) (tr : list event) :
  mu l = false -> Forall (fun field => value_wf (Value field)) fields ->
  (exists l' tr2,
      Fatal now msg fields (l, tr) = Some ((l', tr ++ tr2), OsExit 1)
      /\ (FatalLevel < Level (config l) -> l' = l /\ tr2 = [])
      /\ (Level (config l) <= FatalLevel -> 0 < BufferSize (config l) ->
          bytes (buffer l')
          = kept (BufferSize (config l)) (bytes (buffer l))
              (record_of (config l) now FatalLevel msg fields)
              ++ record_of (config l) now FatalLevel msg fields ++ [newline]
          /\ sink_writes tr2
             = sink_writes (forced_flush (BufferSize (config l)) (bytes (buffer l))
                              (record_of (config l) now FatalLevel msg fields))))
  /\ (exists l' tr2,
         Panic now msg fields (l, tr) = Some ((l', tr ++ tr2), GoPanic msg)
         /\ (PanicLevel < Level (config l) -> l' = l /\ tr2 = [])
         /\ (Level (config l) <= PanicLevel -> 0 < BufferSize (config l) ->
             bytes (buffer l')
             = kept (BufferSize (config l)) (bytes (buffer l))
                 (record_of (config l) now PanicLevel msg fields)
                 ++ record_of (config l) now PanicLevel msg fields ++ [newline]
             /\ sink_writes tr2
                = sink_writes (forced_flush (BufferSize (config l)) (bytes (buffer l))
                                 (record_of (config l) now PanicLevel msg fields)))).
Proof.
  intros Hmu Hwf.
  assert (Hlog : forall level,
             exists l' tr2,
               log now level msg fields (l, tr) = Some (l', tr ++ tr2)
               /\ (level < Level (config l) -> l' = l /\ tr2 = [])
               /\ (Level (config l) <= level -> 0 < BufferSize (config l) ->
                   bytes (buffer l')
                   = kept (BufferSize (config l)) (bytes (buffer l))
                       (record_of (config l) now level msg fields)
                       ++ record_of (config l) now level msg fields ++ [newline]
                   /\ sink_writes tr2
                      = sink_writes (forced_flush (BufferSize (config l))
                                       (bytes (buffer l))
                                       (record_of (config l) now level msg fields)))).
  { intros level. destruct (Z.lt_ge_cases level (Level (config l))) as [Hlt|Hge].
    - exists l, []. rewrite app_nil_r. split; [|split; [done|lia]].
      unfold log. cbn [fst]. by destruct (Z.ltb_spec level (Level (config l))); [|lia].
    - destruct (log_step now level msg fields l tr Hmu Hge Hwf)
        as (l' & tr2 & Hrun & _ & _ & _ & _ & Hbuffered & _).
      exists l', tr2. split; [done|]. split; [lia|]. intros _. apply Hbuffered. }
  split.
  - destruct (Hlog FatalLevel) as (l' & tr2 & Hrun & Hrest).
    exists l', tr2. unfold Fatal. by rewrite Hrun.
  - destruct (Hlog PanicLevel) as (l' & tr2 & Hrun & Hrest).
    exists l', tr2. unfold Panic. by rewrite Hrun.
Qed.

End Endings.

(** ** The context logger *)

Lemma extractContextFields_static (ctx : Context) (fields : list Field) :
  extractContextFields (WithStaticContext (Some ctx)) fields
  = Some (context_fields ctx ++ fields).
Proof.
  unfold extractContextFields, WithStaticContext, context_fields.
  cbn [ctxFunc mbind option_bind].
  by destruct (Context_Value ctx (bs "traceID")), (Context_Value ctx (bs "spanID")).
Qed.

Lemma extractContextFields_dynamic (f : unit -> option Context)
    (fields : list Field) :
  extractContextFields (WithContext (Some f)) fields
  = extractContextFields (WithStaticContext (f tt)) fields.
Proof. done. Qed.

Section ContextFacts.
Context `{GoImpl}.

(** X12. The methods of a context logger read the context before [log] looks
    at the level. With a nil context function they do what the methods of
    the logger do. With a function that returns a nil context they panic,
    even at a level the logger discards. With a context, a call below the
    level changes nothing, and a call at or above it logs the fields of the
    context, the trace identifier before the span identifier, in front of the
    fields of the call. *)
Theorem ContextLogger_log_context (now : Time) (level : Z) (msg : list byte)
    (fields : list Field) (w : world) :
  ContextLogger_log (WithContext None) now level msg fields w
  = log now level msg fields w
  /\ (forall f, f tt = None ->
      ContextLogger_log (WithContext (Some f)) now level msg fields w = None)
  /\ ContextLogger_log (WithStaticContext None) now level msg fields w = None
  /\ (forall f ctx, f tt = Some ctx ->
      ContextLogger_log (WithContext (Some f)) now level msg fields w
      = log now level msg (context_fields ctx ++ fields) w
      /\ ContextLogger_log (WithStaticContext (Some ctx)) now level msg fields w
         = log now level msg (context_fields ctx ++ fields) w
      /\ (level < Level (config w.1) ->
          ContextLogger_log (WithContext (Some f)) now level msg fields w = Some w)).
Proof.
  split; [done|]. split.
  { intros f Hf. unfold ContextLogger_log, extractContextFields, WithContext.
    cbn [ctxFunc]. by rewrite Hf. }
  split; [done|]. intros f ctx Hf.
  assert (Hdyn : ContextLogger_log (WithContext (Some f)) now level msg fields w
                 = log now level msg (context_fields ctx ++ fields) w).
  { unfold ContextLogger_log.
    by rewrite extractContextFields_dynamic, Hf, extractContextFields_static. }
  split; [done|]. split.
  - unfold ContextLogger_log. by rewrite extractContextFields_static.
  - intros Hlt. rewrite Hdyn. unfold log.
    by destruct (Z.ltb_spec level (Level (config w.1))); [|lia].
Qed.


End ContextFacts.

(** ** The configuration from the environment *)

Lemma Z_of_byte_digit (r : Z) : 0 <= r < 10 -> Z_of_byte (digit r) = 48 + r.
Proof.
  intros Hr.
  destruct (Z_lt10_cases r Hr) as [->|[->|[->|[->|[->|[->|[->|[->|[->| ->]]]]]]]]];
    reflexivity.
Qed.

Lemma Atoi_digits_app (s t : list byte) (n : Z) :
  Atoi_digits (s ++ t) n = (m ← Atoi_digits s n; Atoi_digits t m).
Proof.
  revert n; induction s as [|c s IH]; intros n; [done|].
  cbn [app Atoi_digits]. by destruct (_ && _).
Qed.

Lemma Atoi_digits_digit (r n : Z) :
  0 <= r < 10 -> Atoi_digits [digit r] n = Some (n * 10 + r).
Proof.
  intros Hr. cbn [Atoi_digits]. rewrite Z_of_byte_digit by done.
  destruct (Z.leb_spec 48 (48 + r)); [|lia].
  destruct (Z.leb_spec (48 + r) 57); [|lia].
  cbn [andb]. f_equal. lia.
Qed.

Lemma Atoi_digits_digits (n : Z) : 0 <= n -> Atoi_digits (digits n) 0 = Some n.
Proof.
  revert n. apply Zlt_0_ind. intros n IH Hn.
  destruct (Z.lt_ge_cases n 10) as [Hsmall|Hbig].
  - rewrite digits_lt10 by lia. by rewrite Atoi_digits_digit by lia.
  - pose proof (Z.div_mod n 10 ltac:(lia)) as Hdm.
    pose proof (Z.mod_pos_bound n 10 ltac:(lia)) as Hm.
    assert (Hq : 0 < n / 10) by (apply Z.div_str_pos; lia).
    assert (Hstep : digits n = digits (n / 10) ++ [digit (n mod 10)]).
    { rewrite Hdm at 1. apply digits_step; lia. }
    rewrite Hstep, Atoi_digits_app, IH by lia. cbn [mbind option_bind].
    rewrite Atoi_digits_digit by done. f_equal. lia.
Qed.

(** [strconv.Atoi] reads the standard decimal text of an [int64] back. *)
Lemma Atoi_formatInt (n : Z) : int64 n -> Atoi (formatInt n) = Some n.
Proof.
  unfold int64, minInt64, maxInt64. intros Hn.
  rewrite formatInt_sign_digits.
  assert (Habs : 0 <= Z.abs n) by lia.
  destruct (digits_shape (Z.abs n) Habs) as (d & ds & Hd & Hall & _).
  pose proof (Atoi_digits_digits (Z.abs n) Habs) as Hread. rewrite Hd in Hread.
  destruct (Z.ltb_spec n 0) as [Hneg|Hpos].
  - cbn [bs list_ascii_of_string app Atoi]. rewrite Hd.
    cbn [Ascii.eqb Bool.eqb orb andb]. rewrite Hread. cbn [mbind option_bind].
    destruct (Z.ltb_spec (2 ^ 63) (Z.abs n)); [lia|]. f_equal. lia.
  - cbn [app]. rewrite Hd. unfold Atoi.
    assert (Hdig : is_digit d = true) by (by inversion Hall).
    destruct (Ascii.eqb_spec d "-") as [->|_]; [by vm_compute in Hdig|].
    destruct (Ascii.eqb_spec d "+") as [->|_]; [by vm_compute in Hdig|].
    cbn [orb]. rewrite Hread. cbn [mbind option_bind].
    destruct (Z.leb_spec (2 ^ 63) (Z.abs n)); [lia|]. f_equal. lia.
Qed.

Lemma Atoi_digits_Some (s : list byte) (n m : Z) :
  Atoi_digits s n = Some m -> Forall (fun c => is_digit c = true) s.
Proof.
  revert n; induction s as [|c s IH]; intros n; [constructor|].
  cbn [Atoi_digits]. destruct (_ && _) eqn:Hc; [|done].
  intros Hs. constructor; [done|by eapply IH].
Qed.

(** A byte that is neither a digit nor a sign makes [strconv.Atoi] fail. *)
Lemma Atoi_not_number (s : list byte) (c : byte) :
  c ∈ s -> is_digit c = false -> c <> "-"%char -> c <> "+"%char ->
  Atoi s = None.
Proof.
  intros Hin Hc Hminus Hplus. destruct (Atoi s) as [n|] eqn:Hs; [|done].
  exfalso. unfold Atoi in Hs. destruct s as [|c0 r]; [done|].
  set (t := if Ascii.eqb c0 "-" || Ascii.eqb c0 "+" then r else c0 :: r) in Hs.
  assert (Hsub : c ∈ t).
  { subst t. destruct (Ascii.eqb_spec c0 "-") as [->|_];
      [|destruct (Ascii.eqb_spec c0 "+") as [->|_]]; cbn [orb]; [| |done];
      by apply elem_of_cons in Hin as [->|Hin]. }
  destruct t as [|t0 t']; [done|].
  destruct (Atoi_digits (t0 :: t') 0) as [un|] eqn:Hun; [|done].
  apply Atoi_digits_Some in Hun. rewrite Forall_forall in Hun.
  apply Hun in Hsub. congruence.
Qed.

Lemma string_eqb_eq (s t : list byte) : string_eqb s t = true <-> s = t.
Proof.
  revert t; induction s as [|c s IH]; intros [|d t]; cbn [string_eqb]; try done.
  rewrite andb_true_iff, IH. destruct (Ascii.eqb_spec c d); split.
  - by intros [_ ->]; subst.
  - by intros [= _ ->].
  - by intros [? _].
  - by intros [= ? _].
Qed.

Lemma is_ascii_forallb (s : list byte) :
  is_ascii s -> forallb (fun c => Z_of_byte c <? 0x80) s = true.
Proof.
  intros Hs. apply forallb_forall. intros c Hin%list_elem_of_In.
  unfold is_ascii in Hs. rewrite Forall_forall in Hs. apply Z.ltb_lt. by apply Hs.
Qed.

Section EnvFacts.
Variable Getenv : list byte -> list byte.
Variable Map_unicode_ToLower : list byte -> list byte.

Lemma strings_ToLower_ascii (s : list byte) :
  is_ascii s -> strings_ToLower Map_unicode_ToLower s = map lower_byte s.
Proof. intros Hs. unfold strings_ToLower. by rewrite is_ascii_forallb. Qed.

(** X14. [fromEnvLogLevel] reads back the names [Level.String] gives: with
    [LOG_LEVEL] set to the name of one of the six levels, in the capitals of
    [Level.String], it returns that level. With the variable not set, or set
    to [UNKNOWN], the name of every other level, it returns [DebugLevel]. On
    values in ASCII the case of the letters does not count. *)
Theorem fromEnvLogLevel_reads_Level_String :
  (forall level,
      Getenv EnvLogLevel = Level_String level ->
      fromEnvLogLevel Getenv Map_unicode_ToLower
      = if (DebugLevel <=? level) && (level <=? PanicLevel) then level
        else DebugLevel)
  /\ (Getenv EnvLogLevel = [] ->
      fromEnvLogLevel Getenv Map_unicode_ToLower = DebugLevel)
  /\ (forall Getenv' : list byte -> list byte,
      is_ascii (Getenv EnvLogLevel) -> is_ascii (Getenv' EnvLogLevel) ->
      map lower_byte (Getenv EnvLogLevel) = map lower_byte (Getenv' EnvLogLevel) ->
      fromEnvLogLevel Getenv Map_unicode_ToLower
      = fromEnvLogLevel Getenv' Map_unicode_ToLower).
Proof.
  split; [|split].
  - intros level Hget. unfold fromEnvLogLevel. rewrite Hget. unfold Level_String.
    destruct (Z.eqb_spec level DebugLevel) as [->|?]; [done|].
    destruct (Z.eqb_spec level InfoLevel) as [->|?]; [done|].
    destruct (Z.eqb_spec level WarnLevel) as [->|?]; [done|].
    destruct (Z.eqb_spec level ErrorLevel) as [->|?]; [done|].
    destruct (Z.eqb_spec level FatalLevel) as [->|?]; [done|].
    destruct (Z.eqb_spec level PanicLevel) as [->|?]; [done|].
    unfold DebugLevel, InfoLevel, WarnLevel, ErrorLevel, FatalLevel, PanicLevel in *.
    destruct (Z.leb_spec (-1) level), (Z.leb_spec level 4); cbn [andb]; try done.
    lia.
  - intros Hget. unfold fromEnvLogLevel. by rewrite Hget.
  - intros Getenv' Ha Ha' Heq. unfold fromEnvLogLevel.
    by rewrite !strings_ToLower_ascii, Heq by done.
Qed.

(** X15. [fromEnvBufferSize] reads the standard decimal text of an [int]
    back, a negative one too, and so the text [appendInt] appends for an
    integer other than the smallest. With [LOG_BUFFER_SIZE] not set, or set
    to a value that holds a byte other than a digit and a sign, it returns
    zero. *)
Theorem fromEnvBufferSize_reads_decimal `{GoImpl} :
  (forall n, int64 n ->
      Getenv EnvLogBufferSize = formatInt n -> fromEnvBufferSize Getenv = n)
  /\ (forall n buf, int64 n -> n <> minInt64 ->
      appendInt (make0 0) n = Some buf ->
      Getenv EnvLogBufferSize = bytes buf -> fromEnvBufferSize Getenv = n)
  /\ (Getenv EnvLogBufferSize = [] -> fromEnvBufferSize Getenv = 0)
  /\ (forall c, c ∈ Getenv EnvLogBufferSize ->
      is_digit c = false -> c <> "-"%char -> c <> "+"%char ->
      fromEnvBufferSize Getenv = 0).
Proof.
  split; [|split; [|split]].
  - intros n Hn Hget. unfold fromEnvBufferSize. by rewrite Hget, Atoi_formatInt.
  - intros n buf Hn Hmin Hbuf Hget. unfold fromEnvBufferSize.
    pose proof (appendInt_decimal (make0 0) n Hn Hmin) as Hdec.
    rewrite Hbuf in Hdec. cbn in Hdec. injection Hdec as Hdec.
    by rewrite Hget, Hdec, Atoi_formatInt.
  - intros Hget. unfold fromEnvBufferSize. by rewrite Hget.
  - intros c Hin Hc Hminus Hplus. unfold fromEnvBufferSize.
    by rewrite (Atoi_not_number _ c).
Qed.


(** X17. With none of the four variables set, [ConfigFromEnv] gives the
    level [DebugLevel], the text format, no buffering and [UseUTC] off, and
    [New] makes of it a logger that writes the text record of a call at any
    level from [DebugLevel] on, and its newline, to the sink at once. *)
Theorem ConfigFromEnv_unset `{GoImpl} `{GoAlloc} :
  Getenv EnvLogLevel = [] -> Getenv EnvLogFormat = [] ->
  Getenv EnvLogBufferSize = [] -> Getenv EnvLogUseUTC = [] ->
  ConfigFromEnv Getenv Map_unicode_ToLower
  = mkConfig DebugLevel TextFormat 0 false
  /\ exists l,
       New (ConfigFromEnv Getenv Map_unicode_ToLower) = Some l
       /\ forall now level msg fields tr,
            DebugLevel <= level ->
            Forall (fun field => value_wf (Value field)) fields ->
            exists l' tr2,
              log now level msg fields (l, tr) = Some (l', tr ++ tr2)
              /\ sink_writes tr2 = [record_text now level msg fields; [newline]].
Proof.
  intros Hlevel Hformat Hsize Hutc.
  assert (Hcfg : ConfigFromEnv Getenv Map_unicode_ToLower
                 = mkConfig DebugLevel TextFormat 0 false).
  { unfold ConfigFromEnv, fromEnvLogLevel, fromEnvLogFormat, fromEnvBufferSize,
      fromEnvUseUTC. by rewrite Hlevel, Hformat, Hsize, Hutc. }
  split; [done|]. rewrite Hcfg.
  pose proof maxAlloc_pos as Hmax.
  eexists. split.
  { unfold New. cbn [BufferSize]. by destruct (Z.ltb_spec maxAlloc 0); [lia|]. }
  intros now level msg fields tr Hge Hwf.
  destruct (log_step now level msg fields
              (mkLogger (mkConfig DebugLevel TextFormat 0 false)
                 (make0 (Z.to_nat 0)) [] false) tr eq_refl Hge Hwf)
    as (l' & tr2 & Hlog & _ & _ & _ & _ & _ & Hunbuffered).
  exists l', tr2. split; [done|]. by destruct Hunbuffered as [_ ->].
Qed.

End EnvFacts.

(** ** Buffering and lines *)

Lemma split_lines_line (r : list byte) (s : list byte) (ls : list (list byte))
    (rest : list byte) :
  newline ∉ r -> split_lines s = (ls, rest) ->
  split_lines (r ++ newline :: s) = (r :: ls, rest).
Proof.
  intros Hr Hs. induction r as [|c r IH].
  - cbn [app split_lines]. rewrite Hs. by rewrite Ascii.eqb_refl.
  - apply not_elem_of_cons in Hr as [Hc Hr]. cbn [app split_lines].
    rewrite (IH Hr). by destruct (Ascii.eqb_spec c newline).
Qed.

Lemma split_lines_lines (rs : list (list byte)) :
  Forall (fun r => newline ∉ r) rs -> split_lines (lines rs) = (rs, []).
Proof.
  induction 1 as [|r rs Hr _ IH]; [done|].
  rewrite lines_cons. cbn [app]. by apply split_lines_line.
Qed.

Section BufferFacts.
Context `{GoImpl}.

Lemma run_fits (calls : list call) (l : Logger) (tr : list event) :
  0 < BufferSize (config l) -> mu l = false ->
  Forall call_wf calls -> Forall (fun c => c <> CallFlush) calls ->
  Z.of_nat (length (bytes (buffer l)))
    + Z.of_nat (length (lines (records (config l) calls)))
  <= BufferSize (config l) + 1 ->
  exists l' tr2,
    run calls (l, tr) = Some (l', tr ++ tr2)
    /\ sink_writes tr2 = []
    /\ bytes (buffer l') = bytes (buffer l) ++ lines (records (config l) calls).
Proof.
  intros Hpos Hmu Hwf. revert l tr Hpos Hmu.
  induction Hwf as [|c calls Hc _ IH]; intros l tr Hpos Hmu Hnf Hfit.
  - exists l, []. by rewrite !app_nil_r.
  - inversion Hnf as [|? ? Hc' Hnf']; subst. cbn [run].
    destruct c as [m now msg fields|]; [|done]. cbn [records] in *.
    rewrite run_call_log. set (level := method_level m) in *.
    destruct (Z.ltb_spec level (Level (config l))) as [Hlt|Hge].
    + unfold log. cbn [fst].
      destruct (Z.ltb_spec level (Level (config l))); [|lia].
      cbn [mbind option_bind]. by apply IH.
    + destruct (log_step now level msg fields l tr Hmu Hge Hc)
        as (l1 & tr1 & -> & Hc1 & Hm1 & _ & _ & Hbuffered & _).
      destruct (Hbuffered Hpos) as [Hb1 Hw1]. clear Hbuffered.
      cbn [mbind option_bind].
      set (r := record_of (config l) now level msg fields) in *.
      rewrite lines_cons, !length_app in Hfit. cbn [length] in Hfit.
      unfold kept, forced_flush in Hb1, Hw1.
      destruct (Z.ltb_spec (BufferSize (config l))
                  (Z.of_nat (length (bytes (buffer l))) + Z.of_nat (length r)));
        [lia|].
      destruct (IH l1 (tr ++ tr1)) as (l' & tr2 & Hrun & Hw' & Hb');
        [by rewrite Hc1|done|done| |].
      { rewrite Hc1, Hb1, !length_app. cbn [length]. lia. }
      exists l', (tr1 ++ tr2). split; [by rewrite app_assoc|].
      split; [by rewrite sink_writes_app, Hw1, Hw'|].
      rewrite Hb', Hb1, Hc1, lines_cons. by rewrite <- !app_assoc.
Qed.

Lemma records_json_no_newline (cfg : Config) (calls : list call) :
  Format cfg = JSONFormat ->
  Forall (fun r => newline ∉ r) (records cfg calls).
Proof.
  intros Hfmt. induction calls as [|c calls IH]; [constructor|].
  destruct c as [m now msg fields|]; cbn [records]; [|done].
  destruct (method_level m <? Level cfg); [done|]. constructor; [|done].
  unfold record_of. rewrite Hfmt. cbn [Z.eqb JSONFormat Pos.eqb].
  apply inline_not_elem, record_json_inline.
Qed.

End BufferFacts.

Section BufferExtra.
Context `{GoImpl} `{GoAlloc}.

(** X18. A buffered logger made by [New] writes nothing while the records fit:
    after a sequence of calls of [Debug], [Info], [Warn] and [Error] whose
    records, each with its newline, come to at most [BufferSize] bytes and
    one more, the sink has received nothing and the accumulation buffer
    holds all the records. *)
Theorem run_buffered_fits (cfg : Config) (l : Logger) (calls : list call) :
  New cfg = Some l -> 0 < BufferSize cfg ->
  Forall call_wf calls -> Forall (fun c => c <> CallFlush) calls ->
  Z.of_nat (length (lines (records cfg calls))) <= BufferSize cfg + 1 ->
  exists l' tr',
    run calls (l, []) = Some (l', tr')
    /\ sink_writes tr' = []
    /\ bytes (buffer l') = lines (records cfg calls).
Proof.
  intros (_ & <- & Hbuf & _ & Hmu)%New_Some Hpos Hwf Hnf Hfit.
  destruct (run_fits calls l [] Hpos Hmu Hwf Hnf) as (l' & tr2 & Hrun & Hw & Hb).
  { rewrite Hbuf. cbn [length]. lia. }
  exists l', tr2. split; [done|]. split; [done|]. by rewrite Hb, Hbuf.
Qed.

(** X19. In JSON mode the bytes of the sink split at the newlines into the
    records: after any sequence of calls of [Debug], [Info], [Warn], [Error]
    and [Flush] on a logger made by [New], buffered or not, and a last
    [Flush], a reader that cuts what the sink has received at each newline
    gets the records of the calls that pass the level check, in order, and
    nothing is left over. *)
Theorem run_json_lines (cfg : Config) (l : Logger) (calls : list call) :
  New cfg = Some l -> Format cfg = JSONFormat -> Forall call_wf calls ->
  exists l' tr' l'' tr'',
    run calls (l, []) = Some (l', tr')
    /\ Flush (l', tr') = Some (l'', tr'')
    /\ split_lines (concat (sink_writes tr'')) = (records cfg calls, []).
Proof.
  intros (_ & <- & Hbuf & _ & Hmu)%New_Some Hfmt Hwf.
  destruct (run_stream l calls Hmu Hbuf Hwf)
    as (l' & tr' & Hrun & _ & l'' & tr'' & Hflush & Hall & _).
  exists l', tr', l'', tr''. split; [done|]. split; [done|].
  rewrite Hall. by apply split_lines_lines, records_json_no_newline.
Qed.

End BufferExtra.

(** ** The sign of a float *)

Lemma float_opp_positive (f : float) :
  PrimFloat.ltb 0 f = true ->
  PrimFloat.eqb f 0 = false /\ PrimFloat.ltb f 0 = false
  /\ PrimFloat.eqb (PrimFloat.opp f) 0 = false
  /\ PrimFloat.ltb (PrimFloat.opp f) 0 = true
  /\ PrimFloat.opp (PrimFloat.opp f) = f.
Proof.
  intros Hpos.
  assert (Hopp : PrimFloat.opp (PrimFloat.opp f) = f).
  { apply Prim2SF_inj. rewrite !FloatAxioms.opp_spec. by destruct (Prim2SF f) as [[]|[]| |[] ? ?]. }
  rewrite FloatAxioms.ltb_spec in Hpos. rewrite !FloatAxioms.eqb_spec, !FloatAxioms.ltb_spec, FloatAxioms.opp_spec.
  change (Prim2SF 0) with (S754_zero false) in *.
  destruct (Prim2SF f) as [[]|[]| |[] m e]; cbn in Hpos |- *; try done.
Qed.

Section FloatExtra.
Context `{GoImpl}.

Lemma float_text_opp (f : float) :
  PrimFloat.ltb 0 f = true ->
  float_text (PrimFloat.opp f) = bs "-" ++ float_text f.
Proof.
  intros (Hz & Hn & Hoz & Hon & Hopp)%float_opp_positive.
  unfold float_text. by rewrite Hz, Hn, Hoz, Hon, Hopp.
Qed.

(** X20. The float encoder renders a negative float by its magnitude: for
    every float above zero, what [appendJSONFloat] appends for the negated
    float is a minus sign followed by what it appends for the float
    itself. *)
Theorem appendJSONFloat_negated (buf : slice) (f : float) :
  PrimFloat.ltb 0 f = true ->
  exists pos neg text,
    appendJSONFloat buf f = Some pos
    /\ bytes pos = bytes buf ++ text
    /\ appendJSONFloat buf (PrimFloat.opp f) = Some neg
    /\ bytes neg = bytes buf ++ bs "-" ++ text.
Proof.
  intros Hpos.
  destruct (appendJSONFloat_Some buf f) as (pos & Hp & Hbp).
  destruct (appendJSONFloat_Some buf (PrimFloat.opp f)) as (neg & Hn & Hbn).
  exists pos, neg, (float_text f). split; [done|]. split; [done|]. split; [done|].
  by rewrite Hbn, float_text_opp.
Qed.

End FloatExtra.

(** The float 1.5. *)
Lemma appendJSONFloat_negated_witness :
  exists pos neg text,
    appendJSONFloat (make0 256) 1.5 = Some pos
    /\ bytes pos = bytes (make0 256) ++ text
    /\ appendJSONFloat (make0 256) (PrimFloat.opp 1.5) = Some neg
    /\ bytes neg = bytes (make0 256) ++ bs "-" ++ text.
Proof.
  apply (appendJSONFloat_negated (make0 256) 1.5). reflexivity.
Defined.

(** ** Concrete runs of the further properties *)

(** The integer -42. *)
Lemma appendInt_standard_decimal_witness :
  exists buf',
    appendInt (make0 256) (-42) = Some buf'
    /\ bytes buf' = bytes (make0 256) ++ formatInt (-42)
    /\ (1 <= length (formatInt (-42)) <= 20)%nat.
Proof.
  apply (appendInt_standard_decimal (make0 256) (-42)); [by vm_compute|discriminate].
Defined.

(** A message of two lines. *)
Lemma appendJSON_one_line_witness :
  exists enc rec,
    appendJSON (exampleLogger JSONFormat 0) exampleTime (make0 256) InfoLevel
      (bs "a" ++ [newline] ++ bs "b") exampleFields = Some enc
    /\ bytes enc = bytes (make0 256) ++ rec
    /\ (newline ∉ rec) /\ (carriage_return ∉ rec).
Proof.
  apply (appendJSON_one_line (exampleLogger JSONFormat 0) exampleTime (make0 256)
           InfoLevel (bs "a" ++ [newline] ++ bs "b") exampleFields).
  repeat constructor; discriminate.
Defined.


(** The message [started] and the field [userID=12345]. *)
Lemma appendText_message_verbatim_witness :
  bytes <$> appendText (exampleLogger TextFormat 0) exampleTime (make0 256) InfoLevel
              (bs "started" ++ bs " " ++ bs "userID" ++ bs "=" ++ value_text (VInt 12345))
              []
  = bytes <$> appendText (exampleLogger TextFormat 0) exampleTime (make0 256) InfoLevel
                (bs "started") [mkField (bs "userID") (VInt 12345)].
Proof.
  apply (appendText_message_verbatim (exampleLogger TextFormat 0) exampleTime
           (make0 256) InfoLevel (bs "started") (bs "userID") (VInt 12345)).
  by vm_compute.
Defined.

(** An unbuffered logger in text mode whose mutex is held. *)
Lemma log_unbuffered_witness :
  exists l' tr2,
    log exampleTime WarnLevel (bs "late") exampleFields
      (set_mu true (exampleLogger TextFormat 0), [])
    = Some (l', [] ++ tr2)
    /\ sink_writes tr2
       = [record_text exampleTime WarnLevel (bs "late") exampleFields; [newline]]
    /\ (EvLock ∉ tr2) /\ (EvUnlock ∉ tr2)
    /\ buffer l' = make0 0 /\ mu l' = true.
Proof.
  destruct (log_unbuffered exampleTime WarnLevel (bs "late") exampleFields
              (set_mu true (exampleLogger TextFormat 0)) [])
    as (l' & tr2 & Hlog & Hw & Hlock & Hunlock & Hb & Hm & _).
  - by vm_compute.
  - by vm_compute.
  - repeat constructor; discriminate.
  - exists l', tr2. by repeat split.
Defined.

(** Five calls, one of them below the level and one of [Flush], on a logger
    with a buffer of 64 bytes. *)
Lemma run_delivers_records_witness :
  exists l' tr',
    run exampleCalls (exampleLogger JSONFormat 64, []) = Some (l', tr')
    /\ concat (sink_writes tr') ++ bytes (buffer l')
       = lines (records (mkConfig InfoLevel JSONFormat 64 false) exampleCalls)
    /\ exists l'' tr'',
         Flush (l', tr') = Some (l'', tr'')
         /\ concat (sink_writes tr'')
            = lines (records (mkConfig InfoLevel JSONFormat 64 false) exampleCalls)
         /\ bytes (buffer l'') = [].
Proof.
  apply (run_delivers_records (mkConfig InfoLevel JSONFormat 64 false)
           (exampleLogger JSONFormat 64) exampleCalls).
  - reflexivity.
  - repeat constructor; discriminate.
Defined.

(** The five calls on a logger in text mode with a buffer of 64 bytes. *)
Lemma run_buffered_whole_records_witness :
  exists l' tr' groups pending,
    run exampleCalls (exampleLogger TextFormat 64, []) = Some (l', tr')
    /\ sink_writes tr' = map lines groups
    /\ Forall (fun g => g <> []) groups
    /\ bytes (buffer l') = lines pending
    /\ concat groups ++ pending
       = records (mkConfig InfoLevel TextFormat 64 false) exampleCalls
    /\ Forall (fun g => Z.of_nat (length (lines g)) <= 64 + 1 \/ length g = 1%nat)
         (groups ++ [pending]).
Proof.
  apply (run_buffered_whole_records (mkConfig InfoLevel TextFormat 64 false)
           (exampleLogger TextFormat 64) exampleCalls).
  - reflexivity.
  - by vm_compute.
  - repeat constructor; discriminate.
Defined.

(** Five calls, the first with a record longer than 256 bytes. *)
Lemma run_pool_buffers_witness :
  exists l' tr',
    run (CallLog MInfo exampleTime (replicate 300 "m"%char) [] :: exampleCalls)
      (exampleLogger TextFormat 0, [])
    = Some (l', tr')
    /\ Forall (fun b => b = make0 256) (pool l')
    /\ Forall fresh_buffer_event tr'.
Proof.
  apply (run_pool_buffers (mkConfig InfoLevel TextFormat 0 false)
           (exampleLogger TextFormat 0)
           (CallLog MInfo exampleTime (replicate 300 "m"%char) [] :: exampleCalls)).
  - reflexivity.
  - repeat constructor; discriminate.
Defined.

(** A buffered logger and a logger whose level is above [FatalLevel]. *)
Lemma Fatal_Panic_end_witness :
  (exists l' tr2,
      Fatal exampleTime (bs "down") [] (exampleLogger TextFormat 4096, [])
      = Some ((l', [] ++ tr2), OsExit 1)
      /\ bytes (buffer l')
         = record_text exampleTime FatalLevel (bs "down") [] ++ [newline]
      /\ sink_writes tr2 = [])
  /\ Fatal exampleTime (bs "down") []
       (mkLogger (mkConfig PanicLevel TextFormat 0 false) (make0 0) [] false, [])
     = Some ((mkLogger (mkConfig PanicLevel TextFormat 0 false) (make0 0) [] false, []),
             OsExit 1).
Proof.
  split.
  - destruct (Fatal_Panic_end exampleTime (bs "down") []
                (exampleLogger TextFormat 4096) [] eq_refl (Forall_nil_2 _))
      as [(l' & tr2 & Hrun & _ & Hbuf) _].
    exists l', tr2. split; [done|].
    destruct Hbuf as [Hb Hw]; [by vm_compute|by vm_compute|].
    split; [exact Hb|exact Hw].
  - destruct (Fatal_Panic_end exampleTime (bs "down") []
                (mkLogger (mkConfig PanicLevel TextFormat 0 false) (make0 0) [] false)
                [] eq_refl (Forall_nil_2 _))
      as [(l' & tr2 & Hrun & Hbelow & _) _].
    destruct Hbelow as [-> ->]; [by vm_compute|]. exact Hrun.
Defined.



(** The empty environment. *)
Lemma ConfigFromEnv_unset_witness :
  ConfigFromEnv (fun _ => []) id = mkConfig DebugLevel TextFormat 0 false
  /\ exists l,
       New (ConfigFromEnv (fun _ => []) id) = Some l
       /\ forall now level msg fields tr,
            DebugLevel <= level ->
            Forall (fun field => value_wf (Value field)) fields ->
            exists l' tr2,
              log now level msg fields (l, tr) = Some (l', tr ++ tr2)
              /\ sink_writes tr2 = [record_text now level msg fields; [newline]].
Proof.
  apply (ConfigFromEnv_unset (fun _ => []) id); reflexivity.
Defined.

(** Two records in a buffer of 4096 bytes. *)
Lemma run_buffered_fits_witness :
  exists l' tr',
    run [CallLog MInfo exampleTime (bs "started") exampleFields;
         CallLog MError exampleTime (bs "failed") []]
      (exampleLogger TextFormat 4096, [])
    = Some (l', tr')
    /\ sink_writes tr' = []
    /\ bytes (buffer l')
       = lines (records (mkConfig InfoLevel TextFormat 4096 false)
                  [CallLog MInfo exampleTime (bs "started") exampleFields;
                   CallLog MError exampleTime (bs "failed") []]).
Proof.
  apply (run_buffered_fits (mkConfig InfoLevel TextFormat 4096 false)
           (exampleLogger TextFormat 4096)
           [CallLog MInfo exampleTime (bs "started") exampleFields;
            CallLog MError exampleTime (bs "failed") []]).
  - reflexivity.
  - by vm_compute.
  - repeat constructor; discriminate.
  - repeat constructor; discriminate.
  - by vm_compute.
Defined.

(** The five calls on a logger in JSON mode with a buffer of 64 bytes. *)
Lemma run_json_lines_witness :
  exists l' tr' l'' tr'',
    run exampleCalls (exampleLogger JSONFormat 64, []) = Some (l', tr')
    /\ Flush (l', tr') = Some (l'', tr'')
    /\ split_lines (concat (sink_writes tr''))
       = (records (mkConfig InfoLevel JSONFormat 64 false) exampleCalls, []).
Proof.
  apply (run_json_lines (mkConfig InfoLevel JSONFormat 64 false)
           (exampleLogger JSONFormat 64) exampleCalls).
  - reflexivity.
  - reflexivity.
  - repeat constructor; discriminate.
Defined.

(** The string [a b]. *)
Lemma needsQuoting_bytes_witness : needsQuoting (bs "a b") = true.
Proof.
  apply (proj2 (needsQuoting_bytes (bs "a b"))).
  exists " "%char. split; [|by left]. apply list_elem_of_further, list_elem_of_here.
Defined.

(** A quote and its escaped form. *)
Lemma appendJSONString_injective_witness :
  bytes (appendJSONString (make0 0) dq)
  <> bytes (appendJSONString (make0 0) (bs "\" ++ dq)).
Proof.
  intros Heq.
  apply (proj1 (appendJSONString_injective (make0 0) dq (bs "\" ++ dq))) in Heq.
  discriminate Heq.
Defined.

(** A nil context at a level the logger discards. *)
Lemma ContextLogger_log_context_witness :
  ContextLogger_log (WithStaticContext None) exampleTime DebugLevel (bs "x") []
    (exampleLogger TextFormat 0, [])
  = None
  /\ ContextLogger_log (WithContext (Some (fun _ => Some exampleContext))) exampleTime
       DebugLevel (bs "x") [] (exampleLogger TextFormat 0, [])
     = Some (exampleLogger TextFormat 0, []).
Proof.
  destruct (ContextLogger_log_context exampleTime DebugLevel (bs "x") []
              (exampleLogger TextFormat 0, [])) as (_ & _ & Hnil & Hctx).
  split; [exact Hnil|].
  destruct (Hctx (fun _ => Some exampleContext) exampleContext eq_refl)
    as (_ & _ & Hbelow).
  apply Hbelow. reflexivity.
Defined.

(** [LOG_LEVEL=WARN] and [LOG_LEVEL=warn] *)
Lemma fromEnvLogLevel_reads_Level_String_witness :
  fromEnvLogLevel (fun _ => bs "WARN") id = WarnLevel
  /\ fromEnvLogLevel (fun _ => bs "WARN") id = fromEnvLogLevel (fun _ => bs "warn") id.
Proof.
  destruct (fromEnvLogLevel_reads_Level_String (fun _ => bs "WARN") id)
    as (Hname & _ & Hcase).
  split.
  - apply (Hname WarnLevel). reflexivity.
  - apply (Hcase (fun _ => bs "warn")); [| |reflexivity];
      repeat constructor.
Defined.

(** [LOG_BUFFER_SIZE=-17] and [LOG_BUFFER_SIZE=4k] *)
Lemma fromEnvBufferSize_reads_decimal_witness :
  fromEnvBufferSize (exampleEnv (bs "-17")) = -17
  /\ fromEnvBufferSize (exampleEnv (bs "4k")) = 0.
Proof.
  split.
  - apply (proj1 (fromEnvBufferSize_reads_decimal (exampleEnv (bs "-17"))) (-17));
      [by vm_compute|reflexivity].
  - destruct (fromEnvBufferSize_reads_decimal (exampleEnv (bs "4k")))
      as (_ & _ & _ & Hbad).
    apply (Hbad "k"%char); [|reflexivity|discriminate|discriminate].
    apply list_elem_of_further, list_elem_of_here.
Defined.
